(** * data-gather: the interview runner, its models and the flow engine

    A shallow embedding of the parts of the repository that decide how an
    interview starts, how its submission actions are resolved into calls
    to the record sink, and how interviews and entries are (de)serialised
    and looked up.

    JavaScript values are modelled as follows: a [string] is a Rocq
    [string]; [T | undefined] and [T | null] are [option T]; a [Map] that
    is only read with [get] and written with [set] is a [gmap]; a plain
    object used as a dictionary is the [gmap] of its own properties,
    written with [JS.setProperty] and read with [JS.getProperty] where
    the code assigns or reads under a key it did not enumerate, or an
    association list in key order where the code enumerates its keys;
    numbers that hold orders and time values are integers ([Z]). *)

From Stdlib Require Import ZArith Ascii String List Sorting.Sorted Permutation.
From stdpp Require Import base option list gmap strings.

Local Open Scope string_scope.
Local Open Scope Z_scope.

(** ** JavaScript primitives used by the sources *)

Module JS.

(** Truthiness of a [string | undefined] value: [if (s)] holds when
    the value is defined and is not the empty string. *)
Definition truthy (o : option string) : bool :=
  match o with
  | Some s => negb (String.eqb s "")
  | None => false
  end.

(** [a ?? b] on a [string | undefined] left operand. *)
Definition nullish {A : Type} (o : option A) (d : A) : A :=
  match o with
  | Some a => a
  | None => d
  end.

(** [Array.prototype.join] on an array of strings. *)
Fixpoint join (sep : string) (l : list string) : string :=
  match l with
  | [] => ""
  | [s] => s
  | s :: rest => s ++ sep ++ join sep rest
  end.

(** [String.prototype.split] with a string separator. [splitFrom] walks
    the string; [skip] counts the characters of a separator occurrence
    that are still to be passed over. The pieces between the occurrences
    are returned, empty pieces included; the empty string splits into one
    empty piece. With an empty separator the string is cut into its
    characters. *)
Fixpoint splitFrom (sep : string) (skip : nat) (s : string) : list string :=
  match s with
  | EmptyString => [""]
  | String c rest =>
      match skip with
      | S k => splitFrom sep k rest
      | O =>
          if String.prefix sep s
          then "" :: splitFrom sep (Nat.pred (String.length sep)) rest
          else match splitFrom sep O rest with
               | [] => [String c ""]
               | piece :: pieces => String c piece :: pieces
               end
      end
  end.

Fixpoint chars (s : string) : list string :=
  match s with
  | EmptyString => []
  | String c rest => String c "" :: chars rest
  end.

Definition split (sep : string) (s : string) : list string :=
  match sep with
  | EmptyString => chars s
  | _ => splitFrom sep O s
  end.

(** [Array.prototype.sort] with a comparator, which is a stable sort: an
    element is placed before the first element of the sorted rest that
    the comparator does not put before it. *)
Fixpoint insertBy {A : Type} (cmp : A -> A -> Z) (x : A) (sorted : list A)
  : list A :=
  match sorted with
  | [] => [x]
  | y :: rest =>
      if cmp x y <=? 0 then x :: y :: rest
      else y :: insertBy cmp x rest
  end.

Fixpoint sort {A : Type} (cmp : A -> A -> Z) (l : list A) : list A :=
  match l with
  | [] => []
  | x :: rest => insertBy cmp x (sort cmp rest)
  end.

(** A string contains a given character. *)
Fixpoint contains (c : ascii) (s : string) : bool :=
  match s with
  | EmptyString => false
  | String d rest => Ascii.eqb d c || contains c rest
  end.

(** The keys under which [Object.prototype], from which every plain
    object inherits, has members. *)
Definition objectPrototypeKeys : list string :=
  ["constructor"; "__defineGetter__"; "__defineSetter__"; "hasOwnProperty";
   "__lookupGetter__"; "__lookupSetter__"; "isPrototypeOf";
   "propertyIsEnumerable"; "toString"; "valueOf"; "__proto__";
   "toLocaleString"].

(** [object[key] = value] on a plain object, for a value that is a
    string or undefined. Under the key [__proto__] the assignment
    reaches the setter of [Object.prototype], which ignores a value
    that is neither an object nor null: the object stays as it is.
    Under any other key the object gets, or changes, an own property. *)
Definition setProperty {V : Type} (object : gmap string V) (key : string)
  (value : V) : gmap string V :=
  if String.eqb key "__proto__" then object else <[key := value]> object.

(** What [object[key]] gives on a plain object whose own properties
    hold strings or undefined: the own property when there is one,
    otherwise the member [Object.prototype] has under the key (a
    function, or under [__proto__] the prototype itself), otherwise
    undefined. *)
Inductive PropertyValue :=
| StringValue (s : string)
| UndefinedValue
| PrototypeValue (key : string).

Definition getProperty (object : gmap string (option string)) (key : string)
  : PropertyValue :=
  match object !! key with
  | Some (Some s) => StringValue s
  | Some None => UndefinedValue
  | None =>
      if existsb (String.eqb key) objectPrototypeKeys then PrototypeValue key
      else UndefinedValue
  end.

End JS.

(** ** models/InterviewScreenEntry.ts *)

Module InterviewScreenEntry.

(** The entry of [models/InterviewScreenEntry.ts]. *)
Record T := mkT {
  id : string;
  name : string;
  prompt : string;
  responseId : string;
  responseType : string;
  screenId : string;
  text : string;
}.

(** [getEntryById(entryId, entries)]: [entries] may be [null]; the loop
    returns at the first entry whose id is [entryId]. *)
Fixpoint findEntry (entryId : string) (entries : list T) : option T :=
  match entries with
  | [] => None
  | entry :: rest =>
      if String.eqb (id entry) entryId then Some entry
      else findEntry entryId rest
  end.

Definition getEntryById (entryId : string) (entries : option (list T))
  : option T :=
  match entries with
  | None => None
  | Some l => findEntry entryId l
  end.

End InterviewScreenEntry.


(** ** models/InterviewScreen: the fields of a screen the runner reads *)

Module InterviewScreen.

Record T := mkT {
  id : string;
  title : string;
  isInStartingState : bool;
  startingStateOrder : option Z;
  entries : list string;
  actions : list string;
}.

End InterviewScreen.


(** ** models/Interview *)

Module Interview.

Definition LANGUAGE_DELIMITER : string := ";".

Section Models.

(** Luxon's [DateTime] with [DateTime.fromISO] and [toISO], and the
    models nested in an interview with their own (de)serialisers, are
    defined in modules outside this file's sources; the functions below
    only pass values through them. *)
Context {DateTime : Type}.
Context {RawScreen : Type}.
Context {Action ActionCreate RawAction RawActionOut : Type}.
Context {Setting SettingCreate RawSetting RawSettingOut : Type}.
Variable fromISO : string -> DateTime.
Variable toISO : DateTime -> string.
Variable deserializeScreen : RawScreen -> InterviewScreen.T.
Variable deserializeAction : RawAction -> Action.
Variable serializeAction : Action -> RawActionOut.
Variable serializeActionCreate : ActionCreate -> RawActionOut.
Variable deserializeSetting : RawSetting -> Setting.
Variable serializeSetting : Setting -> RawSettingOut.
Variable serializeSettingCreate : SettingCreate -> RawSettingOut.

(** [Interview]: all the metadata of an interview. *)
Record T := mkT {
  allowedLanguages : list string;
  createdDate : DateTime;
  defaultLanguage : string;
  description : string;
  id : string;
  name : string;
  notes : string;
  ownerId : string;
  published : bool;
  vanityUrl : option string;
}.

(** [InterviewWithScreensAndActions]. *)
Record WithScreensAndActions := mkWithScreensAndActions {
  interview : T;
  interviewSettings : list Setting;
  screens : list InterviewScreen.T;
  submissionActions : list Action;
}.

(** [InterviewCreate]: [id] and [createdDate] are set by the database. *)
Record CreateT := mkCreateT {
  c_allowedLanguages : list string;
  c_defaultLanguage : string;
  c_description : string;
  c_name : string;
  c_notes : string;
  c_ownerId : string;
  c_published : bool;
  c_vanityUrl : option string;
}.

(** [InterviewUpdate]: nested actions and settings are either fully
    specified or their "Create" variants, which carry a [tempId]. *)
Record UpdateT := mkUpdateT {
  u_interview : T;
  u_interviewSettings : list (Setting + SettingCreate);
  u_submissionActions : list (Action + ActionCreate);
}.

(** [SerializedInterviewRead], with the optional nested arrays of
    [SerializedInterviewReadWithScreensAndActions]; a key that is absent
    from the object is [None]. *)
Record SerializedRead := mkSerializedRead {
  r_description : string;
  r_name : string;
  r_notes : string;
  r_vanityUrl : option string;
  r_published : bool;
  r_ownerId : string;
  r_defaultLanguage : string;
  r_allowedLanguages : string;
  r_id : string;
  r_createdDate : string;
  r_screens : option (list RawScreen);
  r_submissionActions : option (list RawAction);
  r_interviewSettings : option (list RawSetting);
}.

Record SerializedCreate := mkSerializedCreate {
  sc_allowedLanguages : string;
  sc_defaultLanguage : string;
  sc_description : string;
  sc_name : string;
  sc_notes : string;
  sc_ownerId : string;
  sc_published : bool;
  sc_vanityUrl : option string;
}.

Record SerializedUpdate := mkSerializedUpdate {
  su_allowedLanguages : string;
  su_createdDate : string;
  su_defaultLanguage : string;
  su_description : string;
  su_id : string;
  su_name : string;
  su_notes : string;
  su_ownerId : string;
  su_published : bool;
  su_vanityUrl : option string;
  su_submissionActions : list RawActionOut;
  su_interviewSettings : list RawSettingOut;
}.

(** What [deserialize] returns: the interview alone, or the interview
    with its nested models when the raw object has a [screens] key. *)
Inductive Deserialized :=
| Plain (i : T)
| WithChildren (i : T) (scr : list InterviewScreen.T)
    (acts : option (list Action)) (sets : option (list Setting)).

Definition interviewOf (d : Deserialized) : T :=
  match d with
  | Plain i => i
  | WithChildren i _ _ _ => i
  end.

(** [create]: a new empty interview. *)
Definition create (description name ownerId : string) : CreateT :=
  {| c_ownerId := ownerId;
     c_description := description;
     c_name := name;
     c_published := false;
     c_notes := "";
     c_allowedLanguages := ["en"];
     c_defaultLanguage := "en";
     c_vanityUrl := None |}.

(** [getStartingScreens]: the screens in starting state that have an
    order, sorted by descending order. *)
Definition getStartingScreens (interview : WithScreensAndActions)
  : list InterviewScreen.T :=
  let startingScreens :=
    List.filter
      (fun screen =>
         InterviewScreen.isInStartingState screen
         && bool_decide (InterviewScreen.startingStateOrder screen <> None))
      (screens interview) in
  let sortedScreens :=
    JS.sort
      (fun scr1 scr2 =>
         JS.nullish (InterviewScreen.startingStateOrder scr2) 0
         - JS.nullish (InterviewScreen.startingStateOrder scr1) 0)
      startingScreens in
  sortedScreens.

(** [deserialize]: both return statements rebuild the raw object with
    the parsed date and the split list of languages. *)
Definition deserializeInterview (rawObj : SerializedRead) : T :=
  {| allowedLanguages := JS.split LANGUAGE_DELIMITER (r_allowedLanguages rawObj);
     createdDate := fromISO (r_createdDate rawObj);
     defaultLanguage := r_defaultLanguage rawObj;
     description := r_description rawObj;
     id := r_id rawObj;
     name := r_name rawObj;
     notes := r_notes rawObj;
     ownerId := r_ownerId rawObj;
     published := r_published rawObj;
     vanityUrl := r_vanityUrl rawObj |}.

Definition deserialize (rawObj : SerializedRead) : Deserialized :=
  match r_screens rawObj with
  | Some rawScreens =>
      WithChildren (deserializeInterview rawObj)
        (List.map deserializeScreen rawScreens)
        (option_map (List.map deserializeAction) (r_submissionActions rawObj))
        (option_map (List.map deserializeSetting) (r_interviewSettings rawObj))
  | None => Plain (deserializeInterview rawObj)
  end.

(** [serialize]: an [InterviewUpdate] has a [createdDate], an
    [InterviewCreate] has none. *)
Definition serialize (interview : UpdateT + CreateT)
  : SerializedUpdate + SerializedCreate :=
  match interview with
  | inl upd =>
      let i := u_interview upd in
      inl {| su_allowedLanguages := JS.join LANGUAGE_DELIMITER (allowedLanguages i);
             su_createdDate := toISO (createdDate i);
             su_defaultLanguage := defaultLanguage i;
             su_description := description i;
             su_id := id i;
             su_name := name i;
             su_notes := notes i;
             su_ownerId := ownerId i;
             su_published := published i;
             su_vanityUrl := vanityUrl i;
             su_submissionActions :=
               List.map
                 (fun action =>
                    match action with
                    | inr created => serializeActionCreate created
                    | inl existing => serializeAction existing
                    end)
                 (u_submissionActions upd);
             su_interviewSettings :=
               List.map
                 (fun setting =>
                    match setting with
                    | inr created => serializeSettingCreate created
                    | inl existing => serializeSetting existing
                    end)
                 (u_interviewSettings upd) |}
  | inr cre =>
      inr {| sc_allowedLanguages := JS.join LANGUAGE_DELIMITER (c_allowedLanguages cre);
             sc_defaultLanguage := c_defaultLanguage cre;
             sc_description := c_description cre;
             sc_name := c_name cre;
             sc_notes := c_notes cre;
             sc_ownerId := c_ownerId cre;
             sc_published := c_published cre;
             sc_vanityUrl := c_vanityUrl cre |}
  end.

(** The [allowedLanguages] of either input of [serialize] and of either
    of its results. *)
Definition languagesOf (interview : UpdateT + CreateT) : list string :=
  match interview with
  | inl upd => allowedLanguages (u_interview upd)
  | inr cre => c_allowedLanguages cre
  end.

Definition serializedLanguagesOf (s : SerializedUpdate + SerializedCreate)
  : string :=
  match s with
  | inl su => su_allowedLanguages su
  | inr sc => sc_allowedLanguages sc
  end.

End Models.

End Interview.


(** ** The built-in [Date]: time values and [toISOString] *)

Module JSDate.

Definition msPerDay : Z := 86400000.

Definition digit (n : Z) : ascii :=
  ascii_of_nat (48 + Z.to_nat (n mod 10)).

(** The last [width] decimal digits of a non-negative number, padded
    with zeros on the left. *)
Fixpoint padded (width : nat) (n : Z) : string :=
  match width with
  | O => ""
  | S w => padded w (n / 10) ++ String (digit n) ""
  end.

(** Year, month and day of the proleptic Gregorian calendar for a count
    of days since 1970-01-01. *)
Definition civilFromDays (days : Z) : Z * Z * Z :=
  let z := days + 719468 in
  let era := z / 146097 in
  let doe := z - era * 146097 in
  let yoe := (doe - doe / 1460 + doe / 36524 - doe / 146096) / 365 in
  let doy := doe - (365 * yoe + yoe / 4 - yoe / 100) in
  let mp := (5 * doy + 2) / 153 in
  let d := doy - (153 * mp + 2) / 5 + 1 in
  let m := if mp <? 10 then mp + 3 else mp - 9 in
  let y := yoe + era * 400 + (if m <=? 2 then 1 else 0) in
  (y, m, d).

(** Years 0 to 9999 are written with four digits, the others with a
    sign and six digits. *)
Definition yearString (y : Z) : string :=
  if (0 <=? y) && (y <=? 9999) then padded 4 y
  else (if y <? 0 then "-" else "+") ++ padded 6 (Z.abs y).

(** [Date.prototype.toISOString] of a time value (milliseconds since
    the epoch, UTC): [YYYY-MM-DDTHH:mm:ss.sssZ]. *)
Definition toISOString (t : Z) : string :=
  let days := t / msPerDay in
  let ms := t mod msPerDay in
  let '(y, m, d) := civilFromDays days in
  yearString y ++ "-" ++ padded 2 m ++ "-" ++ padded 2 d
  ++ "T" ++ padded 2 (ms / 3600000)
  ++ ":" ++ padded 2 (ms / 60000 mod 60)
  ++ ":" ++ padded 2 (ms / 1000 mod 60)
  ++ "." ++ padded 3 (ms mod 1000) ++ "Z".

End JSDate.


(** ** models/SubmissionAction *)

Module SubmissionAction.

Inductive ActionType := EDIT_ROW | INSERT_ROW.

(** [ACTION_TYPES]: the values of the enumeration. *)
Definition ACTION_TYPES : list ActionType := [EDIT_ROW; INSERT_ROW].

Definition actionTypeToDisplayName (actionType : ActionType) : string :=
  match actionType with
  | EDIT_ROW => "Edit Row"
  | INSERT_ROW => "Insert Row"
  end.

(** The special values of a field mapping. [NOW_DATE] is the only
    member: the [switch] over the type has this one case, and its
    [default] branch is [assertUnreachable], which is typed for a value
    that cannot exist. The members are non-empty strings at run time, so
    that a member is truthy. *)
Inductive SpecialValueType := NOW_DATE.

(** [EntryResponseLookupConfig]: either a sub-field of the answer to an
    entry, or a computed value. *)
Record EntryResponseLookupConfig := mkLookup {
  entryId : option string;
  responseFieldKey : option string;
  specialValueType : option SpecialValueType;
}.

(** [config]: the type tag with the payload of that type. *)
Inductive ActionConfig :=
| EditRow (entryId : string) (primaryKeyField : option string)
| InsertRow (baseTarget tableTarget : string).

Definition typeOf (config : ActionConfig) : ActionType :=
  match config with
  | EditRow _ _ => EDIT_ROW
  | InsertRow _ _ => INSERT_ROW
  end.

(** [fieldMappings] is a [Map] from field id to lookup config; it is
    kept as the list of its entries in iteration order, whose keys are
    pairwise different. *)
Record T := mkT {
  id : string;
  order : Z;
  interviewId : string;
  config : ActionConfig;
  fieldMappings : list (string * EntryResponseLookupConfig);
}.

End SubmissionAction.

(** ** The entry as the interview runner reads it *)

Module Entry.

(** [InterviewScreenEntry.ResponseType]: the runner only tells the
    Airtable-backed type from the others. *)
Inductive ResponseType :=
| AIRTABLE
| OTHER (tag : string).

Definition isAirtable (t : ResponseType) : bool :=
  match t with
  | AIRTABLE => true
  | OTHER _ => false
  end.

Record AirtableOptions := mkAirtableOptions {
  selectedBase : string;
  selectedTable : string;
  selectedFields : list string;
}.

Record T := mkT {
  id : string;
  responseKey : string;
  responseType : ResponseType;
  responseTypeOptions : AirtableOptions;
}.

End Entry.

(** ** script/types: the response data of a run *)

Module ResponseData.

(** What is recorded for one response key: the entry and its answer. *)
Record Datum {Response : Type} := mkDatum {
  entry : Entry.T;
  response : Response;
}.
Arguments Datum : clear implicits.

(** [ResponseData] is an object keyed by response key; it is kept as the
    list of its properties in the order [Object.keys] enumerates them. *)
Definition T (Response : Type) : Type := list (string * Datum Response).

Fixpoint get {Response : Type} (responseData : T Response) (responseKey : string)
  : option (Datum Response) :=
  match responseData with
  | [] => None
  | (key, datum) :: rest =>
      if String.eqb key responseKey then Some datum else get rest responseKey
  end.

End ResponseData.


(** ** components/InterviewRunnerView: what happens when an interview completes *)

Module Runner.

(** A call that reaches the record sink through [api.airtable]. *)
Inductive SinkCall :=
| UpdateRecord (baseId tableId recordId interviewId : string)
    (fields : gmap string string)
| CreateRecord (baseId tableId interviewId : string)
    (fields : gmap string string).

(** What [raiseHTTPErrorToast] shows and returns for a failed call. *)
Record Notice := mkNotice {
  errorMessage : string;
  errorTitle : string;
}.

(** What the observer of a [useMutation] hook follows: its latest
    [mutate] call, by its position among the calls to the sink, with
    the notice the [onError] given with that call raises if the sink
    fails the call. *)
Record Followed := mkFollowed {
  position : nat;
  failure : option Notice;
}.

(** The state the completion callback acts on: how many times the clock
    has been read, the calls issued to the sink, the toasts raised, the
    component's [errorOnComplete] state, and what the observers of the
    two mutations follow. *)
Record World := mkWorld {
  clockReads : nat;
  sinkCalls : list SinkCall;
  toasts : list Notice;
  errorOnComplete : option Notice;
  updateMutation : option Followed;
  createMutation : option Followed;
}.

Definition initialWorld : World :=
  {| clockReads := O; sinkCalls := []; toasts := []; errorOnComplete := None;
     updateMutation := None; createMutation := None |}.

(** Computations that read and change the world. *)
Definition M (A : Type) : Type := World -> A * World.

Definition ret {A : Type} (a : A) : M A := fun w => (a, w).

Definition bind {A B : Type} (m : M A) (k : A -> M B) : M B :=
  fun w => let '(a, w') := m w in k a w'.

Notation "'let*' x ':=' m 'in' k" := (bind m (fun x => k))
  (at level 10, x name, m at level 100, k at level 200).
Notation "'do' m 'then' k" := (bind m (fun _ => k))
  (at level 10, m at level 100, k at level 200).

(** [Array.prototype.forEach] with an effectful callback. *)
Fixpoint forEach {A : Type} (f : A -> M unit) (l : list A) : M unit :=
  match l with
  | [] => ret tt
  | a :: rest => do f a then forEach f rest
  end.

Section Completion.

(** The answer payloads, and [ConfigurableScript.getResponseValue], which
    selects a field of the answer recorded under a response key, come
    from the script module. *)
Context {Response : Type}.
Variable getResponseValue :
  ResponseData.T Response -> string -> option string -> option string.

(** The environment of the callback: the time value the clock shows at
    its n-th reading, the error, if any, with which the sink answers the
    n-th call, and the notice [raiseHTTPErrorToast] makes of an error. *)
Context {HTTPError : Type}.
Variable clock : nat -> Z.
Variable sinkResult : nat -> SinkCall -> option HTTPError.
Variable raiseHTTPErrorToast : HTTPError -> Notice.

(** The [interviewId] prop of the component. *)
Variable interviewId : string.

(** [new Date()]: one more reading of the clock. *)
Definition newDate : M Z :=
  fun w =>
    (clock (clockReads w),
     {| clockReads := S (clockReads w);
        sinkCalls := sinkCalls w;
        toasts := toasts w;
        errorOnComplete := errorOnComplete w;
        updateMutation := updateMutation w;
        createMutation := createMutation w |}).

Definition getSpecialValueForSubmission
  (specialValueType : SubmissionAction.SpecialValueType) : M string :=
  match specialValueType with
  | SubmissionAction.NOW_DATE =>
      let* now := newDate in ret (JSDate.toISOString now)
  end.

(** The [onError] handler given with both mutations, from the notice
    [raiseHTTPErrorToast] makes of the error on: the toast is shown and
    the notice becomes [errorOnComplete]. *)
Definition onError (notice : Notice) : M unit :=
  fun w =>
    (tt,
     {| clockReads := clockReads w;
        sinkCalls := sinkCalls w;
        toasts := toasts w ++ [notice];
        errorOnComplete := Some notice;
        updateMutation := updateMutation w;
        createMutation := createMutation w |}).

(** [mutate(data, { onError })] of react-query: the call is issued
    once, and is made whatever becomes of the calls before it. The
    observer of the hook leaves the call it followed and follows this
    one, with the options given here: of the calls made through one
    hook, only the latest can still run its [onError], once the sink
    has answered. *)
Definition mutate (call : SinkCall) : M unit :=
  fun w =>
    let n := length (sinkCalls w) in
    let followed :=
      Some {| position := n;
              failure := option_map raiseHTTPErrorToast (sinkResult n call) |} in
    (tt,
     {| clockReads := clockReads w;
        sinkCalls := sinkCalls w ++ [call];
        toasts := toasts w;
        errorOnComplete := errorOnComplete w;
        updateMutation :=
          match call with
          | UpdateRecord _ _ _ _ _ => followed
          | CreateRecord _ _ _ _ => updateMutation w
          end;
        createMutation :=
          match call with
          | UpdateRecord _ _ _ _ _ => createMutation w
          | CreateRecord _ _ _ _ => followed
          end |}).

Definition airtableUpdateRecord
  (baseId tableId recordId : string) (fields : gmap string string) : M unit :=
  mutate (UpdateRecord baseId tableId recordId interviewId fields).

Definition airtableCreateRecord
  (baseId tableId : string) (fields : gmap string string) : M unit :=
  mutate (CreateRecord baseId tableId interviewId fields).

(** [allEntries]: the entries of the response data, indexed by their id;
    a later property of the response data replaces an earlier one with
    the same entry id. *)
Definition allEntriesOf (responseData : ResponseData.T Response)
  : gmap string Entry.T :=
  fold_left
    (fun map property =>
       <[Entry.id (ResponseData.entry (snd property))
         := ResponseData.entry (snd property)]> map)
    responseData ∅.

Section Actions.

Variable responseData : ResponseData.T Response.
Variable allEntries : gmap string Entry.T.

(** The value of one field mapping: the body of the [forEach] callback
    over [fieldMappings] up to the test on [responseValue]. *)
Definition resolveResponseValue
  (entryLookupConfig : SubmissionAction.EntryResponseLookupConfig) : M string :=
  let special :=
    match SubmissionAction.specialValueType entryLookupConfig with
    | Some specialValueType => getSpecialValueForSubmission specialValueType
    | None => ret ""
    end in
  match SubmissionAction.entryId entryLookupConfig with
  | Some entryId =>
      if String.eqb entryId "" then special
      else
        match allEntries !! entryId with
        | Some entry =>
            ret (JS.nullish
                   (getResponseValue responseData (Entry.responseKey entry)
                      (SubmissionAction.responseFieldKey entryLookupConfig))
                   "")
        | None => ret ""
        end
  | None => special
  end.

(** The [forEach] over [fieldMappings] that fills [fields]; the sources
    repeat this block in the [EDIT_ROW] and the [INSERT_ROW] case. *)
Fixpoint collectFields (fields : gmap string string)
  (fieldMappings : list (string * SubmissionAction.EntryResponseLookupConfig))
  : M (gmap string string) :=
  match fieldMappings with
  | [] => ret fields
  | (fieldId, entryLookupConfig) :: rest =>
      let* responseValue := resolveResponseValue entryLookupConfig in
      collectFields
        (if String.eqb responseValue "" then fields
         else JS.setProperty fields fieldId responseValue)
        rest
  end.

(** The body of the [forEach] over the submission actions. *)
Definition handleSubmissionAction (submissionAction : SubmissionAction.T)
  : M unit :=
  match SubmissionAction.config submissionAction with
  | SubmissionAction.EditRow entryId primaryKeyField =>
      match allEntries !! entryId with
      | Some entryTarget =>
          if Entry.isAirtable (Entry.responseType entryTarget) then
            let baseId :=
              Entry.selectedBase (Entry.responseTypeOptions entryTarget) in
            let tableId :=
              Entry.selectedTable (Entry.responseTypeOptions entryTarget) in
            let airtableRecordId :=
              getResponseValue responseData (Entry.responseKey entryTarget)
                primaryKeyField in
            match airtableRecordId with
            | Some recordId =>
                if String.eqb recordId "" then ret tt
                else
                  let* fields :=
                    collectFields ∅
                      (SubmissionAction.fieldMappings submissionAction) in
                  airtableUpdateRecord baseId tableId recordId fields
            | None => ret tt
            end
          else ret tt
      | None => ret tt
      end
  | SubmissionAction.InsertRow baseTarget tableTarget =>
      let* fields :=
        collectFields ∅ (SubmissionAction.fieldMappings submissionAction) in
      airtableCreateRecord baseTarget tableTarget fields
  end.

End Actions.

(** [onInterviewComplete(responseData)]; [interview] is the value of the
    [useInterview] hook, undefined while the interview is loading. *)
Definition onInterviewComplete {DateTime Setting : Type}
  (interview :
     option (@Interview.WithScreensAndActions DateTime SubmissionAction.T Setting))
  (responseData : ResponseData.T Response) : M unit :=
  match interview with
  | Some interview =>
      let allEntries := allEntriesOf responseData in
      forEach (handleSubmissionAction responseData allEntries)
        (Interview.submissionActions interview)
  | None => ret tt
  end.

End Completion.

(** The callback of a followed call, run when the sink has answered
    it. *)
Definition notify (followed : option Followed) : M unit :=
  match followed with
  | Some {| failure := Some notice |} => onError notice
  | _ => ret tt
  end.

(** The sink has answered every call: each observer runs the callback
    of the call it follows, and has nothing left to report. The earlier
    of the two followed calls is taken to be answered first. *)
Definition settle : M unit :=
  fun w =>
    let '(first, second) :=
      match updateMutation w, createMutation w with
      | Some updated, Some created =>
          if (position created <? position updated)%nat
          then (Some created, Some updated)
          else (Some updated, Some created)
      | updated, created => (updated, created)
      end in
    let w' := snd ((do notify first then notify second) w) in
    (tt,
     {| clockReads := clockReads w';
        sinkCalls := sinkCalls w';
        toasts := toasts w';
        errorOnComplete := errorOnComplete w';
        updateMutation := None;
        createMutation := None |}).

End Runner.


(** ** script/ConfigurableScript and the interview engine

    The script module and the engine it feeds are not among the sources
    of this development; what the runner and the properties below need of
    them is written down here from the specification. *)

Module Script.

(** Modelled from the spec: the payload of an answer, which the sources
    import from [script/types]. An answer to a simple response type is a
    string; an answer to a composite response type (an Airtable-backed
    entry) is structured into named sub-fields. *)
Inductive Response :=
| Simple (value : string)
| Structured (fields : gmap string string).

(** Modelled from the spec: [ConfigurableScript.getResponseValue], which
    the runner calls. It looks up the answer recorded under the response
    key and extracts [responseFieldKey] from it; for a simple response
    type this is the identity projection. *)
Definition getResponseValue (responseData : ResponseData.T Response)
  (responseKey : string) (responseFieldKey : option string) : option string :=
  match ResponseData.get responseData responseKey with
  | None => None
  | Some datum =>
      match ResponseData.response datum with
      | Simple value => Some value
      | Structured fields =>
          match responseFieldKey with
          | Some key => fields !! key
          | None => None
          end
      end
  end.

(** Modelled from the spec: [ResponseAccumulator.record], which stores
    or replaces the answer for [entry.responseKey]. *)
Fixpoint record (acc : ResponseData.T Response) (entry : Entry.T)
  (value : Response) : ResponseData.T Response :=
  match acc with
  | [] => [(Entry.responseKey entry, ResponseData.mkDatum Response entry value)]
  | (key, datum) :: rest =>
      if String.eqb key (Entry.responseKey entry)
      then (key, ResponseData.mkDatum Response entry value) :: rest
      else (key, datum) :: record rest entry value
  end.

(** Modelled from the spec: the recorded answer of the entry a rule
    refers to, which [ConditionEvaluator.matches] looks up. *)
Fixpoint answerOf (acc : ResponseData.T Response) (entryId : string)
  : option (ResponseData.Datum Response) :=
  match acc with
  | [] => None
  | (_, datum) :: rest =>
      if String.eqb (Entry.id (ResponseData.entry datum)) entryId
      then Some datum
      else answerOf rest entryId
  end.

(** Modelled from the spec: the target of a ConditionalAction, either
    "goto screen X" or "end interview". *)
Inductive Target :=
| Goto (screenId : string)
| EndInterview.

Section Flow.

(** The comparison operators and their meaning per response type are a
    capability the specification leaves abstract. *)
Context {Operator : Type}.
Variable compare : Entry.ResponseType -> Operator -> Response -> string -> bool.

(** Modelled from the spec: a ConditionalAction, a branching rule owned
    by a screen, with a condition on the recorded answer of one entry. *)
Record ConditionalAction := mkConditionalAction {
  actionId : string;
  screenId : string;
  entryId : string;
  operator : Operator;
  value : string;
  target : Target;
}.

(** Modelled from the spec: [ConditionEvaluator.matches]. An unanswered
    entry is a non-match; otherwise the comparison of the response type
    decides. *)
Definition matches (condition : ConditionalAction)
  (acc : ResponseData.T Response) : bool :=
  match answerOf acc (entryId condition) with
  | None => false
  | Some datum =>
      compare (Entry.responseType (ResponseData.entry datum))
        (operator condition) (ResponseData.response datum) (value condition)
  end.

(** Modelled from the spec: a screen with its entries, as the runner
    indexes them by screen id ([InterviewScreen.WithChildrenT]). *)
Record WithChildrenT := mkWithChildrenT {
  screen : InterviewScreen.T;
  entries : list Entry.T;
}.

Context {DateTime Setting : Type}.

(** The three arguments the runner gives to [new ConfigurableScript]:
    the interview with its screens, in the order they were supplied, and
    its submission actions; the conditional actions of each screen, in
    priority order; the screens indexed by their id. *)
Record Config := mkConfig {
  interview :
    @Interview.WithScreensAndActions DateTime SubmissionAction.T Setting;
  actions : gmap string (list ConditionalAction);
  screens : gmap string WithChildrenT;
}.

(** Modelled from the spec: the states of the flow. *)
Inductive FlowState :=
| INITIAL
| AtScreen (screenId : string)
| TERMINAL.

Inductive ConfigurationError :=
| NoStartingScreen
| UnknownEntry (entryId : string)
| UnknownScreen (screenId : string).

(** The ids of the entries of the supplied screens. *)
Definition entryIdsOf (cfg : Config) : list string :=
  flat_map
    (fun s =>
       match screens cfg !! InterviewScreen.id s with
       | Some children => List.map Entry.id (entries children)
       | None => []
       end)
    (Interview.screens (interview cfg)).

Definition screenIdsOf (cfg : Config) : list string :=
  List.map InterviewScreen.id (Interview.screens (interview cfg)).

(** All the conditional actions that were supplied. *)
Definition allActionsOf (cfg : Config) : list ConditionalAction :=
  concat (List.map snd (map_to_list (actions cfg))).

(** The entry ids a submission action refers to: the target entry of an
    [EDIT_ROW], and the entry of each field mapping that names one. *)
Definition entryRefsOf (submissionAction : SubmissionAction.T) : list string :=
  match SubmissionAction.config submissionAction with
  | SubmissionAction.EditRow entryId _ => [entryId]
  | SubmissionAction.InsertRow _ _ => []
  end
  ++ flat_map
       (fun mapping =>
          match SubmissionAction.entryId (snd mapping) with
          | Some entryId => if String.eqb entryId "" then [] else [entryId]
          | None => []
          end)
       (SubmissionAction.fieldMappings submissionAction).

Definition member (x : string) (l : list string) : bool :=
  existsb (String.eqb x) l.

(** The first element of a list of ids that is not in [known]. *)
Definition firstUnknown (known ids : list string) : option string :=
  List.find (fun x => negb (member x known)) ids.

(** Modelled from the spec: INITIAL to the first screen. Among the
    starting screens, which [Interview.getStartingScreens] returns by
    descending order, the one with the highest order is picked; with
    none, there is no valid entry point. *)
Definition initialScreen (cfg : Config)
  : ConfigurationError + InterviewScreen.T :=
  match Interview.getStartingScreens (interview cfg) with
  | first :: _ => inr first
  | [] => inl NoStartingScreen
  end.

(** Modelled from the spec: the checks made when the engine is
    constructed. Every entry a conditional action or a submission action
    refers to, and every screen a conditional action goes to, is among
    those supplied, and there is a starting screen. *)
Definition validate (cfg : Config) : option ConfigurationError :=
  match firstUnknown (entryIdsOf cfg)
          (List.map entryId (allActionsOf cfg)
           ++ flat_map entryRefsOf
                (Interview.submissionActions (interview cfg))) with
  | Some unknown => Some (UnknownEntry unknown)
  | None =>
      match firstUnknown (screenIdsOf cfg)
              (flat_map
                 (fun a => match target a with
                           | Goto sid => [sid]
                           | EndInterview => []
                           end)
                 (allActionsOf cfg)) with
      | Some unknown => Some (UnknownScreen unknown)
      | None =>
          match initialScreen cfg with
          | inl err => Some err
          | inr _ => None
          end
      end
  end.

(** Modelled from the spec: the engine of one run, with its state, the
    answers accumulated so far, and the screens the Moderator was asked
    to present, latest last. *)
Record Engine := mkEngine {
  config : Config;
  state : FlowState;
  accumulator : ResponseData.T Response;
  asked : list string;
}.

(** Modelled from the spec: the construction of the engine, which fails
    with the configuration error the checks report. *)
Definition construct (cfg : Config) : ConfigurationError + Engine :=
  match validate cfg with
  | Some err => inl err
  | None =>
      inr {| config := cfg; state := INITIAL; accumulator := []; asked := [] |}
  end.

(** Modelled from the spec: the start of a run. The engine is
    constructed, and the Moderator is asked to present the initial
    screen. *)
Definition start (cfg : Config) : ConfigurationError + Engine :=
  match construct cfg with
  | inl err => inl err
  | inr engine =>
      match initialScreen cfg with
      | inl err => inl err
      | inr first =>
          inr {| config := cfg;
                 state := AtScreen (InterviewScreen.id first);
                 accumulator := accumulator engine;
                 asked := asked engine ++ [InterviewScreen.id first] |}
      end
  end.

(** The screen that follows the screen with the given id in a sequence
    of screens. *)
Fixpoint screenAfter (screenId : string) (sequence : list InterviewScreen.T)
  : option InterviewScreen.T :=
  match sequence with
  | [] => None
  | s :: rest =>
      if String.eqb (InterviewScreen.id s) screenId then List.head rest
      else screenAfter screenId rest
  end.

(** The conditional actions of a screen, in priority order. *)
Definition actionsOf (cfg : Config) (s : InterviewScreen.T)
  : list ConditionalAction :=
  match actions cfg !! InterviewScreen.id s with
  | Some rules => rules
  | None => []
  end.

(** Modelled from the spec: [FlowResolver.next]. The first conditional
    action of the current screen that matches decides; with none, the
    flow goes to the next screen in the order the screens were supplied,
    and to TERMINAL after the last one. *)
Definition next (cfg : Config) (currentScreen : InterviewScreen.T)
  (acc : ResponseData.T Response) : FlowState :=
  match List.find (fun rule => matches rule acc) (actionsOf cfg currentScreen) with
  | Some rule =>
      match target rule with
      | Goto sid => AtScreen sid
      | EndInterview => TERMINAL
      end
  | None =>
      match screenAfter (InterviewScreen.id currentScreen)
              (Interview.screens (interview cfg)) with
      | Some following => AtScreen (InterviewScreen.id following)
      | None => TERMINAL
      end
  end.

End Flow.

End Script.


(** * Vocabulary of the properties *)

Module Vocabulary.

(** A screen qualifies as a starting screen when it is in starting state
    and has a starting order. *)
Definition qualifies (s : InterviewScreen.T) : Prop :=
  InterviewScreen.isInStartingState s = true
  /\ InterviewScreen.startingStateOrder s <> None.

(** The starting order of a screen, read as the comparator of
    [getStartingScreens] reads it. *)
Definition orderOf (s : InterviewScreen.T) : Z :=
  JS.nullish (InterviewScreen.startingStateOrder s) 0.

(** A string of decimal digits. *)
Definition isDigit (c : ascii) : bool :=
  (48 <=? nat_of_ascii c)%nat && (nat_of_ascii c <=? 57)%nat.

Fixpoint allDigits (s : string) : bool :=
  match s with
  | EmptyString => true
  | String c rest => isDigit c && allDigits rest
  end.

Definition digits (n : nat) (s : string) : Prop :=
  String.length s = n /\ allDigits s = true.

(** The extended ISO 8601 format of an instant in UTC: the year with
    four digits, or with a sign and six digits, then
    [-MM-DDTHH:mm:ss.sssZ]. *)
Definition ISO8601 (s : string) : Prop :=
  exists year month day hours minutes seconds millis,
    s = year ++ "-" ++ month ++ "-" ++ day ++ "T" ++ hours ++ ":" ++ minutes
        ++ ":" ++ seconds ++ "." ++ millis ++ "Z"
    /\ (digits 4 year
        \/ exists magnitude,
             digits 6 magnitude
             /\ (year = "+" ++ magnitude \/ year = "-" ++ magnitude))
    /\ digits 2 month /\ digits 2 day /\ digits 2 hours /\ digits 2 minutes
    /\ digits 2 seconds /\ digits 3 millis.

(** A world with another count of clock readings. *)
Definition withClock (w : Runner.World) (reads : nat) : Runner.World :=
  {| Runner.clockReads := reads;
     Runner.sinkCalls := Runner.sinkCalls w;
     Runner.toasts := Runner.toasts w;
     Runner.errorOnComplete := Runner.errorOnComplete w;
     Runner.updateMutation := Runner.updateMutation w;
     Runner.createMutation := Runner.createMutation w |}.

(** The payload of a call to the sink. *)
Definition fieldsOf (call : Runner.SinkCall) : gmap string string :=
  match call with
  | Runner.UpdateRecord _ _ _ _ fields => fields
  | Runner.CreateRecord _ _ _ fields => fields
  end.

(** An entry is unanswered in the response data when no answer is
    recorded for an entry with its id. *)
Definition unanswered {Response : Type}
  (responseData : ResponseData.T Response) (entryId : string) : Prop :=
  forall key datum,
    (key, datum) ∈ responseData ->
    Entry.id (ResponseData.entry datum) <> entryId.

(** The field ids of a list of field mappings with the values they
    resolve to, one after the other from a given world. *)
Fixpoint resolutions {Response : Type}
  (getResponseValue :
     ResponseData.T Response -> string -> option string -> option string)
  (clock : nat -> Z) (responseData : ResponseData.T Response)
  (allEntries : gmap string Entry.T)
  (fieldMappings : list (string * SubmissionAction.EntryResponseLookupConfig))
  (w : Runner.World) : list (string * string) :=
  match fieldMappings with
  | [] => []
  | (fieldId, entryLookupConfig) :: rest =>
      let '(responseValue, w') :=
        Runner.resolveResponseValue getResponseValue clock responseData
          allEntries entryLookupConfig w in
      (fieldId, responseValue)
      :: resolutions getResponseValue clock responseData allEntries rest w'
  end.

(** The errors with which the sink answers a sequence of calls, the
    first of which is its n-th call. *)
Fixpoint failuresOf {HTTPError : Type}
  (sinkResult : nat -> Runner.SinkCall -> option HTTPError)
  (n : nat) (calls : list Runner.SinkCall) : list HTTPError :=
  match calls with
  | [] => []
  | call :: rest =>
      match sinkResult n call with
      | Some error => error :: failuresOf sinkResult (S n) rest
      | None => failuresOf sinkResult (S n) rest
      end
  end.

(** Two worlds agree on what decides the calls to the sink: the clock
    readings made and the calls issued so far. *)
Definition sameDispatch (w1 w2 : Runner.World) : Prop :=
  Runner.clockReads w1 = Runner.clockReads w2
  /\ Runner.sinkCalls w1 = Runner.sinkCalls w2.

(** A submission action refers to an entry: as the target of an
    [EDIT_ROW], or in a field mapping that names the entry. *)
Definition refersTo (submissionAction : SubmissionAction.T) (entryId : string)
  : Prop :=
  (exists primaryKeyField,
     SubmissionAction.config submissionAction
     = SubmissionAction.EditRow entryId primaryKeyField)
  \/ (exists fieldId lookup,
        (fieldId, lookup) ∈ SubmissionAction.fieldMappings submissionAction
        /\ SubmissionAction.entryId lookup = Some entryId
        /\ entryId <> "").

(** A configuration has a dangling entry reference: a conditional
    action or a submission action refers to an entry that is not among
    the entries of the supplied screens. *)
Definition danglingEntry {Operator DateTime Setting : Type}
  (cfg : @Script.Config Operator DateTime Setting) (entryId : string) : Prop :=
  (entryId ∉ Script.entryIdsOf cfg)
  /\ ((exists screenId rules rule,
         Script.actions cfg !! screenId = Some rules
         /\ rule ∈ rules
         /\ Script.entryId rule = entryId)
      \/ (exists submissionAction,
            submissionAction
              ∈ Interview.submissionActions (Script.interview cfg)
            /\ refersTo submissionAction entryId)).

End Vocabulary.


(** * Sample data *)

Definition sampleEntry (entryId responseId : string) : InterviewScreenEntry.T :=
  InterviewScreenEntry.mkT entryId "Name" "What is your name?" responseId
    "text" "screen-1" "".

(** An interview under creation with no allowed language, and the raw
    object the backend returns for it. *)
Definition noLanguages : Interview.CreateT :=
  {| Interview.c_allowedLanguages := [];
     Interview.c_defaultLanguage := "en";
     Interview.c_description := "A sample interview";
     Interview.c_name := "Guessing Game";
     Interview.c_notes := "";
     Interview.c_ownerId := "owner";
     Interview.c_published := false;
     Interview.c_vanityUrl := None |}.

Definition noLanguagesInput
  : @Interview.UpdateT string unit unit unit unit + Interview.CreateT :=
  inr noLanguages.

Definition storedInterview (languages : string)
  : @Interview.SerializedRead unit unit unit :=
  {| Interview.r_description := "A sample interview";
     Interview.r_name := "Guessing Game";
     Interview.r_notes := "";
     Interview.r_vanityUrl := None;
     Interview.r_published := false;
     Interview.r_ownerId := "owner";
     Interview.r_defaultLanguage := "en";
     Interview.r_allowedLanguages := languages;
     Interview.r_id := "interview-1";
     Interview.r_createdDate := "2023-11-14T22:13:20.000Z";
     Interview.r_screens := None;
     Interview.r_submissionActions := None;
     Interview.r_interviewSettings := None |}.

Definition serializeSample
  (interview : @Interview.UpdateT string unit unit unit unit + Interview.CreateT)
  : @Interview.SerializedUpdate unit unit + Interview.SerializedCreate :=
  Interview.serialize (fun date => date) (fun _ => tt) (fun _ => tt)
    (fun _ => tt) (fun _ => tt) interview.

Definition deserializeSample
  (rawObj : @Interview.SerializedRead unit unit unit)
  : @Interview.Deserialized string unit unit :=
  Interview.deserialize (fun iso => iso)
    (fun _ => InterviewScreen.mkT "" "" false None [] [])
    (fun _ => tt) (fun _ => tt) rawObj.


(** A screen with no entries and no rules of its own. *)
Definition sampleScreen (screenId : string) (starting : bool) (order : option Z)
  : InterviewScreen.T :=
  InterviewScreen.mkT screenId screenId starting order [] [].

Definition sampleInterview (screens : list InterviewScreen.T)
  (submissionActions : list SubmissionAction.T)
  : @Interview.WithScreensAndActions string SubmissionAction.T unit :=
  {| Interview.interview :=
       {| Interview.allowedLanguages := ["en"];
          Interview.createdDate := "2023-11-14T22:13:20.000Z";
          Interview.defaultLanguage := "en";
          Interview.description := "A sample interview";
          Interview.id := "interview-1";
          Interview.name := "Guessing Game";
          Interview.notes := "";
          Interview.ownerId := "owner";
          Interview.published := false;
          Interview.vanityUrl := None |};
     Interview.interviewSettings := [];
     Interview.screens := screens;
     Interview.submissionActions := submissionActions |}.

(** The operators of the sample rules: equality with the value of the
    rule, and its negation, on simple answers. *)
Inductive SampleOperator := EQ | NEQ.

Definition sampleCompare (responseType : Entry.ResponseType)
  (operator : SampleOperator) (response : Script.Response) (value : string)
  : bool :=
  match response with
  | Script.Simple answer =>
      match operator with
      | EQ => String.eqb answer value
      | NEQ => negb (String.eqb answer value)
      end
  | Script.Structured _ => false
  end.

Definition sampleConfig (screens : list InterviewScreen.T)
  (actions : gmap string (list (@Script.ConditionalAction SampleOperator)))
  (children : gmap string Script.WithChildrenT)
  (submissionActions : list SubmissionAction.T)
  : @Script.Config SampleOperator string unit :=
  {| Script.interview := sampleInterview screens submissionActions;
     Script.actions := actions;
     Script.screens := children |}.

(** Starting screens [A] with order 1 and [B] with order 2. *)
Definition screensAB : list InterviewScreen.T :=
  [sampleScreen "A" true (Some 1); sampleScreen "B" true (Some 2)].

(** One screen in starting state that has no starting order. *)
Definition screensUnordered : list InterviewScreen.T :=
  [sampleScreen "A" true None].

(** The clock of the samples: one second passes between two readings. *)
Definition sampleClock (n : nat) : Z := 1700000000000 + 1000 * Z.of_nat n.

(** The sink of the samples fails its first call and no other. *)
Definition sampleSinkResult (n : nat) (call : Runner.SinkCall) : option string :=
  match n with
  | O => Some "502 Bad Gateway"
  | S _ => None
  end.

Definition sampleToast (error : string) : Runner.Notice :=
  {| Runner.errorMessage := error; Runner.errorTitle := "Error" |}.

Definition nameEntry : Entry.T :=
  {| Entry.id := "entry-name";
     Entry.responseKey := "name";
     Entry.responseType := Entry.OTHER "text";
     Entry.responseTypeOptions := Entry.mkAirtableOptions "" "" [] |}.

Definition personEntry : Entry.T :=
  {| Entry.id := "entry-person";
     Entry.responseKey := "person";
     Entry.responseType := Entry.AIRTABLE;
     Entry.responseTypeOptions :=
       Entry.mkAirtableOptions "appBase" "tblPeople" ["Name"] |}.

(** The respondent gave a name and picked a record; no other entry was
    answered. *)
Definition sampleResponses : ResponseData.T Script.Response :=
  [("name", ResponseData.mkDatum _ nameEntry (Script.Simple "Ada"));
   ("person",
    ResponseData.mkDatum _ personEntry
      (Script.Structured {["id" := "rec123"; "Name" := "Ada L"]}))].

Definition lookupEntry (entryId : string)
  : SubmissionAction.EntryResponseLookupConfig :=
  SubmissionAction.mkLookup (Some entryId) None None.

Definition lookupNow : SubmissionAction.EntryResponseLookupConfig :=
  SubmissionAction.mkLookup None None (Some SubmissionAction.NOW_DATE).

Definition sampleMappings
  : list (string * SubmissionAction.EntryResponseLookupConfig) :=
  [("fldName", lookupEntry "entry-name");
   ("fldNick", lookupEntry "entry-nick");
   ("fldWhen", lookupNow)].

Definition insertGuest : SubmissionAction.T :=
  SubmissionAction.mkT "action-1" 1 "interview-1"
    (SubmissionAction.InsertRow "appBase" "tblGuests") sampleMappings.

Definition editPerson : SubmissionAction.T :=
  SubmissionAction.mkT "action-2" 2 "interview-1"
    (SubmissionAction.EditRow "entry-person" (Some "id")) sampleMappings.

(** An [EDIT_ROW] whose target entry was not answered. *)
Definition editAbsent : SubmissionAction.T :=
  SubmissionAction.mkT "action-3" 3 "interview-1"
    (SubmissionAction.EditRow "entry-absent" (Some "id")) sampleMappings.

Definition sampleHandle (submissionAction : SubmissionAction.T)
  : Runner.M unit :=
  Runner.handleSubmissionAction Script.getResponseValue sampleClock
    sampleSinkResult sampleToast "interview-1" sampleResponses
    (Runner.allEntriesOf sampleResponses) submissionAction.

Definition sampleComplete (submissionActions : list SubmissionAction.T)
  : Runner.M unit :=
  Runner.onInterviewComplete Script.getResponseValue sampleClock
    sampleSinkResult sampleToast "interview-1"
    (Some (sampleInterview [] submissionActions)) sampleResponses.

(** The completion of the sample interview, followed to the moment the
    sink has answered every call. *)
Definition sampleSettled (submissionActions : list SubmissionAction.T)
  : Runner.M unit :=
  Runner.bind (sampleComplete submissionActions) (fun _ => Runner.settle).

(** An [INSERT_ROW] that maps the answered name to a field whose id is
    [__proto__]. *)
Definition insertPrototype : SubmissionAction.T :=
  SubmissionAction.mkT "action-5" 5 "interview-1"
    (SubmissionAction.InsertRow "appBase" "tblGuests")
    [("__proto__", lookupEntry "entry-name")].

(** The guessing game: four screens, supplied in this order; the
    interview starts at [NAME]. *)
Definition nameScreen : InterviewScreen.T :=
  InterviewScreen.mkT "NAME" "Name" true (Some 1) ["entry-name"] [].

Definition guessScreen : InterviewScreen.T :=
  InterviewScreen.mkT "GUESS" "Guess" false None ["entry-guess"] ["rule-1"].

Definition incorrectScreen : InterviewScreen.T :=
  InterviewScreen.mkT "INCORRECT_GUESS" "Incorrect Guess" false None [] [].

Definition endingScreen : InterviewScreen.T :=
  InterviewScreen.mkT "CORRECT_ENDING" "Correct Ending" false None [] [].

Definition gameScreens : list InterviewScreen.T :=
  [nameScreen; guessScreen; incorrectScreen; endingScreen].

Definition guessEntry : Entry.T :=
  {| Entry.id := "entry-guess";
     Entry.responseKey := "guess";
     Entry.responseType := Entry.OTHER "number";
     Entry.responseTypeOptions := Entry.mkAirtableOptions "" "" [] |}.

(** On [GUESS]: a guess that equals the secret goes to the ending. *)
Definition guessRule : @Script.ConditionalAction SampleOperator :=
  Script.mkConditionalAction "rule-1" "GUESS" "entry-guess" EQ "3"
    (Script.Goto "CORRECT_ENDING").

Definition gameChildren : gmap string Script.WithChildrenT :=
  {["NAME" := Script.mkWithChildrenT nameScreen [nameEntry];
    "GUESS" := Script.mkWithChildrenT guessScreen [guessEntry];
    "INCORRECT_GUESS" := Script.mkWithChildrenT incorrectScreen [];
    "CORRECT_ENDING" := Script.mkWithChildrenT endingScreen []]}.

Definition gameConfig (submissionActions : list SubmissionAction.T)
  : @Script.Config SampleOperator string unit :=
  sampleConfig gameScreens {["GUESS" := [guessRule]]} gameChildren
    submissionActions.

(** The answers after the name and a guess were given. *)
Definition answersWithGuess (guess : string) : ResponseData.T Script.Response :=
  Script.record
    (Script.record [] nameEntry (Script.Simple "Ada"))
    guessEntry (Script.Simple guess).

(** A comparison that holds for every answer. *)
Definition alwaysTrue (responseType : Entry.ResponseType)
  (operator : SampleOperator) (response : Script.Response) (value : string)
  : bool := true.

(** An [INSERT_ROW] that refers to entries of the game only. *)
Definition recordGuess : SubmissionAction.T :=
  SubmissionAction.mkT "action-4" 4 "interview-1"
    (SubmissionAction.InsertRow "appBase" "tblGuesses")
    [("fldName", lookupEntry "entry-name");
     ("fldGuess", lookupEntry "entry-guess");
     ("fldWhen", lookupNow)].

(** * Further code of the cited files *)

(** ** models/Interview: notes and URLs *)

Module InterviewPages.

Definition ALL_INTERVIEWS_URL : string := "/".

(** [getRunUrl]: the URL at which an interview is executed. *)
Definition getRunUrl {DateTime : Type} (interview : @Interview.T DateTime)
  : string :=
  "/interview/" ++ Interview.id interview ++ "/run".

(** [getConfigurePageURL]: the argument is an interview or an id. *)
Definition getConfigurePageURL {DateTime : Type}
  (interviewOrId : @Interview.T DateTime + string) : string :=
  let interviewId :=
    match interviewOrId with
    | inr interviewId => interviewId
    | inl interview => Interview.id interview
    end in
  "/interview/" ++ interviewId ++ "/configure".

(** [updateNotes]: the interview with other notes. *)
Definition updateNotes {DateTime : Type} (interview : @Interview.T DateTime)
  (notes : string) : @Interview.T DateTime :=
  {| Interview.allowedLanguages := Interview.allowedLanguages interview;
     Interview.createdDate := Interview.createdDate interview;
     Interview.defaultLanguage := Interview.defaultLanguage interview;
     Interview.description := Interview.description interview;
     Interview.id := Interview.id interview;
     Interview.name := Interview.name interview;
     Interview.notes := notes;
     Interview.ownerId := Interview.ownerId interview;
     Interview.published := Interview.published interview;
     Interview.vanityUrl := Interview.vanityUrl interview |}.

End InterviewPages.

(** ** components/InterviewRunnerView: constructing the script *)

Module RunnerSetup.

(** [indexedScreens]: the screens of the interview indexed by their id;
    a later screen replaces an earlier one with the same id. *)
Definition indexScreens (screens : list Script.WithChildrenT)
  : gmap string Script.WithChildrenT :=
  fold_left
    (fun indexedScreens screen =>
       <[InterviewScreen.id (Script.screen screen) := screen]> indexedScreens)
    screens ∅.

(** The effect that runs on load: nothing happens until the interview,
    its screens and its actions are loaded; then the script is made of
    the interview, the actions and the indexed screens. *)
Definition buildScript {Operator DateTime Setting : Type}
  (interview :
     option (@Interview.WithScreensAndActions DateTime SubmissionAction.T Setting))
  (screens : option (list Script.WithChildrenT))
  (actions : option (gmap string (list (@Script.ConditionalAction Operator))))
  : option (@Script.Config Operator DateTime Setting) :=
  match interview, screens, actions with
  | Some interview, Some screens, Some actions =>
      Some (Script.mkConfig interview actions (indexScreens screens))
  | _, _, _ => None
  end.

End RunnerSetup.

(** ** models/InterviewSetting: the Airtable settings of an interview

    The type declarations are in a module that is not among the sources;
    the records below have the fields the components read, optional
    where the components guard against their absence. *)

Module InterviewSetting.

Record AirtableChoice := mkAirtableChoice {
  choiceId : option string;
  choiceName : option string;
}.

Record AirtableFieldOptions := mkAirtableFieldOptions {
  choices : option (list (option AirtableChoice));
}.

Record AirtableField := mkAirtableField {
  fieldName : string;
  options : option AirtableFieldOptions;
}.

Record AirtableTable := mkAirtableTable {
  tableId : string;
  tableName : string;
  fields : option (list AirtableField);
}.

Record AirtableBase := mkAirtableBase {
  baseId : option string;
  baseName : option string;
  tables : option (list AirtableTable);
}.

Record AirtableSettings := mkAirtableSettings {
  bases : option (list AirtableBase);
}.

Inductive SettingType :=
| AIRTABLE
| OTHER (tag : string).

Record T := mkT {
  type : SettingType;
  settings : AirtableSettings;
}.

(** [interview?.interviewSettings.find(...)?.settings]: the settings of
    the first setting of type Airtable. *)
Definition airtableSettingsOf (interviewSettings : list T)
  : option AirtableSettings :=
  option_map settings
    (List.find
       (fun intSetting =>
          match type intSetting with
          | AIRTABLE => true
          | OTHER _ => false
          end)
       interviewSettings).

End InterviewSetting.

(** ** components/SingleInterviewView/EntryCard/AirtableFieldSelector *)

Module AirtableFieldSelector.

(** An option of a dropdown. *)
Record DropdownOption := mkOption {
  displayValue : string;
  value : string;
}.

(** [bases.find(b => b.id === selectedBase)]. *)
Definition findBase (bases : list InterviewSetting.AirtableBase)
  (selectedBase : string) : option InterviewSetting.AirtableBase :=
  List.find
    (fun b => bool_decide (InterviewSetting.baseId b = Some selectedBase))
    bases.

(** [tables.find(b => b.id === selectedTable)]. *)
Definition findTable (tables : list InterviewSetting.AirtableTable)
  (selectedTable : string) : option InterviewSetting.AirtableTable :=
  List.find
    (fun t => String.eqb (InterviewSetting.tableId t) selectedTable)
    tables.

(** [availableTables]: the tables of the selected base. *)
Definition availableTables
  (bases : option (list InterviewSetting.AirtableBase))
  (selectedBase : string) : list DropdownOption :=
  match bases with
  | Some bases =>
      if JS.truthy (Some selectedBase) then
        match
          match findBase bases selectedBase with
          | Some base => InterviewSetting.tables base
          | None => None
          end
        with
        | Some tables =>
            List.map
              (fun t =>
                 {| displayValue := InterviewSetting.tableName t;
                    value := InterviewSetting.tableId t |})
              tables
        | None => []
        end
      else []
  | None => []
  end.

(** [availableFields]: the fields of the selected table of the selected
    base that pass the filter, when there is one. *)
Definition availableFields
  (bases : option (list InterviewSetting.AirtableBase))
  (selectedBase selectedTable : string)
  (fieldFilterFn : option (InterviewSetting.AirtableField -> bool))
  : list DropdownOption :=
  match bases with
  | Some bases =>
      if JS.truthy (Some selectedBase) && JS.truthy (Some selectedTable) then
        match
          match
            match
              match findBase bases selectedBase with
              | Some base => InterviewSetting.tables base
              | None => None
              end
            with
            | Some tables => findTable tables selectedTable
            | None => None
            end
          with
          | Some table => InterviewSetting.fields table
          | None => None
          end
        with
        | Some fields =>
            List.map
              (fun f =>
                 {| displayValue := InterviewSetting.fieldName f;
                    value := InterviewSetting.fieldName f |})
              (List.filter
                 (fun field =>
                    match fieldFilterFn with
                    | Some keep => keep field
                    | None => true
                    end)
                 fields)
        | None => []
        end
      else []
  | None => []
  end.

(** The options of the dropdown of bases. *)
Definition baseOptions (bases : list InterviewSetting.AirtableBase)
  : list DropdownOption :=
  List.map
    (fun b =>
       {| displayValue := JS.nullish (InterviewSetting.baseName b) "";
          value := JS.nullish (InterviewSetting.baseId b) "" |})
    bases.

(** The [onChange] handlers: what they pass to
    [onAirtableConfigurationChange]. *)
Definition onBaseChange (airtableConfig : Entry.AirtableOptions)
  (newVal : string) : Entry.AirtableOptions :=
  {| Entry.selectedBase := newVal;
     Entry.selectedTable := Entry.selectedTable airtableConfig;
     Entry.selectedFields := Entry.selectedFields airtableConfig |}.

Definition onTableChange (airtableConfig : Entry.AirtableOptions)
  (newVal : string) : Entry.AirtableOptions :=
  {| Entry.selectedBase := Entry.selectedBase airtableConfig;
     Entry.selectedTable := newVal;
     Entry.selectedFields := [] |}.

Definition onSingleFieldChange (airtableConfig : Entry.AirtableOptions)
  (field : string) : Entry.AirtableOptions :=
  {| Entry.selectedBase := Entry.selectedBase airtableConfig;
     Entry.selectedTable := Entry.selectedTable airtableConfig;
     Entry.selectedFields := [field] |}.

Definition onFieldsChange (airtableConfig : Entry.AirtableOptions)
  (newVals : list string) : Entry.AirtableOptions :=
  {| Entry.selectedBase := Entry.selectedBase airtableConfig;
     Entry.selectedTable := Entry.selectedTable airtableConfig;
     Entry.selectedFields := newVals |}.

(** [renderFieldSelector] renders a selector only when a base and a
    table are selected. *)
Definition rendersFieldSelector (airtableConfig : Entry.AirtableOptions)
  : bool :=
  JS.truthy (Some (Entry.selectedBase airtableConfig))
  && JS.truthy (Some (Entry.selectedTable airtableConfig)).

End AirtableFieldSelector.

(** ** components/SingleInterviewView/EntryCard/SingleSelectEditor *)

Module SingleSelectEditor.

(** An option typed in by hand. *)
Record SelectOption := mkSelectOption {
  id : string;
  value : string;
}.

(** [InterviewScreenEntry.SingleSelectOptions]. *)
Record SingleSelectOptions := mkSingleSelectOptions {
  airtableConfig : option Entry.AirtableOptions;
  options : list SelectOption;
}.

(** [doesAirtableFieldHaveOptions]: the field has choices, at least one,
    and every choice has a name that is not empty. *)
Definition doesAirtableFieldHaveOptions
  (airtableField : InterviewSetting.AirtableField) : bool :=
  match InterviewSetting.options airtableField with
  | None => false
  | Some fieldOptions =>
      match InterviewSetting.choices fieldOptions with
      | None => false
      | Some choices =>
          (0 <? length choices)%nat
          && forallb
               (fun choice =>
                  let name :=
                    match choice with
                    | Some c => InterviewSetting.choiceName c
                    | None => None
                    end in
                  negb (bool_decide (name = Some ""))
                  && negb (bool_decide (name = None)))
               choices
      end
  end.

(** [allAirtableFields]: the fields of all tables of all bases. A base
    without tables and a table without fields each leave one undefined
    element in the flattened array. *)
Definition allAirtableFields
  (airtableSettings : option InterviewSetting.AirtableSettings)
  : option (list (option InterviewSetting.AirtableField)) :=
  match airtableSettings with
  | None => None
  | Some airtableSettings =>
      match InterviewSetting.bases airtableSettings with
      | None => None
      | Some bases =>
          Some
            (flat_map
               (fun base =>
                  match InterviewSetting.tables base with
                  | None => [None]
                  | Some tables =>
                      flat_map
                        (fun table =>
                           match InterviewSetting.fields table with
                           | None => [None]
                           | Some fields => List.map Some fields
                           end)
                        tables
                  end)
               bases)
      end
  end.

(** [selectedAirtableField]: the first of all fields that has the name
    of the first selected field. *)
Definition selectedAirtableField (selectionConfig : SingleSelectOptions)
  (airtableSettings : option InterviewSetting.AirtableSettings)
  : option InterviewSetting.AirtableField :=
  match airtableConfig selectionConfig with
  | Some config =>
      match Entry.selectedFields config with
      | first :: _ =>
          match allAirtableFields airtableSettings with
          | Some allFields =>
              match
                List.find
                  (fun field =>
                     match field with
                     | Some f => String.eqb (InterviewSetting.fieldName f) first
                     | None => false
                     end)
                  allFields
              with
              | Some found => found
              | None => None
              end
          | None => None
          end
      | [] => None
      end
  | None => None
  end.

(** [onAddOption]: the new option, whose id is a fresh uuid, goes to the
    end, and the text typed is cleared. *)
Definition onAddOption (uuid : string) (optionToAdd : string)
  (selectionConfig : SingleSelectOptions) : SingleSelectOptions * string :=
  let newOption := {| id := uuid; value := optionToAdd |} in
  ({| airtableConfig := airtableConfig selectionConfig;
      options := (options selectionConfig ++ [newOption])%list |},
   "").

(** The [onChange] of the text of an option. *)
Definition onOptionChange (option : SelectOption) (newVal : string)
  (selectionConfig : SingleSelectOptions) : SingleSelectOptions :=
  {| airtableConfig := airtableConfig selectionConfig;
     options :=
       List.map
         (fun prevOpt =>
            if String.eqb (id prevOpt) (id option)
            then {| id := id prevOpt; value := newVal |}
            else prevOpt)
         (options selectionConfig) |}.

(** The [onClick] of the delete button of an option. *)
Definition onOptionDelete (option : SelectOption)
  (selectionConfig : SingleSelectOptions) : SingleSelectOptions :=
  {| airtableConfig := airtableConfig selectionConfig;
     options :=
       List.filter
         (fun prevOpt => negb (String.eqb (id prevOpt) (id option)))
         (options selectionConfig) |}.

(** The [onChange] of the checkbox "Use options from an Airtable
    field?". *)
Definition onUseAirtableChange (checked : bool)
  (selectionConfig : SingleSelectOptions) : SingleSelectOptions :=
  {| airtableConfig :=
       if checked
       then Some {| Entry.selectedBase := "";
                    Entry.selectedTable := "";
                    Entry.selectedFields := [] |}
       else None;
     options := options selectionConfig |}.

(** The fields the editor offers: those of the selector, filtered by
    [doesAirtableFieldHaveOptions]. *)
Definition offeredFields
  (bases : option (list InterviewSetting.AirtableBase))
  (config : Entry.AirtableOptions) : list AirtableFieldSelector.DropdownOption :=
  AirtableFieldSelector.availableFields bases (Entry.selectedBase config)
    (Entry.selectedTable config) (Some doesAirtableFieldHaveOptions).

End SingleSelectEditor.

(** ** models/SubmissionAction: a new action *)

Module SubmissionActionCreate.

(** The payload of an action under edit: every field may be missing.
    [baseTarget] is declared a string; the editor stores in it what it
    reads from a lookup object, whatever that is. *)
Record PartialPayload := mkPartialPayload {
  entryId : option string;
  primaryKeyField : option string;
  baseTarget : JS.PropertyValue;
  tableTarget : option string;
}.

(** The payload [{}]. *)
Definition emptyPayload : PartialPayload :=
  {| entryId := None; primaryKeyField := None;
     baseTarget := JS.UndefinedValue; tableTarget := None |}.

Record PartialConfig := mkPartialConfig {
  type : SubmissionAction.ActionType;
  payload : PartialPayload;
}.

(** [SubmissionAction.CreateT]: an action that has no id yet. *)
Record CreateT := mkCreateT {
  order : Z;
  interviewId : string;
  fieldMappings : list (string * SubmissionAction.EntryResponseLookupConfig);
  tempId : string;
  config : PartialConfig;
}.

(** [create]: a new empty action; its [tempId] is a fresh uuid. *)
Definition create (uuid : string) (order : Z) (interviewId : string)
  (type : SubmissionAction.ActionType) : CreateT :=
  {| order := order;
     interviewId := interviewId;
     fieldMappings := [];
     tempId := uuid;
     config := {| type := type; payload := emptyPayload |} |}.

End SubmissionActionCreate.

(** ** components/SingleInterviewView/ConfigurePage/OnSubmitCard *)

Module OnSubmitCard.

Section Card.

Context {DateTime Setting SettingCreate : Type}.

(** [ACTION_TYPE_OPTIONS]. *)
Definition ACTION_TYPE_OPTIONS
  : list (string * SubmissionAction.ActionType) :=
  List.map
    (fun actionType =>
       (SubmissionAction.actionTypeToDisplayName actionType, actionType))
    SubmissionAction.ACTION_TYPES.

(** The order of an action of the interview under update. *)
Definition orderOf (action : SubmissionAction.T + SubmissionActionCreate.CreateT)
  : Z :=
  match action with
  | inl existing => SubmissionAction.order existing
  | inr created => SubmissionActionCreate.order created
  end.

(** [onAddClick]: the interview with one more action, an [EDIT_ROW]
    whose order is the number of actions plus one. *)
Definition onAddClick (uuid : string)
  (interview :
     @Interview.UpdateT DateTime SubmissionAction.T
       SubmissionActionCreate.CreateT Setting SettingCreate)
  : @Interview.UpdateT DateTime SubmissionAction.T
      SubmissionActionCreate.CreateT Setting SettingCreate :=
  {| Interview.u_interview := Interview.u_interview interview;
     Interview.u_interviewSettings := Interview.u_interviewSettings interview;
     Interview.u_submissionActions :=
       (Interview.u_submissionActions interview
        ++ [inr (SubmissionActionCreate.create uuid
                   (Z.of_nat (length (Interview.u_submissionActions interview))
                    + 1)
                   (Interview.id (Interview.u_interview interview))
                   SubmissionAction.EDIT_ROW)])%list |}.

End Card.

End OnSubmitCard.

(** ** components/SingleInterviewView/ConfigurePage/OnSubmitCard/InsertRowActionBlock *)

Module InsertRowActionBlock.

(** [EditableAction]: an action under edit, known by its id or, before
    it is saved, by its temporary id. *)
Record EditableAction := mkEditableAction {
  ident : string + string;
  order : Z;
  interviewId : string;
  fieldMappings : list (string * SubmissionAction.EntryResponseLookupConfig);
  config : SubmissionActionCreate.PartialConfig;
}.

(** [allTables]: the tables of all bases; a base without tables leaves
    one undefined element. *)
Definition allTables
  (airtableSettings : option InterviewSetting.AirtableSettings)
  : list (option InterviewSetting.AirtableTable) :=
  match airtableSettings with
  | Some airtableSettings =>
      match InterviewSetting.bases airtableSettings with
      | Some bases =>
          flat_map
            (fun base =>
               match InterviewSetting.tables base with
               | Some tables => List.map Some tables
               | None => [None]
               end)
            bases
      | None => []
      end
  | None => []
  end.

(** [tableToBaseIdLookup]: a plain object from table id to the id of
    its base. [R.flatMapToObj] fills it pair by pair with
    [result[key] = value], so that the last base of a table id
    stays. *)
Definition tableToBaseIdLookup
  (airtableSettings : option InterviewSetting.AirtableSettings)
  : gmap string (option string) :=
  fold_left
    (fun lookup pair => JS.setProperty lookup (fst pair) (snd pair))
    (flat_map
       (fun base =>
          List.map
            (fun table =>
               (InterviewSetting.tableId table, InterviewSetting.baseId base))
            (JS.nullish (InterviewSetting.tables base) []))
       (JS.nullish
          (match airtableSettings with
           | Some airtableSettings => InterviewSetting.bases airtableSettings
           | None => None
           end)
          []))
    ∅.

(** [selectedTable]: the first of all tables that has the id of the
    table target. *)
Definition selectedTable
  (airtableSettings : option InterviewSetting.AirtableSettings)
  (actionConfig : SubmissionActionCreate.PartialConfig)
  : option InterviewSetting.AirtableTable :=
  match
    List.find
      (fun table =>
         bool_decide
           (match table with
            | Some t => Some (InterviewSetting.tableId t)
            | None => None
            end
            = SubmissionActionCreate.tableTarget
                (SubmissionActionCreate.payload actionConfig)))
      (allTables airtableSettings)
  with
  | Some found => found
  | None => None
  end.

(** [tableOptions]. *)
Definition tableOptions
  (airtableSettings : option InterviewSetting.AirtableSettings)
  : list AirtableFieldSelector.DropdownOption :=
  List.map
    (fun table =>
       match table with
       | Some t =>
           {| AirtableFieldSelector.value := InterviewSetting.tableId t;
              AirtableFieldSelector.displayValue := InterviewSetting.tableName t |}
       | None =>
           {| AirtableFieldSelector.value := "";
              AirtableFieldSelector.displayValue := "" |}
       end)
    (allTables airtableSettings).

(** [onChangeTableTarget]: the action with the table as target, and as
    base target what [tableToBaseIdLookup[tableId]] gives. *)
Definition onChangeTableTarget
  (airtableSettings : option InterviewSetting.AirtableSettings)
  (action : EditableAction)
  (actionConfig : SubmissionActionCreate.PartialConfig)
  (tableId : string) : EditableAction :=
  let newConfig :=
    {| SubmissionActionCreate.type := SubmissionActionCreate.type actionConfig;
       SubmissionActionCreate.payload :=
         {| SubmissionActionCreate.entryId :=
              SubmissionActionCreate.entryId
                (SubmissionActionCreate.payload (config action));
            SubmissionActionCreate.primaryKeyField :=
              SubmissionActionCreate.primaryKeyField
                (SubmissionActionCreate.payload (config action));
            SubmissionActionCreate.baseTarget :=
              JS.getProperty (tableToBaseIdLookup airtableSettings) tableId;
            SubmissionActionCreate.tableTarget := Some tableId |} |} in
  {| ident := ident action;
     order := order action;
     interviewId := interviewId action;
     fieldMappings := fieldMappings action;
     config := newConfig |}.

(** [onFieldMappingChange]. *)
Definition onFieldMappingChange (action : EditableAction)
  (newMappings : list (string * SubmissionAction.EntryResponseLookupConfig))
  : EditableAction :=
  {| ident := ident action;
     order := order action;
     interviewId := interviewId action;
     fieldMappings := newMappings;
     config := config action |}.

End InsertRowActionBlock.

(** ** models/InterviewScreenEntry.ts: (de)serialisation and creation *)

Module InterviewScreenEntryIO.

(** [deserialize] and [serialize]: the stored form of an entry is the
    entry. *)
Definition deserialize (rawObj : InterviewScreenEntry.T)
  : InterviewScreenEntry.T := rawObj.

Definition serialize (interviewScreen : InterviewScreenEntry.T)
  : InterviewScreenEntry.T := interviewScreen.

(** [create]: the id and the response id are two fresh uuids. *)
Definition create (uuid1 uuid2 : string)
  (name prompt responseType screenId text : string)
  : InterviewScreenEntry.T :=
  {| InterviewScreenEntry.id := uuid1;
     InterviewScreenEntry.name := name;
     InterviewScreenEntry.prompt := prompt;
     InterviewScreenEntry.responseId := uuid2;
     InterviewScreenEntry.responseType := responseType;
     InterviewScreenEntry.screenId := screenId;
     InterviewScreenEntry.text := text |}.

End InterviewScreenEntryIO.

(** ** store/InterviewStore.ts: the browser storage backend

    A table of the database is a finite map from primary key to stored
    object; the primary key of an object is its [id]. An asynchronous
    method is a computation on the database that returns a value or is
    rejected with an error; the methods started together by
    [Promise.all] act on different tables or in the order written. *)

Module InterviewStore.

(** [isNonNullable], as the filter of an array. *)
Definition nonNullable {X : Type} (l : list (option X)) : list X :=
  flat_map (fun x => match x with Some v => [v] | None => [] end) l.

(** [Table.bulkGet]: one result per key, undefined for a missing key. *)
Definition bulkGet {X : Type} (keys : list string) (table : gmap string X)
  : list (option X) :=
  List.map (fun key => table !! key) keys.

(** [Table.bulkDelete]. *)
Definition bulkDelete {X : Type} (keys : list string) (table : gmap string X)
  : gmap string X :=
  fold_left (fun table key => delete key table) keys table.

Inductive Error :=
| InvariantViolation (message : string)
| OutOfFuel.

(** The message of the error [invariant(condition, format)] throws:
    [format.replace(/%s/g, () => args[argIndex++])], where no argument
    is given, so that every [%s] of the format becomes [undefined]. *)
Fixpoint invariantMessage (format : string) : string :=
  match format with
  | EmptyString => EmptyString
  | String c rest =>
      match rest with
      | String d rest' =>
          if Ascii.eqb c "%" && Ascii.eqb d "s"
          then "undefined" ++ invariantMessage rest'
          else String c (invariantMessage rest)
      | EmptyString => String c EmptyString
      end
  end.

Section Store.

(** The models of the interview and of the stored forms this store
    works with are in modules outside the sources: their types, the
    fields read here, and their functions are taken as given. *)
Context {InterviewT SerializedInterview SerializedScreen SerializedAction : Type}.
Variable interviewScreensOf : InterviewT -> list string.
Variable serializeInterview : InterviewT -> SerializedInterview.
Variable deserializeInterview : SerializedInterview -> InterviewT.
Variable serializedInterviewId : SerializedInterview -> string.
Variable addScreen : InterviewT -> InterviewScreen.T -> InterviewT.
Variable serializeScreen : InterviewScreen.T -> SerializedScreen.
Variable deserializeScreen : SerializedScreen -> InterviewScreen.T.
Variable serializedScreenId : SerializedScreen -> string.

Record DB := mkDB {
  conditionalActions : gmap string SerializedAction;
  interviews : gmap string SerializedInterview;
  interviewScreens : gmap string SerializedScreen;
  interviewScreenEntries : gmap string InterviewScreenEntry.T;
}.

(** An asynchronous computation on the database. *)
Definition P (X : Type) : Type := DB -> (Error + X) * DB.

Definition resolve {X : Type} (x : X) : P X := fun db => (inr x, db).

Definition reject {X : Type} (error : Error) : P X := fun db => (inl error, db).

(** [await]: the rest runs on the value, a rejection passes on. *)
Definition await {X Y : Type} (p : P X) (k : X -> P Y) : P Y :=
  fun db =>
    match p db with
    | (inr x, db') => k x db'
    | (inl error, db') => (inl error, db')
    end.

(** [getInterview]. *)
Definition getInterview (id : string) : P (option InterviewT) :=
  fun db =>
    match interviews db !! id with
    | Some interview => (inr (Some (deserializeInterview interview)), db)
    | None => (inr None, db)
    end.

(** [getScreens]: the screens stored under the ids, in the order of the
    ids. *)
Definition getScreens (screenIds : list string) : P (list InterviewScreen.T) :=
  fun db =>
    let screens := nonNullable (bulkGet screenIds (interviewScreens db)) in
    (inr (List.map deserializeScreen screens), db).

(** [getScreensOfInterview]. *)
Definition getScreensOfInterview (interviewId : string)
  : P (list InterviewScreen.T) :=
  await (getInterview interviewId) (fun interview =>
  match interview with
  | Some interview => getScreens (interviewScreensOf interview)
  | None => resolve []
  end).

(** [getScreenEntries]. *)
Definition getScreenEntries (entryIds : list string)
  : P (list InterviewScreenEntry.T) :=
  fun db =>
    let entries := nonNullable (bulkGet entryIds (interviewScreenEntries db)) in
    (inr (List.map InterviewScreenEntryIO.deserialize entries), db).

(** [getScreenEntriesOfInterview]: a map from the id of each screen of
    the interview to the entries of that screen. *)
Definition getScreenEntriesOfInterview (interviewId : string)
  : P (gmap string (list InterviewScreenEntry.T)) :=
  await (getInterview interviewId) (fun interview =>
  match interview with
  | Some interview =>
      await (getScreens (interviewScreensOf interview)) (fun screens =>
      await (getScreenEntries
               (flat_map (fun screen => InterviewScreen.entries screen) screens))
        (fun allEntries =>
      let allEntriesMap : gmap string InterviewScreenEntry.T :=
        fold_left
          (fun map entry => <[InterviewScreenEntry.id entry := entry]> map)
          allEntries ∅ in
      resolve
        (fold_left
           (fun map screen =>
              let entries :=
                nonNullable
                  (List.map (fun entryId => allEntriesMap !! entryId)
                     (InterviewScreen.entries screen)) in
              <[InterviewScreen.id screen := entries]> map)
           screens ∅)))
  | None => resolve ∅
  end).

(** [putInterview]: replaces or adds the interview. *)
Definition putInterview (interview : InterviewT) : P InterviewT :=
  fun db =>
    let stored := serializeInterview interview in
    (inr interview,
     {| conditionalActions := conditionalActions db;
        interviews := <[serializedInterviewId stored := stored]> (interviews db);
        interviewScreens := interviewScreens db;
        interviewScreenEntries := interviewScreenEntries db |}).

(** [this.interviewScreens.put]. *)
Definition storeScreen (screen : InterviewScreen.T) : P unit :=
  fun db =>
    let stored := serializeScreen screen in
    (inr tt,
     {| conditionalActions := conditionalActions db;
        interviews := interviews db;
        interviewScreens := <[serializedScreenId stored := stored]> (interviewScreens db);
        interviewScreenEntries := interviewScreenEntries db |}).

(** [putScreen] and [addScreenToInterview] call each other; [fuel]
    bounds the depth of the calls. [putScreen] stores the screen when
    the interview exists, and otherwise leaves it to
    [addScreenToInterview], for which the interview must exist. *)
Fixpoint putScreen (fuel : nat) (interviewId : string)
  (screen : InterviewScreen.T) : P InterviewScreen.T :=
  match fuel with
  | O => reject OutOfFuel
  | S fuel =>
      fun db =>
        match interviews db !! interviewId with
        | Some _ => await (storeScreen screen) (fun _ => resolve screen) db
        | None =>
            await (addScreenToInterview fuel interviewId screen)
              (fun _ => resolve screen) db
        end
  end
with addScreenToInterview (fuel : nat) (interviewId : string)
  (interviewScreen : InterviewScreen.T) : P (InterviewT * InterviewScreen.T) :=
  match fuel with
  | O => reject OutOfFuel
  | S fuel =>
      await (getInterview interviewId) (fun interview =>
      match interview with
      | None =>
          reject
            (InvariantViolation
               (invariantMessage
                  ("[InterviewStore] addScreenToInterview: Could not find interview with id '"
                   ++ interviewId ++ "'")))
      | Some interview =>
          let newInterview := addScreen interview interviewScreen in
          await (putInterview newInterview) (fun stored =>
          await (putScreen fuel interviewId interviewScreen) (fun put =>
          resolve (stored, put)))
      end)
  end.

(** [deleteInterview]: the interview goes with its screens, their
    entries and their conditional actions. *)
Definition deleteInterview (interviewId : string) : P unit :=
  await (getInterview interviewId) (fun interview =>
  match interview with
  | Some interview =>
      let screenIds := interviewScreensOf interview in
      await (getScreens screenIds) (fun screens =>
      let entryIds := flat_map (fun screen => InterviewScreen.entries screen) screens in
      let actionIds := flat_map (fun screen => InterviewScreen.actions screen) screens in
      fun db =>
        (inr tt,
         {| conditionalActions := bulkDelete actionIds (conditionalActions db);
            interviewScreenEntries := bulkDelete entryIds (interviewScreenEntries db);
            interviewScreens := bulkDelete screenIds (interviewScreens db);
            interviews := delete interviewId (interviews db) |}))
  | None => resolve tt
  end).

End Store.

End InterviewStore.

(** ** Notions used by the further properties *)

Module Notions.

(** A raw object read back from the backend carries the scalar fields
    of a serialised update unchanged. *)
Definition storedAs {RawActionOut RawSettingOut RawScreen RawAction RawSetting : Type}
  (su : @Interview.SerializedUpdate RawActionOut RawSettingOut)
  (rawObj : @Interview.SerializedRead RawScreen RawAction RawSetting) : Prop :=
  Interview.r_allowedLanguages rawObj = Interview.su_allowedLanguages su
  /\ Interview.r_createdDate rawObj = Interview.su_createdDate su
  /\ Interview.r_defaultLanguage rawObj = Interview.su_defaultLanguage su
  /\ Interview.r_description rawObj = Interview.su_description su
  /\ Interview.r_id rawObj = Interview.su_id su
  /\ Interview.r_name rawObj = Interview.su_name su
  /\ Interview.r_notes rawObj = Interview.su_notes su
  /\ Interview.r_ownerId rawObj = Interview.su_ownerId su
  /\ Interview.r_published rawObj = Interview.su_published su
  /\ Interview.r_vanityUrl rawObj = Interview.su_vanityUrl su.

(** A field mapping whose value is a special value: it names no entry
    and sets a special value type. *)
Definition isSpecial (config : SubmissionAction.EntryResponseLookupConfig)
  : bool :=
  negb (JS.truthy (SubmissionAction.entryId config))
  && bool_decide (SubmissionAction.specialValueType config <> None).

(** The number of special values among field mappings. *)
Definition countSpecial
  (fieldMappings : list (string * SubmissionAction.EntryResponseLookupConfig))
  : nat :=
  length (List.filter (fun mapping => isSpecial (snd mapping)) fieldMappings).

End Notions.

(** ** Notions about the Airtable settings *)

Module Ownership.

(** The bases of the settings, none when there are no settings. *)
Definition basesOf
  (airtableSettings : option InterviewSetting.AirtableSettings)
  : list InterviewSetting.AirtableBase :=
  match airtableSettings with
  | Some airtableSettings =>
      match InterviewSetting.bases airtableSettings with
      | Some bases => bases
      | None => []
      end
  | None => []
  end.

(** A base has a table with a given id. *)
Definition ownsTable (base : InterviewSetting.AirtableBase) (tableId : string)
  : Prop :=
  exists tables table,
    InterviewSetting.tables base = Some tables
    /\ table ∈ tables
    /\ InterviewSetting.tableId table = tableId.

End Ownership.

(** ** Notions about the store *)

Module StoreNotions.

(** A table of entries holds every entry under its own id, as a table
    whose primary key is the [id] of its objects does. *)
Definition keyedById (table : gmap string InterviewScreenEntry.T) : Prop :=
  forall key entry,
    table !! key = Some entry -> InterviewScreenEntry.id entry = key.

(** A string holds the placeholder [%s]. *)
Fixpoint hasPlaceholder (s : string) : bool :=
  match s with
  | EmptyString => false
  | String c rest =>
      match rest with
      | String d _ =>
          (Ascii.eqb c "%" && Ascii.eqb d "s") || hasPlaceholder rest
      | EmptyString => false
      end
  end.

(** The error for an interview that is not stored: its message names
    the id, in which every [%s] reads [undefined]. *)
Definition missingInterview (interviewId : string) : InterviewStore.Error :=
  InterviewStore.InvariantViolation
    ("[InterviewStore] addScreenToInterview: Could not find interview with id '"
     ++ InterviewStore.invariantMessage interviewId ++ "'").

End StoreNotions.

(** * Sample data of the further code *)

(** An interview under update that allows two languages; the backend
    returns [storedInterview "en;es"] for it. *)
Definition sampleUpdate : @Interview.UpdateT string unit unit unit unit :=
  {| Interview.u_interview :=
       {| Interview.allowedLanguages := ["en"; "es"];
          Interview.createdDate := "2023-11-14T22:13:20.000Z";
          Interview.defaultLanguage := "en";
          Interview.description := "A sample interview";
          Interview.id := "interview-1";
          Interview.name := "Guessing Game";
          Interview.notes := "";
          Interview.ownerId := "owner";
          Interview.published := false;
          Interview.vanityUrl := None |};
     Interview.u_interviewSettings := [];
     Interview.u_submissionActions := [] |}.

(** The screens of the guessing game with their entries, as the runner
    loads them. *)
Definition gameScreensWithChildren : list Script.WithChildrenT :=
  [Script.mkWithChildrenT nameScreen [nameEntry];
   Script.mkWithChildrenT guessScreen [guessEntry];
   Script.mkWithChildrenT incorrectScreen [];
   Script.mkWithChildrenT endingScreen []].

(** One base with one table: [Status] is a single select with two
    choices, [Name] is a plain text field. *)
Definition statusField : InterviewSetting.AirtableField :=
  InterviewSetting.mkAirtableField "Status"
    (Some
       (InterviewSetting.mkAirtableFieldOptions
          (Some
             [Some (InterviewSetting.mkAirtableChoice (Some "sel1") (Some "Open"));
              Some (InterviewSetting.mkAirtableChoice (Some "sel2")
                      (Some "Closed"))]))).

Definition sampleBases : option (list InterviewSetting.AirtableBase) :=
  Some
    [InterviewSetting.mkAirtableBase (Some "appBase") (Some "Base")
       (Some
          [InterviewSetting.mkAirtableTable "tblPeople" "People"
             (Some [InterviewSetting.mkAirtableField "Name" None;
                    statusField])])].

Definition peopleTable : Entry.AirtableOptions :=
  Entry.mkAirtableOptions "appBase" "tblPeople" [].

(** The interview of the samples under configuration, with two actions
    of orders 1 and 2. *)
Definition configuredInterview
  : @Interview.UpdateT string SubmissionAction.T
      SubmissionActionCreate.CreateT unit unit :=
  {| Interview.u_interview := Interview.u_interview sampleUpdate;
     Interview.u_interviewSettings := [];
     Interview.u_submissionActions := [inl insertGuest; inl editPerson] |}.

(** The store of the samples keeps an interview as its id and the ids
    of its screens, and a screen as it is. *)
Definition StoredInterview : Type := string * list string.

Definition addStoredScreen (interview : StoredInterview)
  (screen : InterviewScreen.T) : StoredInterview :=
  (fst interview, (snd interview ++ [InterviewScreen.id screen])%list).

Definition SampleDB : Type :=
  @InterviewStore.DB StoredInterview InterviewScreen.T unit.

(** The guessing game is stored with two of its screens; of the entries
    they list, the entry of [NAME] is stored and the one of [GUESS] is
    not. *)
Definition sampleDB : SampleDB :=
  {| InterviewStore.conditionalActions := {["rule-1" := tt]};
     InterviewStore.interviews :=
       {["interview-1" := ("interview-1", ["NAME"; "GUESS"; "MISSING"])]};
     InterviewStore.interviewScreens :=
       {["NAME" := nameScreen; "GUESS" := guessScreen]};
     InterviewStore.interviewScreenEntries :=
       {["entry-name" := sampleEntry "entry-name" "name"]} |}.

(** * Properties *)

(** ** Looking an entry up by its id *)

Section EntryLookup.

Import InterviewScreenEntry.

Lemma findEntry_none (entryId : string) (l : list T) :
  findEntry entryId l = None <-> (forall e, e ∈ l -> id e <> entryId).
Proof.
  induction l as [|entry rest IH]; simpl.
  - split; [intros _ e He; inversion He | done].
  - destruct (String.eqb_spec (id entry) entryId) as [Heq|Hne].
    + split; [done|]. intros H. exfalso. apply (H entry); [left | done].
    + rewrite IH. split.
      * intros H e He. apply elem_of_cons in He as [->|He]; auto.
      * intros H e He. apply H. by right.
Qed.

Lemma findEntry_some (entryId : string) (l : list T) (e : T) :
  findEntry entryId l = Some e <->
  exists before after,
    l = (before ++ e :: after)%list /\ id e = entryId /\
    (forall e', e' ∈ before -> id e' <> entryId).
Proof.
  induction l as [|entry rest IH]; simpl.
  - split; [done|]. intros (before & after & Hl & _). by destruct before.
  - destruct (String.eqb_spec (id entry) entryId) as [Heq|Hne].
    + split.
      * intros [= ->]. exists [], rest. repeat split; [done|].
        intros e' He'. inversion He'.
      * intros (before & after & Hl & Hid & Hbefore).
        destruct before as [|b before]; simpl in Hl.
        -- by injection Hl as -> _.
        -- injection Hl as <- _. exfalso. apply (Hbefore entry); [left|done].
    + rewrite IH. split.
      * intros (before & after & -> & Hid & Hbefore).
        exists (entry :: before), after. repeat split; [done|].
        intros e' He'. apply elem_of_cons in He' as [->|He']; auto.
      * intros (before & after & Hl & Hid & Hbefore).
        destruct before as [|b before]; simpl in Hl.
        -- injection Hl as -> _. done.
        -- injection Hl as <- ->. exists before, after. repeat split; [done|].
           intros e' He'. apply Hbefore. by right.
Qed.

(** C10. [getEntryById] is a total function of the entry id and the
    list: it returns null exactly when the list is null or holds no
    entry with that id, and it returns an entry exactly when that entry
    is the first one of the list, in list order, whose id is the one
    asked for. *)
Theorem getEntryById_first_match (entryId : string) (entries : option (list T)) :
  (getEntryById entryId entries = None <->
   entries = None \/
   exists l, entries = Some l /\ forall e, e ∈ l -> id e <> entryId)
  /\
  (forall e,
     getEntryById entryId entries = Some e <->
     exists before after,
       entries = Some (before ++ e :: after)%list /\ id e = entryId /\
       forall e', e' ∈ before -> id e' <> entryId).
Proof.
  destruct entries as [l|]; simpl; split.
  - rewrite findEntry_none. split.
    + intros H. right. by exists l.
    + intros [?|(l' & [= <-] & H)]; done.
  - intros e. rewrite findEntry_some. split.
    + intros (before & after & -> & H). by exists before, after.
    + intros (before & after & [= ->] & H). by exists before, after.
  - split; [by left | done].
  - intros e. split; [done|]. by intros (? & ? & ? & _).
Qed.

End EntryLookup.

(** Two entries share the id ["e2"]: the first of them is returned. *)
Lemma getEntryById_first_match_witness :
  InterviewScreenEntry.getEntryById "e2"
    (Some [sampleEntry "e1" "r1"; sampleEntry "e2" "r2"; sampleEntry "e2" "r3"])
  = Some (sampleEntry "e2" "r2")
  /\ InterviewScreenEntry.getEntryById "e9" None = None.
Proof.
  split.
  - apply (proj2 (getEntryById_first_match "e2"
                    (Some [sampleEntry "e1" "r1"; sampleEntry "e2" "r2";
                           sampleEntry "e2" "r3"]))).
    exists [sampleEntry "e1" "r1"], [sampleEntry "e2" "r3"].
    repeat split.
    intros e' He'. apply list_elem_of_singleton in He' as ->. done.
  - apply (proj1 (getEntryById_first_match "e9" None)). by left.
Defined.

(** ** The list of allowed languages through [serialize] and [deserialize] *)

Section Languages.

Lemma prefix_delimiter (c : ascii) (rest : string) :
  String.prefix ";" (String c rest) = Ascii.eqb c ";".
Proof.
  cbn -[ascii_dec].
  destruct (ascii_dec ";" c) as [<-|Hne].
  - by destruct rest.
  - symmetry. apply Ascii.eqb_neq. congruence.
Qed.

Lemma splitFrom_cons (c : ascii) (rest : string) :
  JS.splitFrom ";" O (String c rest)
  = if Ascii.eqb c ";" then "" :: JS.splitFrom ";" O rest
    else match JS.splitFrom ";" O rest with
         | [] => [String c ""]
         | piece :: pieces => String c piece :: pieces
         end.
Proof.
  change (JS.splitFrom ";" O (String c rest))
    with (if String.prefix ";" (String c rest)
          then "" :: JS.splitFrom ";" O rest
          else match JS.splitFrom ";" O rest with
               | [] => [String c ""]
               | piece :: pieces => String c piece :: pieces
               end).
  by rewrite prefix_delimiter.
Qed.

Lemma splitFrom_piece (s : string) :
  JS.contains ";" s = false -> JS.splitFrom ";" O s = [s].
Proof.
  induction s as [|c rest IH]; [done|].
  intros H. simpl in H. apply orb_false_elim in H as [Hc Hrest].
  by rewrite splitFrom_cons, Hc, (IH Hrest).
Qed.

Lemma splitFrom_delimited (s t : string) :
  JS.contains ";" s = false ->
  JS.splitFrom ";" O (s ++ ";" ++ t) = s :: JS.splitFrom ";" O t.
Proof.
  induction s as [|c rest IH]; intros H.
  - change ("" ++ ";" ++ t) with (String ";" t). by rewrite splitFrom_cons.
  - simpl in H. apply orb_false_elim in H as [Hc Hrest].
    change (String c rest ++ ";" ++ t) with (String c (rest ++ ";" ++ t)).
    by rewrite splitFrom_cons, Hc, (IH Hrest).
Qed.

(** Splitting what was joined gives the list back, when the list is not
    empty and no element holds the delimiter. *)
Lemma split_join (l : list string) :
  l <> [] ->
  (forall language, language ∈ l -> JS.contains ";" language = false) ->
  JS.split Interview.LANGUAGE_DELIMITER (JS.join Interview.LANGUAGE_DELIMITER l)
  = l.
Proof.
  unfold Interview.LANGUAGE_DELIMITER, JS.split.
  induction l as [|s rest IH]; [done|]. intros _ Hclean.
  destruct rest as [|s' rest].
  - simpl. apply splitFrom_piece, Hclean. left.
  - change (JS.join ";" (s :: s' :: rest))
      with (s ++ ";" ++ JS.join ";" (s' :: rest)).
    rewrite splitFrom_delimited by (apply Hclean; left).
    f_equal. apply IH; [done|].
    intros language Hin. apply Hclean. by right.
Qed.

Context {DateTime RawScreen : Type}.
Context {Action ActionCreate RawAction RawActionOut : Type}.
Context {Setting SettingCreate RawSetting RawSettingOut : Type}.
Variable fromISO : string -> DateTime.
Variable toISO : DateTime -> string.
Variable deserializeScreen : RawScreen -> InterviewScreen.T.
Variable deserializeAction : RawAction -> Action.
Variable serializeAction : Action -> RawActionOut.
Variable serializeActionCreate : ActionCreate -> RawActionOut.
Variable deserializeSetting : RawSetting -> Setting.
Variable serializeSetting : Setting -> RawSettingOut.
Variable serializeSettingCreate : SettingCreate -> RawSettingOut.

(** For an interview with at least one allowed language, none of which
    holds [;], any raw object that carries the serialised list of
    languages deserialises to an interview with the original list. *)
Lemma languages_round_trip
  (interview : @Interview.UpdateT DateTime Action ActionCreate Setting SettingCreate
               + Interview.CreateT)
  (rawObj : @Interview.SerializedRead RawScreen RawAction RawSetting) :
  Interview.languagesOf interview <> [] ->
  (forall language,
     language ∈ Interview.languagesOf interview ->
     JS.contains ";" language = false) ->
  Interview.r_allowedLanguages rawObj
  = Interview.serializedLanguagesOf
      (Interview.serialize toISO serializeAction serializeActionCreate
         serializeSetting serializeSettingCreate interview) ->
  Interview.allowedLanguages
    (Interview.interviewOf
       (Interview.deserialize fromISO deserializeScreen deserializeAction
          deserializeSetting rawObj))
  = Interview.languagesOf interview.
Proof.
  intros Hne Hclean Hraw.
  assert (Interview.r_allowedLanguages rawObj
          = JS.join Interview.LANGUAGE_DELIMITER (Interview.languagesOf interview))
    as Hjoined by (rewrite Hraw; by destruct interview).
  unfold Interview.deserialize.
  destruct (Interview.r_screens rawObj); simpl;
    rewrite Hjoined; by apply split_join.
Qed.

End Languages.

(** C9. The empty list of allowed languages does not survive the round
    trip: it is serialised to the empty string, which is deserialised to
    the list holding one empty string. No element of the empty list
    holds the delimiter. *)
Theorem languages_round_trip_empty_list :
  Interview.languagesOf noLanguagesInput = []
  /\ Interview.serializedLanguagesOf (serializeSample noLanguagesInput) = ""
  /\ Interview.allowedLanguages
       (Interview.interviewOf (deserializeSample (storedInterview "")))
     = [""]
  /\ Interview.allowedLanguages
       (Interview.interviewOf (deserializeSample (storedInterview "")))
     <> Interview.languagesOf noLanguagesInput.
Proof. repeat split. discriminate. Qed.

(** The interview [create] makes, with its one language ["en"], does
    survive it. *)
Lemma languages_round_trip_witness :
  Interview.allowedLanguages
    (Interview.interviewOf (deserializeSample (storedInterview "en")))
  = ["en"].
Proof.
  apply (languages_round_trip (fun iso => iso) (fun date => date)
           (fun _ => InterviewScreen.mkT "" "" false None [] [])
           (fun _ => tt) (fun _ => tt) (fun _ => tt) (fun _ => tt)
           (fun _ => tt) (fun _ => tt)
           (inr (Interview.create "A sample interview" "Guessing Game" "owner")
            : @Interview.UpdateT string unit unit unit unit + Interview.CreateT)
           (storedInterview "en")).
  - discriminate.
  - intros language Hin. apply list_elem_of_singleton in Hin as ->. reflexivity.
  - reflexivity.
Defined.

(** ** The starting screens and the initial screen *)

Section StableSort.

Context {A : Type}.
Variable key : A -> Z.

(** The comparator of a descending sort by [key]. *)
Let descending (x y : A) : Z := key y - key x.

Lemma insertBy_perm (x : A) (sorted : list A) :
  Permutation (JS.insertBy descending x sorted) (x :: sorted).
Proof.
  induction sorted as [|y rest IH]; simpl; [done|].
  destruct (descending x y <=? 0); [done|].
  rewrite IH. apply perm_swap.
Qed.

Lemma sort_perm (l : list A) : Permutation (JS.sort descending l) l.
Proof.
  induction l as [|x rest IH]; simpl; [done|].
  rewrite insertBy_perm. by constructor.
Qed.

Lemma insertBy_head (x : A) (sorted : list A) :
  List.head (JS.insertBy descending x sorted)
  = match sorted with
    | [] => Some x
    | y :: _ => if key y <=? key x then Some x else Some y
    end.
Proof.
  destruct sorted as [|y rest]; simpl; [done|]. unfold descending.
  destruct (Z.leb_spec (key y - key x) 0), (Z.leb_spec (key y) (key x));
    simpl; first [done | lia].
Qed.

(** The head of the sorted list is the first element of greatest key:
    the elements before it in the input have a smaller key, those after
    it a key that is not greater. *)
Lemma sort_head (l : list A) :
  l <> [] ->
  exists before m after,
    l = (before ++ m :: after)%list
    /\ List.head (JS.sort descending l) = Some m
    /\ (forall y, y ∈ before -> key y < key m)
    /\ (forall y, y ∈ after -> key y <= key m).
Proof.
  induction l as [|x rest IH]; [done|]. intros _.
  destruct rest as [|x' rest].
  - exists [], x, []. repeat split; intros y Hy; inversion Hy.
  - destruct IH as (before & m & after & Hrest & Hhead & Hbefore & Hafter);
      [done|].
    change (JS.sort descending (x :: x' :: rest))
      with (JS.insertBy descending x (JS.sort descending (x' :: rest))).
    rewrite insertBy_head.
    destruct (JS.sort descending (x' :: rest)) as [|m' tail]; [done|].
    injection Hhead as ->.
    destruct (Z.leb_spec (key m) (key x)) as [Hle|Hlt].
    + exists [], x, (x' :: rest). repeat split.
      * intros y Hy. inversion Hy.
      * intros y Hy. rewrite Hrest in Hy.
        apply elem_of_app in Hy as [Hy|Hy].
        -- specialize (Hbefore y Hy). lia.
        -- apply elem_of_cons in Hy as [->|Hy]; [done|].
           specialize (Hafter y Hy). lia.
    + exists (x :: before), m, after. rewrite Hrest. repeat split; [|done].
      intros y Hy. apply elem_of_cons in Hy as [->|Hy]; auto.
Qed.

End StableSort.

Section StartingScreens.

Import Vocabulary.

Context {DateTime Action Setting : Type}.

Lemma qualifies_filter (s : InterviewScreen.T) :
  InterviewScreen.isInStartingState s
  && bool_decide (InterviewScreen.startingStateOrder s <> None) = true
  <-> qualifies s.
Proof.
  unfold qualifies. rewrite andb_true_iff, bool_decide_eq_true. done.
Qed.

Lemma getStartingScreens_elem
  (interview : @Interview.WithScreensAndActions DateTime Action Setting)
  (s : InterviewScreen.T) :
  s ∈ Interview.getStartingScreens interview
  <-> s ∈ Interview.screens interview /\ qualifies s.
Proof.
  unfold Interview.getStartingScreens.
  rewrite (sort_perm orderOf). rewrite !list_elem_of_In, filter_In.
  by rewrite qualifies_filter.
Qed.

(** With no qualifying screen there is no starting screen. *)
Lemma getStartingScreens_none
  (interview : @Interview.WithScreensAndActions DateTime Action Setting) :
  (forall s, s ∈ Interview.screens interview -> ~ qualifies s) ->
  Interview.getStartingScreens interview = [].
Proof.
  intros Hnone.
  destruct (Interview.getStartingScreens interview) as [|s rest] eqn:Hstart;
    [done|].
  assert (s ∈ Interview.getStartingScreens interview) as Hin
    by (rewrite Hstart; left).
  apply getStartingScreens_elem in Hin as [Hin Hq]. by destruct (Hnone s).
Qed.

(** With a qualifying screen, the first of the starting screens is a
    qualifying screen whose order no qualifying screen exceeds. *)
Lemma getStartingScreens_first
  (interview : @Interview.WithScreensAndActions DateTime Action Setting) :
  (exists s, s ∈ Interview.screens interview /\ qualifies s) ->
  exists first rest,
    Interview.getStartingScreens interview = first :: rest
    /\ first ∈ Interview.screens interview
    /\ qualifies first
    /\ (forall s, s ∈ Interview.screens interview -> qualifies s ->
                  orderOf s <= orderOf first).
Proof.
  intros (s0 & Hin0 & Hq0).
  assert (s0 ∈ Interview.getStartingScreens interview) as Hstart0
    by (by apply getStartingScreens_elem).
  pose (starting :=
          List.filter
            (fun screen =>
               InterviewScreen.isInStartingState screen
               && bool_decide (InterviewScreen.startingStateOrder screen <> None))
            (Interview.screens interview)).
  assert (forall s, s ∈ starting
                    <-> s ∈ Interview.screens interview /\ qualifies s)
    as Hstarting.
  { intros s. unfold starting.
    by rewrite !list_elem_of_In, filter_In, qualifies_filter. }
  destruct (sort_head orderOf starting)
    as (before & m & after & Hsplit & Hhead & Hbefore & Hafter).
  { intros Hnil. assert (s0 ∈ starting) as H by (by apply Hstarting).
    rewrite Hnil in H. inversion H. }
  change (JS.sort (fun x y => orderOf y - orderOf x) starting)
    with (Interview.getStartingScreens interview) in Hhead.
  destruct (Interview.getStartingScreens interview) as [|first rest];
    [done|]. injection Hhead as ->.
  assert (m ∈ starting) as Hm 
    by (rewrite Hsplit; apply elem_of_app; right; left).
  apply Hstarting in Hm as [Hm Hqm].
  exists m, rest. repeat split; try done; try apply Hqm.
  intros s Hs Hq.
  assert (s ∈ starting) as Hin by (by apply Hstarting).
  rewrite Hsplit in Hin. apply elem_of_app in Hin as [Hin|Hin].
  - specialize (Hbefore s Hin). lia.
  - apply elem_of_cons in Hin as [->|Hin]; [done|]. by apply Hafter.
Qed.

End StartingScreens.

Section InitialScreen.

Import Vocabulary.

Context {Operator DateTime Setting : Type}.

(** C4. When some screen is in starting state and has a starting order,
    the initial screen is such a screen, and no screen that is in
    starting state with an order has a higher order; when no screen is
    both in starting state and ordered, there is no initial screen and
    the configuration is in error. *)
Theorem initialScreen_highest_order
  (cfg : @Script.Config Operator DateTime Setting) :
  ((exists s, s ∈ Interview.screens (Script.interview cfg) /\ qualifies s) ->
   exists first,
     Script.initialScreen cfg = inr first
     /\ first ∈ Interview.screens (Script.interview cfg)
     /\ qualifies first
     /\ (forall s, s ∈ Interview.screens (Script.interview cfg) ->
                   qualifies s -> orderOf s <= orderOf first))
  /\
  ((forall s, s ∈ Interview.screens (Script.interview cfg) -> ~ qualifies s) ->
   Script.initialScreen cfg = inl Script.NoStartingScreen).
Proof.
  unfold Script.initialScreen. split.
  - intros Hsome.
    destruct (getStartingScreens_first (Script.interview cfg) Hsome)
      as (first & rest & -> & Hin & Hq & Hmax).
    by exists first.
  - intros Hnone. by rewrite (getStartingScreens_none _ Hnone).
Qed.

End InitialScreen.

(** Starting screens [A] with order 1 and [B] with order 2: the
    interview starts at [B]. *)
Example initialScreen_A1_B2 :
  Script.initialScreen (sampleConfig screensAB ∅ ∅ [])
  = inr (sampleScreen "B" true (Some 2)).
Proof. reflexivity. Qed.

Lemma initialScreen_highest_order_witness :
  exists first,
    Script.initialScreen (sampleConfig screensAB ∅ ∅ []) = inr first
    /\ first ∈ screensAB
    /\ Vocabulary.qualifies first
    /\ (forall s, s ∈ screensAB -> Vocabulary.qualifies s ->
                  Vocabulary.orderOf s <= Vocabulary.orderOf first).
Proof.
  apply (proj1 (initialScreen_highest_order (sampleConfig screensAB ∅ ∅ []))).
  exists (sampleScreen "A" true (Some 1)). split; [left | by split].
Defined.

(** A screen set with a screen in starting state, and yet no initial
    screen: the only screen in starting state has no starting order. *)
Lemma initialScreen_unordered_starting_screen :
  (exists s, s ∈ screensUnordered /\ InterviewScreen.isInStartingState s = true)
  /\ Script.initialScreen (sampleConfig screensUnordered ∅ ∅ [])
     = inl Script.NoStartingScreen
  /\ (forall first,
        Script.initialScreen (sampleConfig screensUnordered ∅ ∅ [])
        <> inr first).
Proof.
  repeat split.
  - exists (sampleScreen "A" true None). split; [left | reflexivity].
  - intros first. discriminate.
Qed.

(** ** The special value of a field mapping *)

Section IsoFormat.

Import Vocabulary.

Lemma digit_isDigit (n : Z) : isDigit (JSDate.digit n) = true.
Proof.
  unfold isDigit, JSDate.digit.
  assert (Z.to_nat (n mod 10) < 10)%nat as Hlt
    by (pose proof (Z.mod_pos_bound n 10); lia).
  rewrite nat_ascii_embedding by lia.
  apply andb_true_intro. split; apply Nat.leb_le; lia.
Qed.



Lemma append_cons (c : ascii) (s t : string) :
  String c s ++ t = String c (s ++ t).
Proof. reflexivity. Qed.

Lemma allDigits_app (s t : string) :
  allDigits (s ++ t) = allDigits s && allDigits t.
Proof.
  induction s as [|c rest IH]; [reflexivity|].
  rewrite append_cons. cbn [allDigits]. by rewrite IH, andb_assoc.
Qed.

Lemma length_string_app (s t : string) :
  String.length (s ++ t) = (String.length s + String.length t)%nat.
Proof.
  induction s as [|c rest IH]; [reflexivity|].
  rewrite append_cons. cbn [String.length]. by rewrite IH.
Qed.

Lemma padded_digits (width : nat) (n : Z) : digits width (JSDate.padded width n).
Proof.
  revert n. induction width as [|w IH]; intros n; [by split|].
  destruct (IH (n / 10)) as [Hlen Hall]. split.
  - change (JSDate.padded (S w) n)
      with (JSDate.padded w (n / 10) ++ String (JSDate.digit n) "").
    rewrite length_string_app, Hlen. cbn [String.length]. lia.
  - change (JSDate.padded (S w) n)
      with (JSDate.padded w (n / 10) ++ String (JSDate.digit n) "").
    rewrite allDigits_app, Hall. cbn [allDigits andb].
    by rewrite digit_isDigit.
Qed.

(** What [toISOString] returns has the ISO 8601 format. *)
Lemma toISOString_format (t : Z) : ISO8601 (JSDate.toISOString t).
Proof.
  unfold JSDate.toISOString.
  destruct (JSDate.civilFromDays (t / JSDate.msPerDay)) as [[y m] d].
  eexists (JSDate.yearString y), _, _, _, _, _, _.
  split; [reflexivity|].
  split; [|repeat apply conj; apply padded_digits].
  unfold JSDate.yearString.
  destruct ((0 <=? y) && (y <=? 9999)).
  - left. apply padded_digits.
  - right. exists (JSDate.padded 6 (Z.abs y)). split; [apply padded_digits|].
    destruct (y <? 0); [by right | by left].
Qed.

Lemma toISOString_not_empty (t : Z) : JSDate.toISOString t <> "".
Proof.
  destruct (toISOString_format t)
    as (year & month & ? & ? & ? & ? & ? & -> & Hyear & _).
  destruct year as [|c year]; [|discriminate].
  destruct Hyear as [[Hlen _]|(magnitude & _ & [H|H])]; discriminate.
Qed.

End IsoFormat.

Section SpecialValue.

Import Vocabulary.

Context {Response : Type}.
Variable getResponseValue :
  ResponseData.T Response -> string -> option string -> option string.
Variable clock : nat -> Z.
Variable responseData : ResponseData.T Response.
Variable allEntries : gmap string Entry.T.

(** C8. A field mapping that sets [specialValueType] and no [entryId]
    resolves to the reading the clock shows at that moment, written by
    [toISOString] in the ISO 8601 format; the clock is read once and
    nothing else changes. [NOW_DATE] is the only special value type
    there is. *)
Theorem special_value_is_now_date
  (entryLookupConfig : SubmissionAction.EntryResponseLookupConfig)
  (specialValueType : SubmissionAction.SpecialValueType) (w : Runner.World) :
  JS.truthy (SubmissionAction.entryId entryLookupConfig) = false ->
  SubmissionAction.specialValueType entryLookupConfig = Some specialValueType ->
  specialValueType = SubmissionAction.NOW_DATE
  /\ Runner.resolveResponseValue getResponseValue clock responseData allEntries
       entryLookupConfig w
     = (JSDate.toISOString (clock (Runner.clockReads w)),
        withClock w (S (Runner.clockReads w)))
  /\ ISO8601 (JSDate.toISOString (clock (Runner.clockReads w))).
Proof.
  intros Hentry Hspecial. split; [by destruct specialValueType|].
  split; [|apply toISOString_format].
  unfold Runner.resolveResponseValue. rewrite Hspecial.
  destruct specialValueType.
  destruct (SubmissionAction.entryId entryLookupConfig) as [entryId|];
    [|done].
  simpl in Hentry. apply negb_false_iff in Hentry. by rewrite Hentry.
Qed.

End SpecialValue.

(** ** The payload of a submission action *)

Section FieldMappings.

Import Vocabulary.

Context {Response : Type}.
Variable getResponseValue :
  ResponseData.T Response -> string -> option string -> option string.
Variable clock : nat -> Z.
Variable responseData : ResponseData.T Response.
Variable allEntries : gmap string Entry.T.

Let resolve := Runner.resolveResponseValue getResponseValue clock responseData allEntries.
Let collect := Runner.collectFields getResponseValue clock responseData allEntries.
Let resolved := resolutions getResponseValue clock responseData allEntries.

(** Resolving a field mapping changes nothing in the world but the
    count of clock readings, and depends on nothing else in it. *)
Lemma resolve_frame (config : SubmissionAction.EntryResponseLookupConfig)
  (w : Runner.World) :
  snd (resolve config w) = withClock w (Runner.clockReads (snd (resolve config w))).
Proof.
  unfold resolve, Runner.resolveResponseValue.
  destruct w as [reads calls toasts err updated created].
  destruct (SubmissionAction.entryId config) as [entryId|];
    [destruct (String.eqb entryId "");
     [|destruct (allEntries !! entryId); reflexivity]|];
    (destruct (SubmissionAction.specialValueType config) as [[]|];
     reflexivity).
Qed.

Lemma resolve_clock (config : SubmissionAction.EntryResponseLookupConfig)
  (w1 w2 : Runner.World) :
  Runner.clockReads w1 = Runner.clockReads w2 ->
  fst (resolve config w1) = fst (resolve config w2)
  /\ Runner.clockReads (snd (resolve config w1))
     = Runner.clockReads (snd (resolve config w2)).
Proof.
  intros Hreads. unfold resolve, Runner.resolveResponseValue.
  destruct (SubmissionAction.entryId config) as [entryId|];
    [destruct (String.eqb entryId "");
     [|destruct (allEntries !! entryId); by split]|];
    (destruct (SubmissionAction.specialValueType config) as [[]|];
     [|by split]);
    unfold Runner.getSpecialValueForSubmission, Runner.bind, Runner.newDate,
      Runner.ret; simpl; by rewrite Hreads.
Qed.

(** A mapping that names an entry resolves to the empty string when the
    entry is not among the answered ones, or when no value is found in
    its answer, or when the value found is empty. *)
Lemma resolve_empty (config : SubmissionAction.EntryResponseLookupConfig)
  (entryId : string) (w : Runner.World) :
  SubmissionAction.entryId config = Some entryId ->
  entryId <> "" ->
  allEntries !! entryId = None
  \/ (exists entry,
        allEntries !! entryId = Some entry
        /\ JS.truthy
             (getResponseValue responseData (Entry.responseKey entry)
                (SubmissionAction.responseFieldKey config)) = false) ->
  resolve config w = ("", w).
Proof.
  intros Hentry Hne Hnone. unfold resolve, Runner.resolveResponseValue.
  rewrite Hentry. apply String.eqb_neq in Hne. rewrite Hne.
  destruct Hnone as [->|(entry & -> & Hfalsy)]; [done|].
  destruct (getResponseValue responseData (Entry.responseKey entry)
              (SubmissionAction.responseFieldKey config)) as [value|]; [|done].
  simpl in Hfalsy. apply negb_false_iff, String.eqb_eq in Hfalsy. by subst.
Qed.

Lemma collect_cons (fields : gmap string string) (fieldId : string)
  (config : SubmissionAction.EntryResponseLookupConfig)
  (rest : list (string * SubmissionAction.EntryResponseLookupConfig))
  (w : Runner.World) :
  collect fields ((fieldId, config) :: rest) w
  = collect
      (if String.eqb (fst (resolve config w)) "" then fields
       else JS.setProperty fields fieldId (fst (resolve config w)))
      rest (snd (resolve config w)).
Proof.
  unfold collect, resolve. cbn [Runner.collectFields]. unfold Runner.bind.
  by destruct (Runner.resolveResponseValue _ _ _ _ config w).
Qed.

Lemma resolved_cons (fieldId : string)
  (config : SubmissionAction.EntryResponseLookupConfig)
  (rest : list (string * SubmissionAction.EntryResponseLookupConfig))
  (w : Runner.World) :
  resolved ((fieldId, config) :: rest) w
  = (fieldId, fst (resolve config w)) :: resolved rest (snd (resolve config w)).
Proof.
  unfold resolved, resolve. cbn [resolutions].
  by destruct (Runner.resolveResponseValue _ _ _ _ config w).
Qed.

Lemma collect_frame (fields : gmap string string)
  (fieldMappings : list (string * SubmissionAction.EntryResponseLookupConfig))
  (w : Runner.World) :
  snd (collect fields fieldMappings w)
  = withClock w (Runner.clockReads (snd (collect fields fieldMappings w))).
Proof.
  revert fields w.
  induction fieldMappings as [|[fieldId config] rest IH]; intros fields w.
  - by destruct w.
  - rewrite collect_cons, IH. rewrite (resolve_frame config w) at 1. done.
Qed.

Lemma collect_clock (fields : gmap string string)
  (fieldMappings : list (string * SubmissionAction.EntryResponseLookupConfig))
  (w1 w2 : Runner.World) :
  Runner.clockReads w1 = Runner.clockReads w2 ->
  fst (collect fields fieldMappings w1) = fst (collect fields fieldMappings w2)
  /\ Runner.clockReads (snd (collect fields fieldMappings w1))
     = Runner.clockReads (snd (collect fields fieldMappings w2)).
Proof.
  revert fields w1 w2.
  induction fieldMappings as [|[fieldId config] rest IH];
    intros fields w1 w2 Hreads; [by split|].
  rewrite !collect_cons.
  destruct (resolve_clock config w1 w2 Hreads) as [-> Hnext].
  by apply IH.
Qed.

Lemma resolved_keys
  (fieldMappings : list (string * SubmissionAction.EntryResponseLookupConfig))
  (w : Runner.World) :
  List.map fst (resolved fieldMappings w) = List.map fst fieldMappings.
Proof.
  revert w. induction fieldMappings as [|[fieldId config] rest IH]; intros w;
    [done|].
  rewrite resolved_cons. simpl. by rewrite IH.
Qed.

(** What an assignment leaves under a key of a plain object. *)
Lemma setProperty_lookup {V : Type} (object : gmap string V)
  (key other : string) (value : V) :
  JS.setProperty object key value !! other
  = if decide (other = key /\ key <> "__proto__") then Some value
    else object !! other.
Proof.
  unfold JS.setProperty.
  destruct (String.eqb_spec key "__proto__") as [->|Hkey].
  - destruct (decide _) as [[_ Hne]|_]; done.
  - destruct (decide _) as [[-> _]|Hnot].
    + apply lookup_insert_eq.
    + apply lookup_insert_ne. intros <-. by apply Hnot.
Qed.

(** What [collectFields] leaves under a field id: the non-empty value
    the mapping of that field resolved to, unless the field id is
    [__proto__], or else what was there. *)
Lemma collect_lookup (fields : gmap string string)
  (fieldMappings : list (string * SubmissionAction.EntryResponseLookupConfig))
  (w : Runner.World) (fieldId value : string) :
  NoDup (List.map fst fieldMappings) ->
  fst (collect fields fieldMappings w) !! fieldId = Some value
  <-> (fieldId <> "__proto__"
       /\ (fieldId, value) ∈ resolved fieldMappings w /\ value <> "")
      \/ (fields !! fieldId = Some value
          /\ (fieldId = "__proto__"
              \/ forall other, (fieldId, other) ∈ resolved fieldMappings w ->
                               other = "")).
Proof.
  revert fields w.
  induction fieldMappings as [|[key config] rest IH]; intros fields w Hnodup.
  - simpl. split.
    + intros H. right. split; [done|]. right. intros other Hin. inversion Hin.
    + intros [(_ & Hin & _)|[H _]]; [inversion Hin | done].
  - cbn [List.map fst] in Hnodup.
    apply NoDup_cons in Hnodup as [Hfresh Hnodup].
    rewrite collect_cons, resolved_cons, (IH _ _ Hnodup).
    set (value' := fst (resolve config w)).
    set (w' := snd (resolve config w)).
    assert (forall other, (key, other) ∉ resolved rest w') as Hkey.
    { intros other Hin. apply Hfresh. rewrite <- (resolved_keys rest w').
      apply list_elem_of_In, in_map_iff. exists (key, other).
      split; [done|]. by apply list_elem_of_In. }
    assert ((if String.eqb value' "" then fields
             else JS.setProperty fields key value') !! fieldId
            = if decide (fieldId = key /\ key <> "__proto__" /\ value' <> "")
              then Some value' else fields !! fieldId) as ->.
    { destruct (String.eqb_spec value' "") as [Hempty|Hfull].
      - destruct (decide _) as [(_ & _ & Hne)|_]; done.
      - rewrite setProperty_lookup.
        destruct (decide (fieldId = key /\ key <> "__proto__")) as [[-> Hp]|Hnot];
          destruct (decide _) as [(Hk & Hp' & _)|Hnot']; try done.
        + destruct Hnot'. done.
        + destruct Hnot. done. }
    destruct (decide (fieldId = key)) as [->|Hne].
    + destruct (decide (key = "__proto__")) as [Hproto|Hplain].
      * destruct (decide _) as [(_ & Hp & _)|_]; [done|].
        split.
        -- intros [(Hp & _)|[Hold _]]; [done|]. right. split; [done|]. by left.
        -- intros [(Hp & _)|[Hold _]]; [done|]. right. split; [done|]. by left.
      * destruct (String.eqb_spec value' "") as [Hempty|Hfull].
        -- destruct (decide _) as [(_ & _ & Hv)|_]; [done|]. split.
           ++ intros [(_ & Hin & _)|[Hold _]]; [by destruct (Hkey value)|].
              right. split; [done|]. right. intros other Hin.
              apply elem_of_cons in Hin as [[= ->]|Hin]; [done|].
              by destruct (Hkey other).
           ++ intros [(_ & Hin & Hvalue)|[Hold _]].
              ** apply elem_of_cons in Hin as [[= ->]|Hin]; [done|].
                 by destruct (Hkey value).
              ** right. split; [done|]. right. intros other Hin.
                 by destruct (Hkey other).
        -- destruct (decide _) as [_|Hnot]; [|by destruct Hnot]. split.
           ++ intros [(_ & Hin & _)|[[= <-] _]]; [by destruct (Hkey value)|].
              left. split; [done|]. split; [left | done].
           ++ intros [(_ & Hin & Hvalue)|[_ [Hp|Hothers]]].
              ** apply elem_of_cons in Hin as [[= ->]|Hin];
                   [|by destruct (Hkey value)].
                 right. split; [done|]. right. intros other Hin.
                 by destruct (Hkey other).
              ** done.
              ** destruct Hfull. apply Hothers. left.
    + destruct (decide _) as [(Hk & _)|_]; [done|].
      assert (forall other,
                (fieldId, other) ∈ (key, value') :: resolved rest w'
                <-> (fieldId, other) ∈ resolved rest w') as Hmem.
      { intros other. rewrite elem_of_cons. split; [|by right].
        intros [[= -> _]|H]; done. }
      rewrite Hmem. by setoid_rewrite Hmem.
Qed.

End FieldMappings.

(** ** Dispatching the submission actions *)

Section Dispatch.

Import Vocabulary.

Context {Response HTTPError : Type}.
Variable getResponseValue :
  ResponseData.T Response -> string -> option string -> option string.
Variable clock : nat -> Z.
Variable interviewId : string.
Variable responseData : ResponseData.T Response.
Variable allEntries : gmap string Entry.T.

Let collect := Runner.collectFields getResponseValue clock responseData allEntries.

Lemma mutate_effect (sinkResult : nat -> Runner.SinkCall -> option HTTPError)
  (raiseHTTPErrorToast : HTTPError -> Runner.Notice)
  (call : Runner.SinkCall) (w : Runner.World) :
  Runner.clockReads (snd (Runner.mutate sinkResult raiseHTTPErrorToast call w))
  = Runner.clockReads w
  /\ Runner.sinkCalls (snd (Runner.mutate sinkResult raiseHTTPErrorToast call w))
     = (Runner.sinkCalls w ++ [call])%list
  /\ Runner.toasts (snd (Runner.mutate sinkResult raiseHTTPErrorToast call w))
     = Runner.toasts w
  /\ Runner.errorOnComplete
       (snd (Runner.mutate sinkResult raiseHTTPErrorToast call w))
     = Runner.errorOnComplete w.
Proof. done. Qed.

(** What the handler of a submission action does is decided without the
    sink: either nothing at all, or one call, issued once the fields are
    collected, whose payload is the collected fields. *)
Lemma handle_cases
  (sinkResult1 sinkResult2 : nat -> Runner.SinkCall -> option HTTPError)
  (raise1 raise2 : HTTPError -> Runner.Notice)
  (submissionAction : SubmissionAction.T) (w1 w2 : Runner.World) :
  Runner.clockReads w1 = Runner.clockReads w2 ->
  (Runner.handleSubmissionAction getResponseValue clock sinkResult1 raise1
     interviewId responseData allEntries submissionAction w1 = (tt, w1)
   /\ Runner.handleSubmissionAction getResponseValue clock sinkResult2 raise2
        interviewId responseData allEntries submissionAction w2 = (tt, w2))
  \/ exists call,
       fieldsOf call
       = fst (collect ∅ (SubmissionAction.fieldMappings submissionAction) w1)
       /\ Runner.handleSubmissionAction getResponseValue clock sinkResult1 raise1
            interviewId responseData allEntries submissionAction w1
          = Runner.mutate sinkResult1 raise1 call
              (snd (collect ∅ (SubmissionAction.fieldMappings submissionAction) w1))
       /\ Runner.handleSubmissionAction getResponseValue clock sinkResult2 raise2
            interviewId responseData allEntries submissionAction w2
          = Runner.mutate sinkResult2 raise2 call
              (snd (collect ∅ (SubmissionAction.fieldMappings submissionAction) w2)).
Proof.
  intros Hreads. unfold Runner.handleSubmissionAction.
  destruct (collect_clock getResponseValue clock responseData allEntries ∅
              (SubmissionAction.fieldMappings submissionAction) w1 w2 Hreads)
    as [Hfields _].
  fold collect in Hfields.
  destruct (SubmissionAction.config submissionAction)
    as [entryId primaryKeyField|baseTarget tableTarget].
  - destruct (allEntries !! entryId) as [entryTarget|]; [|by left].
    destruct (Entry.isAirtable (Entry.responseType entryTarget)); [|by left].
    destruct (getResponseValue responseData (Entry.responseKey entryTarget)
                primaryKeyField) as [recordId|]; [|by left].
    destruct (String.eqb recordId ""); [by left|].
    right. unfold Runner.bind, Runner.airtableUpdateRecord. fold collect.
    eexists (Runner.UpdateRecord _ _ recordId interviewId _).
    split; [reflexivity|]. split.
    + by destruct (collect ∅ _ w1).
    + rewrite Hfields. by destruct (collect ∅ _ w2).
  - right. unfold Runner.bind, Runner.airtableCreateRecord. fold collect.
    eexists (Runner.CreateRecord baseTarget tableTarget interviewId _).
    split; [reflexivity|]. split.
    + by destruct (collect ∅ _ w1).
    + rewrite Hfields. by destruct (collect ∅ _ w2).
Qed.

End Dispatch.

Section Submission.

Import Vocabulary.

Context {Response HTTPError : Type}.
Variable getResponseValue :
  ResponseData.T Response -> string -> option string -> option string.
Variable clock : nat -> Z.
Variable sinkResult : nat -> Runner.SinkCall -> option HTTPError.
Variable raiseHTTPErrorToast : HTTPError -> Runner.Notice.
Variable interviewId : string.
Variable responseData : ResponseData.T Response.

Let collect (allEntries : gmap string Entry.T) :=
  Runner.collectFields getResponseValue clock responseData allEntries.
Let handle (allEntries : gmap string Entry.T) :=
  Runner.handleSubmissionAction getResponseValue clock sinkResult
    raiseHTTPErrorToast interviewId responseData allEntries.

(** The calls a handler adds to the sink: none, or one whose payload is
    the collected fields. *)
Lemma handle_payload (allEntries : gmap string Entry.T)
  (submissionAction : SubmissionAction.T) (w : Runner.World)
  (newCalls : list Runner.SinkCall) :
  Runner.sinkCalls (snd (handle allEntries submissionAction w))
  = (Runner.sinkCalls w ++ newCalls)%list ->
  newCalls = []
  \/ exists call,
       newCalls = [call]
       /\ fieldsOf call
          = fst (collect allEntries ∅
                   (SubmissionAction.fieldMappings submissionAction) w).
Proof.
  intros Hcalls.
  destruct (handle_cases getResponseValue clock interviewId responseData
              allEntries sinkResult sinkResult raiseHTTPErrorToast
              raiseHTTPErrorToast submissionAction w w eq_refl)
    as [[Hskip _]|(call & Hfields & Hcall & _)].
  - left. unfold handle in Hcalls. rewrite Hskip in Hcalls. simpl in Hcalls.
    apply (app_inv_head (Runner.sinkCalls w)). by rewrite app_nil_r.
  - right. exists call. split; [|done].
    unfold handle in Hcalls. rewrite Hcall in Hcalls.
    destruct (mutate_effect sinkResult raiseHTTPErrorToast call
                (snd (Runner.collectFields getResponseValue clock responseData
                        allEntries ∅
                        (SubmissionAction.fieldMappings submissionAction) w)))
      as (_ & Hlog & _).
    rewrite Hlog, collect_frame in Hcalls. simpl in Hcalls.
    symmetry. by apply (app_inv_head (Runner.sinkCalls w)).
Qed.

End Submission.

Section Payload.

Import Vocabulary.

Context {Response HTTPError : Type}.
Variable getResponseValue :
  ResponseData.T Response -> string -> option string -> option string.
Variable clock : nat -> Z.
Variable sinkResult : nat -> Runner.SinkCall -> option HTTPError.
Variable raiseHTTPErrorToast : HTTPError -> Runner.Notice.
Variable interviewId : string.
Variable responseData : ResponseData.T Response.
Variable allEntries : gmap string Entry.T.

Lemma value_of_key {A B : Type} (l : list (A * B)) (k : A) (x y : B) :
  NoDup (List.map fst l) -> (k, x) ∈ l -> (k, y) ∈ l -> x = y.
Proof.
  induction l as [|[k' z] rest IH]; intros Hnodup Hx Hy; [inversion Hx|].
  cbn [List.map fst] in Hnodup. apply NoDup_cons in Hnodup as [Hfresh Hnodup].
  assert (forall v, (k', v) ∉ rest) as Hk'.
  { intros v Hin. apply Hfresh, list_elem_of_In, in_map_iff.
    exists (k', v). split; [done|]. by apply list_elem_of_In. }
  apply elem_of_cons in Hx as [Hx|Hx]; apply elem_of_cons in Hy as [Hy|Hy].
  - congruence.
  - injection Hx as -> ->. by destruct (Hk' y).
  - injection Hy as -> ->. by destruct (Hk' x).
  - by apply IH.
Qed.

(** C2. In the payload of the call a submission action dispatches,
    whether it is an [EDIT_ROW] or an [INSERT_ROW], a field id other
    than [__proto__] holds a value exactly when the mapping of that
    field resolved to that value and the value is not the empty string;
    a field whose mapping resolved to the empty string is absent from
    the payload; and the payload never holds a value under
    [__proto__]. *)
Theorem payload_holds_non_empty_values
  (submissionAction : SubmissionAction.T) (w : Runner.World)
  (newCalls : list Runner.SinkCall) (call : Runner.SinkCall) (fieldId : string) :
  NoDup (List.map fst (SubmissionAction.fieldMappings submissionAction)) ->
  Runner.sinkCalls
    (snd (Runner.handleSubmissionAction getResponseValue clock sinkResult
            raiseHTTPErrorToast interviewId responseData allEntries
            submissionAction w))
  = (Runner.sinkCalls w ++ newCalls)%list ->
  call ∈ newCalls ->
  (fieldId <> "__proto__" ->
   forall value,
     fieldsOf call !! fieldId = Some value
     <-> (fieldId, value)
           ∈ resolutions getResponseValue clock responseData allEntries
               (SubmissionAction.fieldMappings submissionAction) w
         /\ value <> "")
  /\ ((fieldId, "")
        ∈ resolutions getResponseValue clock responseData allEntries
            (SubmissionAction.fieldMappings submissionAction) w ->
      fieldsOf call !! fieldId = None)
  /\ fieldsOf call !! "__proto__" = None.
Proof.
  intros Hnodup Hcalls Hcall.
  destruct (handle_payload getResponseValue clock sinkResult raiseHTTPErrorToast
              interviewId responseData allEntries submissionAction w newCalls
              Hcalls) as [->|(call' & -> & Hfields)]; [inversion Hcall|].
  apply list_elem_of_singleton in Hcall as ->.
  assert (forall key value,
            fieldsOf call' !! key = Some value
            <-> key <> "__proto__"
                /\ (key, value)
                     ∈ resolutions getResponseValue clock responseData
                         allEntries
                         (SubmissionAction.fieldMappings submissionAction) w
                /\ value <> "") as Hiff.
  { intros key value. rewrite Hfields.
    rewrite (collect_lookup getResponseValue clock responseData allEntries ∅
               _ w key value Hnodup).
    split; [|by left]. intros [H|[H _]]; [done|]. by rewrite lookup_empty in H. }
  split; [|split].
  - intros Hplain value. rewrite Hiff. tauto.
  - intros Hempty.
    destruct (fieldsOf call' !! fieldId) as [value|] eqn:Hlookup; [|done].
    destruct (proj1 (Hiff fieldId value) Hlookup) as (_ & Hin & Hvalue).
    destruct Hvalue.
    apply (value_of_key _ fieldId value "" ) in Hin; [done| |done].
    by rewrite resolved_keys.
  - destruct (fieldsOf call' !! "__proto__") as [value|] eqn:Hlookup; [|done].
    by destruct (proj1 (Hiff "__proto__" value) Hlookup) as (Hne & _).
Qed.

End Payload.

Lemma payload_holds_non_empty_values_witness :
  Vocabulary.fieldsOf
    (Runner.CreateRecord "appBase" "tblGuests" "interview-1"
       {["fldName" := "Ada"; "fldWhen" := "2023-11-14T22:13:20.000Z"]})
    !! "fldNick" = None.
Proof.
  refine (proj1 (proj2 (payload_holds_non_empty_values Script.getResponseValue
                          sampleClock sampleSinkResult sampleToast
                          "interview-1" sampleResponses
                          (Runner.allEntriesOf sampleResponses)
                          insertGuest Runner.initialWorld
                          [Runner.CreateRecord "appBase" "tblGuests"
                             "interview-1"
                             {["fldName" := "Ada";
                               "fldWhen" := "2023-11-14T22:13:20.000Z"]}]
                          _ "fldNick" _ _ _)) _).
  - apply NoDup_ListNoDup. vm_compute. repeat constructor; vm_compute; intuition discriminate.
  - vm_compute. reflexivity.
  - left.
  - apply list_elem_of_In. vm_compute. tauto.
Defined.

(** A mapping of the field [__proto__] that resolves to a value which
    is not empty, and yet the payload has no such field: the assignment
    to that key of the plain object is ignored. *)
Lemma payload_drops_the_proto_field :
  Runner.sinkCalls (snd (sampleHandle insertPrototype Runner.initialWorld))
  = [Runner.CreateRecord "appBase" "tblGuests" "interview-1" ∅]
  /\ ~ (Vocabulary.fieldsOf
          (Runner.CreateRecord "appBase" "tblGuests" "interview-1" ∅)
          !! "__proto__" = Some "Ada"
        <-> ("__proto__", "Ada")
              ∈ Vocabulary.resolutions Script.getResponseValue sampleClock
                  sampleResponses (Runner.allEntriesOf sampleResponses)
                  (SubmissionAction.fieldMappings insertPrototype)
                  Runner.initialWorld
            /\ "Ada" <> "").
Proof.
  split; [vm_compute; reflexivity|]. intros [_ Hback].
  assert (Vocabulary.fieldsOf
            (Runner.CreateRecord "appBase" "tblGuests" "interview-1" ∅)
            !! "__proto__" = Some "Ada") as Hheld.
  { apply Hback. split; [|discriminate].
    apply list_elem_of_In. vm_compute. tauto. }
  discriminate Hheld.
Qed.

(** ** Skipping an [EDIT_ROW] whose target entry is unanswered *)

Section Completion.

Import Vocabulary.

Context {Response HTTPError : Type}.
Variable getResponseValue :
  ResponseData.T Response -> string -> option string -> option string.
Variable clock : nat -> Z.
Variable interviewId : string.
Variable responseData : ResponseData.T Response.

Lemma allEntries_fold (l : ResponseData.T Response) (map : gmap string Entry.T)
  (entryId : string) :
  fold_left
    (fun map property =>
       <[Entry.id (ResponseData.entry (snd property))
         := ResponseData.entry (snd property)]> map)
    l map !! entryId = None
  <-> map !! entryId = None /\ unanswered l entryId.
Proof.
  revert map. induction l as [|[key datum] rest IH]; intros map.
  - simpl. split; [|by intros [? _]].
    intros H. split; [done|]. intros k d Hin. inversion Hin.
  - cbn [fold_left snd]. rewrite IH, lookup_insert_None. unfold unanswered.
    split.
    + intros [[Hmap Hne] Hrest]. split; [done|]. intros k d Hin.
      apply elem_of_cons in Hin as [[= -> ->]|Hin]; [done|]. by eapply Hrest.
    + intros [Hmap Hall]. repeat split; [done| |].
      * apply (Hall key datum). left.
      * intros k d Hin. apply (Hall k d). by right.
Qed.

(** [allEntries] has no entry under an id exactly when that entry is
    unanswered in the response data. *)
Lemma allEntriesOf_unanswered (entryId : string) :
  Runner.allEntriesOf responseData !! entryId = None
  <-> unanswered responseData entryId.
Proof.
  unfold Runner.allEntriesOf. rewrite allEntries_fold, lookup_empty. tauto.
Qed.

Lemma forEach_cons {A : Type} (f : A -> Runner.M unit) (a : A) (rest : list A)
  (w : Runner.World) :
  Runner.forEach f (a :: rest) w = Runner.forEach f rest (snd (f a w)).
Proof.
  cbn [Runner.forEach]. unfold Runner.bind. by destruct (f a w).
Qed.

Lemma forEach_app {A : Type} (f : A -> Runner.M unit) (l1 l2 : list A)
  (w : Runner.World) :
  Runner.forEach f (l1 ++ l2) w
  = Runner.forEach f l2 (snd (Runner.forEach f l1 w)).
Proof.
  revert w. induction l1 as [|a rest IH]; intros w; [done|].
  rewrite <- app_comm_cons, !forEach_cons. apply IH.
Qed.

Variable sinkResult : nat -> Runner.SinkCall -> option HTTPError.
Variable raiseHTTPErrorToast : HTTPError -> Runner.Notice.

(** C1. An [EDIT_ROW] action whose target entry is unanswered in the
    response data is skipped: its handler returns with the world as it
    was, so that the sink receives no call, neither an update nor a
    create, no toast is raised and no error is set; and the completion
    of an interview that has this action among its submission actions
    does exactly what it does for the interview without it. *)
Theorem unanswered_edit_row_is_skipped
  (submissionAction : SubmissionAction.T)
  (entryId : string) (primaryKeyField : option string) :
  SubmissionAction.config submissionAction
  = SubmissionAction.EditRow entryId primaryKeyField ->
  unanswered responseData entryId ->
  (forall w,
     Runner.handleSubmissionAction getResponseValue clock sinkResult
       raiseHTTPErrorToast interviewId responseData
       (Runner.allEntriesOf responseData) submissionAction w
     = (tt, w))
  /\ (forall (DateTime Setting : Type)
        (interview without :
           @Interview.WithScreensAndActions DateTime SubmissionAction.T Setting)
        (before after : list SubmissionAction.T) (w : Runner.World),
        Interview.submissionActions interview
        = (before ++ submissionAction :: after)%list ->
        Interview.submissionActions without = (before ++ after)%list ->
        Runner.onInterviewComplete getResponseValue clock sinkResult
          raiseHTTPErrorToast interviewId (Some interview) responseData w
        = Runner.onInterviewComplete getResponseValue clock sinkResult
            raiseHTTPErrorToast interviewId (Some without) responseData w).
Proof.
  intros Hconfig Hunanswered.
  assert (forall w,
            Runner.handleSubmissionAction getResponseValue clock sinkResult
              raiseHTTPErrorToast interviewId responseData
              (Runner.allEntriesOf responseData) submissionAction w
            = (tt, w)) as Hskip.
  { intros w. unfold Runner.handleSubmissionAction. rewrite Hconfig.
    by rewrite (proj2 (allEntriesOf_unanswered entryId) Hunanswered). }
  split; [done|].
  intros DateTime Setting interview without before after w Hwith Hwithout.
  unfold Runner.onInterviewComplete. rewrite Hwith, Hwithout.
  rewrite !forEach_app, forEach_cons. by rewrite Hskip.
Qed.

(** The same holds when the target entry is answered but is not backed
    by Airtable, or when no record id is found in its answer. *)
Lemma edit_row_without_record_id_is_skipped
  (submissionAction : SubmissionAction.T)
  (entryId : string) (primaryKeyField : option string)
  (entryTarget : Entry.T) (w : Runner.World) :
  SubmissionAction.config submissionAction
  = SubmissionAction.EditRow entryId primaryKeyField ->
  Runner.allEntriesOf responseData !! entryId = Some entryTarget ->
  Entry.responseType entryTarget <> Entry.AIRTABLE
  \/ JS.truthy
       (getResponseValue responseData (Entry.responseKey entryTarget)
          primaryKeyField) = false ->
  Runner.handleSubmissionAction getResponseValue clock sinkResult
    raiseHTTPErrorToast interviewId responseData
    (Runner.allEntriesOf responseData) submissionAction w
  = (tt, w).
Proof.
  intros Hconfig Htarget Hnone.
  unfold Runner.handleSubmissionAction. rewrite Hconfig, Htarget.
  destruct (Entry.responseType entryTarget) eqn:Htype; simpl; [|done].
  destruct Hnone as [Hother|Hfalsy]; [done|].
  destruct (getResponseValue responseData (Entry.responseKey entryTarget)
              primaryKeyField) as [recordId|]; [|done].
  simpl in Hfalsy. apply negb_false_iff in Hfalsy. by rewrite Hfalsy.
Qed.

End Completion.

Lemma unanswered_edit_row_is_skipped_witness :
  sampleHandle editAbsent Runner.initialWorld = (tt, Runner.initialWorld)
  /\ sampleComplete [insertGuest; editAbsent; editPerson] Runner.initialWorld
     = sampleComplete [insertGuest; editPerson] Runner.initialWorld.
Proof.
  assert (Vocabulary.unanswered sampleResponses "entry-absent") as Hunanswered.
  { intros key datum Hin. apply list_elem_of_In in Hin.
    destruct Hin as [[= <- <-]|[[= <- <-]|[]]]; discriminate. }
  destruct (unanswered_edit_row_is_skipped Script.getResponseValue sampleClock
              "interview-1" sampleResponses sampleSinkResult sampleToast
              editAbsent "entry-absent" (Some "id") eq_refl Hunanswered)
    as [Hhandler Hrun].
  split; [apply Hhandler|].
  exact (Hrun string unit
           (sampleInterview [] [insertGuest; editAbsent; editPerson])
           (sampleInterview [] [insertGuest; editPerson])
           [insertGuest] [editPerson] Runner.initialWorld eq_refl eq_refl).
Defined.

(** ** Failures of the sink *)

Section SinkFailures.

Import Vocabulary.

Context {Response HTTPError : Type}.
Variable getResponseValue :
  ResponseData.T Response -> string -> option string -> option string.
Variable clock : nat -> Z.
Variable interviewId : string.
Variable responseData : ResponseData.T Response.
Variable allEntries : gmap string Entry.T.

(** Whatever the sink answers, a handler reads the clock as often and
    issues the same calls. *)
Lemma handle_sameDispatch
  (sinkResult1 sinkResult2 : nat -> Runner.SinkCall -> option HTTPError)
  (raise1 raise2 : HTTPError -> Runner.Notice)
  (submissionAction : SubmissionAction.T) (w1 w2 : Runner.World) :
  sameDispatch w1 w2 ->
  sameDispatch
    (snd (Runner.handleSubmissionAction getResponseValue clock sinkResult1
            raise1 interviewId responseData allEntries submissionAction w1))
    (snd (Runner.handleSubmissionAction getResponseValue clock sinkResult2
            raise2 interviewId responseData allEntries submissionAction w2)).
Proof.
  intros [Hreads Hcalls].
  destruct (handle_cases getResponseValue clock interviewId responseData
              allEntries sinkResult1 sinkResult2 raise1 raise2
              submissionAction w1 w2 Hreads)
    as [[-> ->]|(call & _ & -> & ->)]; [by split|].
  unfold sameDispatch.
  destruct (mutate_effect sinkResult1 raise1 call
              (snd (Runner.collectFields getResponseValue clock responseData
                      allEntries ∅
                      (SubmissionAction.fieldMappings submissionAction) w1)))
    as (-> & -> & _).
  destruct (mutate_effect sinkResult2 raise2 call
              (snd (Runner.collectFields getResponseValue clock responseData
                      allEntries ∅
                      (SubmissionAction.fieldMappings submissionAction) w2)))
    as (-> & -> & _).
  destruct (collect_clock getResponseValue clock responseData allEntries ∅
              (SubmissionAction.fieldMappings submissionAction) w1 w2 Hreads)
    as [_ Hnext].
  split; [done|].
  rewrite (collect_frame _ _ _ _ _ _ w1), (collect_frame _ _ _ _ _ _ w2).
  simpl. by rewrite Hcalls.
Qed.

Lemma forEach_sameDispatch
  (sinkResult1 sinkResult2 : nat -> Runner.SinkCall -> option HTTPError)
  (raise1 raise2 : HTTPError -> Runner.Notice)
  (submissionActions : list SubmissionAction.T) (w1 w2 : Runner.World) :
  sameDispatch w1 w2 ->
  sameDispatch
    (snd (Runner.forEach
            (Runner.handleSubmissionAction getResponseValue clock sinkResult1
               raise1 interviewId responseData allEntries)
            submissionActions w1))
    (snd (Runner.forEach
            (Runner.handleSubmissionAction getResponseValue clock sinkResult2
               raise2 interviewId responseData allEntries)
            submissionActions w2)).
Proof.
  revert w1 w2.
  induction submissionActions as [|action rest IH]; intros w1 w2 Hsame;
    [done|].
  rewrite !forEach_cons. by apply IH, handle_sameDispatch.
Qed.

End SinkFailures.

(** C7. Two [INSERT_ROW] actions, and a sink that fails the first call
    it gets and no other. Both actions are dispatched, each with one
    call, and the first call fails. When the sink has answered, no
    toast was raised and no error was set: the failure of the first
    action is reported nowhere, because the hook of the two calls
    follows the second. *)
Theorem earlier_sink_failure_is_not_reported :
  Interview.submissionActions (sampleInterview [] [insertGuest; recordGuess])
  = [insertGuest; recordGuess]
  /\ Runner.sinkCalls
       (snd (sampleSettled [insertGuest; recordGuess] Runner.initialWorld))
     = [Runner.CreateRecord "appBase" "tblGuests" "interview-1"
          {["fldName" := "Ada"; "fldWhen" := "2023-11-14T22:13:20.000Z"]};
        Runner.CreateRecord "appBase" "tblGuesses" "interview-1"
          {["fldName" := "Ada"; "fldWhen" := "2023-11-14T22:13:21.000Z"]}]
  /\ Vocabulary.failuresOf sampleSinkResult 0
       (Runner.sinkCalls
          (snd (sampleSettled [insertGuest; recordGuess] Runner.initialWorld)))
     = ["502 Bad Gateway"]
  /\ Runner.toasts
       (snd (sampleSettled [insertGuest; recordGuess] Runner.initialWorld))
     = []
  /\ Runner.errorOnComplete
       (snd (sampleSettled [insertGuest; recordGuess] Runner.initialWorld))
     = None.
Proof. vm_compute. repeat split. Qed.

(** The failure of a call that is the last of its hook is reported:
    here the first call is the only [INSERT_ROW], and the second action
    is dispatched all the same. *)
Example last_failure_of_a_hook_is_reported :
  let w := snd (sampleSettled [insertGuest; editAbsent; editPerson]
                  Runner.initialWorld) in
  Runner.sinkCalls w
  = [Runner.CreateRecord "appBase" "tblGuests" "interview-1"
       {["fldName" := "Ada"; "fldWhen" := "2023-11-14T22:13:20.000Z"]};
     Runner.UpdateRecord "appBase" "tblPeople" "rec123" "interview-1"
       {["fldName" := "Ada"; "fldWhen" := "2023-11-14T22:13:21.000Z"]}]
  /\ Runner.toasts w = [sampleToast "502 Bad Gateway"]
  /\ Runner.errorOnComplete w = Some (sampleToast "502 Bad Gateway").
Proof. vm_compute. repeat split. Qed.

Lemma special_value_is_now_date_witness :
  Runner.resolveResponseValue Script.getResponseValue sampleClock
    sampleResponses (Runner.allEntriesOf sampleResponses) lookupNow
    Runner.initialWorld
  = ("2023-11-14T22:13:20.000Z", Vocabulary.withClock Runner.initialWorld 1).
Proof.
  exact (proj1 (proj2 (special_value_is_now_date Script.getResponseValue
                         sampleClock sampleResponses
                         (Runner.allEntriesOf sampleResponses) lookupNow
                         SubmissionAction.NOW_DATE Runner.initialWorld
                         eq_refl eq_refl))).
Defined.

(** ** The flow engine *)

Section Conditions.

Import Vocabulary.

Context {Operator : Type}.
Variable compare :
  Entry.ResponseType -> Operator -> Script.Response -> string -> bool.

Lemma answerOf_unanswered (acc : ResponseData.T Script.Response)
  (entryId : string) :
  Script.answerOf acc entryId = None <-> unanswered acc entryId.
Proof.
  unfold unanswered. induction acc as [|[key datum] rest IH]; simpl.
  - split; [|done]. intros _ k d Hin. inversion Hin.
  - destruct (String.eqb_spec (Entry.id (ResponseData.entry datum)) entryId)
      as [Heq|Hne].
    + split; [done|]. intros H. destruct (H key datum); [left | done].
    + rewrite IH. split.
      * intros H k d Hin. apply elem_of_cons in Hin as [[= -> ->]|Hin];
          [done | by eapply H].
      * intros H k d Hin. apply (H k d). by right.
Qed.

(** C5. A condition on an entry that has no recorded answer does not
    match, whatever the comparison of the operators and response types
    is. *)
Theorem unanswered_condition_never_matches
  (condition : @Script.ConditionalAction Operator)
  (acc : ResponseData.T Script.Response) :
  unanswered acc (Script.entryId condition) ->
  Script.matches compare condition acc = false.
Proof.
  intros Hunanswered. unfold Script.matches.
  by rewrite (proj2 (answerOf_unanswered acc _) Hunanswered).
Qed.

End Conditions.

Section Flow.

Import Vocabulary.

Context {Operator DateTime Setting : Type}.
Variable compare :
  Entry.ResponseType -> Operator -> Script.Response -> string -> bool.

Lemma find_no_match {A : Type} (f : A -> bool) (l : list A) :
  (forall x, x ∈ l -> f x = false) -> List.find f l = None.
Proof.
  induction l as [|x rest IH]; intros Hnone; [done|]. simpl.
  rewrite (Hnone x) by left. apply IH. intros y Hy. apply Hnone. by right.
Qed.

Lemma screenAfter_next (current : InterviewScreen.T)
  (before rest : list InterviewScreen.T) :
  NoDup (List.map InterviewScreen.id (before ++ current :: rest)) ->
  Script.screenAfter (InterviewScreen.id current) (before ++ current :: rest)
  = List.head rest.
Proof.
  induction before as [|s before IH]; intros Hnodup.
  - simpl. by rewrite String.eqb_refl.
  - rewrite <- app_comm_cons in *. cbn [List.map] in Hnodup.
    apply NoDup_cons in Hnodup as [Hfresh Hnodup].
    cbn [Script.screenAfter].
    destruct (String.eqb_spec (InterviewScreen.id s) (InterviewScreen.id current))
      as [Heq|Hne]; [|by apply IH].
    destruct Hfresh. rewrite Heq. apply list_elem_of_In, in_map_iff.
    exists current. split; [done|]. apply in_elt.
Qed.

(** C6. When none of the conditional actions of a screen matches, the
    flow goes to the screen that comes right after it in the order the
    screens were supplied, and to TERMINAL when the screen is the last
    one. The screens carry pairwise different ids. *)
Theorem next_falls_back_to_sequence
  (cfg : @Script.Config Operator DateTime Setting)
  (current : InterviewScreen.T) (acc : ResponseData.T Script.Response) :
  NoDup (List.map InterviewScreen.id (Interview.screens (Script.interview cfg))) ->
  (forall rule,
     rule ∈ Script.actionsOf cfg current ->
     Script.matches compare rule acc = false) ->
  (forall before following after,
     Interview.screens (Script.interview cfg)
     = (before ++ current :: following :: after)%list ->
     Script.next compare cfg current acc
     = Script.AtScreen (InterviewScreen.id following))
  /\ (forall before,
        Interview.screens (Script.interview cfg) = (before ++ [current])%list ->
        Script.next compare cfg current acc = Script.TERMINAL).
Proof.
  intros Hnodup Hnone. unfold Script.next.
  rewrite (find_no_match _ _ Hnone). split.
  - intros before following after Hscreens. rewrite Hscreens in *.
    by rewrite screenAfter_next.
  - intros before Hscreens. rewrite Hscreens in *.
    by rewrite screenAfter_next.
Qed.

End Flow.

Section Construction.

Import Vocabulary.

Context {Operator DateTime Setting : Type}.

Lemma member_elem (x : string) (l : list string) :
  Script.member x l = true <-> x ∈ l.
Proof.
  unfold Script.member. rewrite existsb_exists, list_elem_of_In. split.
  - intros (y & Hin & Heq). apply String.eqb_eq in Heq. by subst.
  - intros Hin. exists x. split; [done | apply String.eqb_refl].
Qed.

Lemma firstUnknown_found (known ids : list string) (x : string) :
  x ∈ ids -> x ∉ known ->
  exists unknown,
    Script.firstUnknown known ids = Some unknown /\ unknown ∉ known.
Proof.
  intros Hin Hunknown. unfold Script.firstUnknown.
  destruct (List.find (fun y => negb (Script.member y known)) ids)
    as [unknown|] eqn:Hfind.
  - exists unknown. split; [done|].
    apply find_some in Hfind as [_ Hneg].
    apply negb_true_iff in Hneg. rewrite <- member_elem. by rewrite Hneg.
  - apply list_elem_of_In in Hin.
    pose proof (find_none _ _ Hfind x Hin) as Hneg. simpl in Hneg.
    apply negb_false_iff, member_elem in Hneg. done.
Qed.

Lemma allActionsOf_elem (cfg : @Script.Config Operator DateTime Setting)
  (rule : @Script.ConditionalAction Operator) :
  rule ∈ Script.allActionsOf cfg
  <-> exists screenId rules,
        Script.actions cfg !! screenId = Some rules /\ rule ∈ rules.
Proof.
  unfold Script.allActionsOf. rewrite list_elem_of_In, in_concat. split.
  - intros (rules & Hrules & Hin). apply in_map_iff in Hrules
      as ([screenId rules'] & <- & Hpair).
    apply list_elem_of_In, elem_of_map_to_list in Hpair.
    exists screenId, rules'. split; [done | by apply list_elem_of_In].
  - intros (screenId & rules & Hlookup & Hin). exists rules. split.
    + apply in_map_iff. exists (screenId, rules). split; [done|].
      by apply list_elem_of_In, elem_of_map_to_list.
    + by apply list_elem_of_In.
Qed.

Lemma entryRefsOf_elem (submissionAction : SubmissionAction.T)
  (entryId : string) :
  refersTo submissionAction entryId ->
  entryId ∈ Script.entryRefsOf submissionAction.
Proof.
  unfold refersTo, Script.entryRefsOf.
  intros [(primaryKeyField & ->)|(fieldId & lookup & Hin & Hentry & Hne)].
  - apply elem_of_app. left. left.
  - apply elem_of_app. right. apply list_elem_of_In, in_flat_map.
    exists (fieldId, lookup). split; [by apply list_elem_of_In|].
    simpl. rewrite Hentry.
    destruct (String.eqb_spec entryId ""); [done | by left].
Qed.

(** C3. A configuration in which a conditional action or a submission
    action refers to an entry that is not among the entries of the
    supplied screens is rejected when the engine is constructed: the
    construction returns a configuration error that names an entry id
    unknown to the screens, and so does the start of a run, which
    therefore presents no screen. *)
Theorem dangling_entry_fails_construction
  (cfg : @Script.Config Operator DateTime Setting) (entryId : string) :
  danglingEntry cfg entryId ->
  exists unknown,
    (unknown ∉ Script.entryIdsOf cfg)
    /\ Script.construct cfg = inl (Script.UnknownEntry unknown)
    /\ Script.start cfg = inl (Script.UnknownEntry unknown).
Proof.
  intros [Hunknown Hrefs].
  assert (entryId
            ∈ (List.map Script.entryId (Script.allActionsOf cfg)
               ++ flat_map Script.entryRefsOf
                    (Interview.submissionActions (Script.interview cfg)))%list)
    as Hin.
  { apply elem_of_app.
    destruct Hrefs as [(screenId & rules & rule & Hlookup & Hrule & <-)
                      |(submissionAction & Haction & Href)].
    - left. apply list_elem_of_In, in_map. apply list_elem_of_In.
      apply allActionsOf_elem. by exists screenId, rules.
    - right. apply list_elem_of_In, in_flat_map. exists submissionAction.
      split; apply list_elem_of_In; [done | by apply entryRefsOf_elem]. }
  destruct (firstUnknown_found _ _ _ Hin Hunknown) as (unknown & Hfirst & Hnot).
  exists unknown. split; [done|].
  unfold Script.start, Script.construct, Script.validate.
  by rewrite Hfirst.
Qed.

End Construction.

(** Before the guess is given, the rule on it does not match, even with
    a comparison that holds for every answer. *)
Lemma unanswered_condition_never_matches_witness :
  Script.matches alwaysTrue guessRule
    (Script.record [] nameEntry (Script.Simple "Ada"))
  = false.
Proof.
  apply (unanswered_condition_never_matches alwaysTrue guessRule
           (Script.record [] nameEntry (Script.Simple "Ada"))).
  intros key datum Hin. apply list_elem_of_singleton in Hin.
  injection Hin as -> ->. discriminate.
Defined.

(** The guessing game with the secret 3: the guess 7 is followed by
    [INCORRECT_GUESS], the next screen in sequence, and the guess 3 by
    [CORRECT_ENDING]; the last screen is followed by TERMINAL. *)
Example guessing_game_routes :
  Script.next sampleCompare (gameConfig []) guessScreen (answersWithGuess "7")
  = Script.AtScreen "INCORRECT_GUESS"
  /\ Script.next sampleCompare (gameConfig []) guessScreen (answersWithGuess "3")
     = Script.AtScreen "CORRECT_ENDING"
  /\ Script.next sampleCompare (gameConfig []) endingScreen (answersWithGuess "3")
     = Script.TERMINAL.
Proof. vm_compute. repeat split. Qed.

Lemma next_falls_back_to_sequence_witness :
  Script.next sampleCompare (gameConfig []) guessScreen (answersWithGuess "7")
  = Script.AtScreen (InterviewScreen.id incorrectScreen).
Proof.
  refine (proj1 (next_falls_back_to_sequence sampleCompare (gameConfig [])
                   guessScreen (answersWithGuess "7") _ _)
            [nameScreen] incorrectScreen [endingScreen] eq_refl).
  - apply NoDup_ListNoDup. vm_compute.
    repeat constructor; vm_compute; intuition discriminate.
  - intros rule Hin.
    change (rule ∈ [guessRule]) in Hin.
    apply list_elem_of_singleton in Hin as ->. reflexivity.
Defined.

(** The guessing game starts at [NAME]. *)
Example guessing_game_starts :
  Script.start (gameConfig [recordGuess])
  = inr {| Script.config := gameConfig [recordGuess];
           Script.state := Script.AtScreen "NAME";
           Script.accumulator := [];
           Script.asked := ["NAME"] |}.
Proof. vm_compute. reflexivity. Qed.

(** With an [EDIT_ROW] on an entry no screen has, it does not start. *)
Lemma dangling_entry_fails_construction_witness :
  exists unknown,
    (unknown ∉ Script.entryIdsOf (gameConfig [insertGuest; editAbsent]))
    /\ Script.construct (gameConfig [insertGuest; editAbsent])
       = inl (Script.UnknownEntry unknown)
    /\ Script.start (gameConfig [insertGuest; editAbsent])
       = inl (Script.UnknownEntry unknown).
Proof.
  apply (dangling_entry_fails_construction (gameConfig [insertGuest; editAbsent])
           "entry-absent").
  split.
  - intros Hin. apply list_elem_of_In in Hin. vm_compute in Hin.
    intuition discriminate.
  - right. exists editAbsent. split; [right; left|].
    left. by exists (Some "id").
Defined.

(** * Further properties *)

(** ** The language string through [deserialize] and [serialize] *)

Section LanguageStrings.

Lemma splitFrom_not_empty (s : string) : JS.splitFrom ";" O s <> [].
Proof.
  induction s as [|c rest IH]; [done|]. rewrite splitFrom_cons.
  destruct (Ascii.eqb c ";"); [done|].
  by destruct (JS.splitFrom ";" O rest).
Qed.

Lemma join_cons_char (c : ascii) (piece : string) (pieces : list string) :
  JS.join ";" (String c piece :: pieces) = String c (JS.join ";" (piece :: pieces)).
Proof. by destruct pieces. Qed.

Lemma join_splitFrom (s : string) : JS.join ";" (JS.splitFrom ";" O s) = s.
Proof.
  induction s as [|c rest IH]; [done|]. rewrite splitFrom_cons.
  destruct (Ascii.eqb_spec c ";") as [->|Hne].
  - pose proof (splitFrom_not_empty rest) as Hpieces.
    destruct (JS.splitFrom ";" O rest) as [|piece pieces]; [done|].
    change (JS.join ";" ("" :: piece :: pieces))
      with ("" ++ ";" ++ JS.join ";" (piece :: pieces)).
    by rewrite IH.
  - pose proof (splitFrom_not_empty rest) as Hpieces.
    destruct (JS.splitFrom ";" O rest) as [|piece pieces]; [done|].
    by rewrite join_cons_char, IH.
Qed.

Lemma splitFrom_clean (s piece : string) :
  piece ∈ JS.splitFrom ";" O s -> JS.contains ";" piece = false.
Proof.
  revert piece. induction s as [|c rest IH]; intros piece Hin.
  - apply list_elem_of_singleton in Hin as ->. done.
  - rewrite splitFrom_cons in Hin.
    destruct (Ascii.eqb c ";") eqn:Hc.
    + apply elem_of_cons in Hin as [->|Hin]; [done | by apply IH].
    + pose proof (splitFrom_not_empty rest) as Hpieces.
      destruct (JS.splitFrom ";" O rest) as [|first pieces]; [done|].
      apply elem_of_cons in Hin as [->|Hin].
      * simpl. rewrite Hc. apply IH. left.
      * apply IH. by right.
Qed.

Context {DateTime RawScreen : Type}.
Context {Action ActionCreate RawAction RawActionOut : Type}.
Context {Setting SettingCreate RawSetting RawSettingOut : Type}.
Variable fromISO : string -> DateTime.
Variable toISO : DateTime -> string.
Variable deserializeScreen : RawScreen -> InterviewScreen.T.
Variable deserializeAction : RawAction -> Action.
Variable serializeAction : Action -> RawActionOut.
Variable serializeActionCreate : ActionCreate -> RawActionOut.
Variable deserializeSetting : RawSetting -> Setting.
Variable serializeSetting : Setting -> RawSettingOut.
Variable serializeSettingCreate : SettingCreate -> RawSettingOut.

(** X1. Whatever string of languages a raw object holds, the interview
    deserialised from it serialises back to that very string. *)
Theorem language_string_survives
  (rawObj : @Interview.SerializedRead RawScreen RawAction RawSetting)
  (settings : list (Setting + SettingCreate))
  (actions : list (Action + ActionCreate)) :
  Interview.serializedLanguagesOf
    (Interview.serialize toISO serializeAction serializeActionCreate
       serializeSetting serializeSettingCreate
       (inl (Interview.mkUpdateT
               (Interview.interviewOf
                  (Interview.deserialize fromISO deserializeScreen
                     deserializeAction deserializeSetting rawObj))
               settings actions)))
  = Interview.r_allowedLanguages rawObj.
Proof.
  unfold Interview.deserialize.
  destruct (Interview.r_screens rawObj); simpl; apply join_splitFrom.
Qed.

(** X2. A deserialised interview always has at least one allowed
    language, and none of its languages holds the delimiter. *)
Theorem deserialized_languages_shape
  (rawObj : @Interview.SerializedRead RawScreen RawAction RawSetting) :
  Interview.allowedLanguages
    (Interview.interviewOf
       (Interview.deserialize fromISO deserializeScreen deserializeAction
          deserializeSetting rawObj)) <> []
  /\ (forall language,
        language
          ∈ Interview.allowedLanguages
              (Interview.interviewOf
                 (Interview.deserialize fromISO deserializeScreen
                    deserializeAction deserializeSetting rawObj)) ->
        JS.contains ";" language = false).
Proof.
  unfold Interview.deserialize.
  destruct (Interview.r_screens rawObj); simpl; split;
    first [apply splitFrom_not_empty | intros language; apply splitFrom_clean].
Qed.

End LanguageStrings.

(** X3. A list of languages comes back from joining and splitting
    exactly when it is not empty and none of its elements holds the
    delimiter. *)
Theorem languages_round_trip_iff (languages : list string) :
  JS.split Interview.LANGUAGE_DELIMITER
    (JS.join Interview.LANGUAGE_DELIMITER languages) = languages
  <-> languages <> []
      /\ (forall language,
            language ∈ languages -> JS.contains ";" language = false).
Proof.
  split.
  - intros Hback. split.
    + intros ->. discriminate.
    + intros language Hin. rewrite <- Hback in Hin.
      by apply splitFrom_clean in Hin.
  - intros [Hne Hclean]. by apply split_join.
Qed.

Section UpdateRoundTrip.

Import Notions.

Context {DateTime RawScreen : Type}.
Context {Action ActionCreate RawAction RawActionOut : Type}.
Context {Setting SettingCreate RawSetting RawSettingOut : Type}.
Variable fromISO : string -> DateTime.
Variable toISO : DateTime -> string.
Variable deserializeScreen : RawScreen -> InterviewScreen.T.
Variable deserializeAction : RawAction -> Action.
Variable serializeAction : Action -> RawActionOut.
Variable serializeActionCreate : ActionCreate -> RawActionOut.
Variable deserializeSetting : RawSetting -> Setting.
Variable serializeSetting : Setting -> RawSettingOut.
Variable serializeSettingCreate : SettingCreate -> RawSettingOut.

(** X4. An interview under update comes back whole from the backend:
    when the raw object read back carries the scalar fields of the
    serialised update, the date survives its ISO form, and the list of
    languages is not empty and free of the delimiter, the deserialised
    interview is the interview that was serialised. *)
Theorem update_round_trip
  (upd : @Interview.UpdateT DateTime Action ActionCreate Setting SettingCreate)
  (su : @Interview.SerializedUpdate RawActionOut RawSettingOut)
  (rawObj : @Interview.SerializedRead RawScreen RawAction RawSetting) :
  Interview.serialize toISO serializeAction serializeActionCreate
    serializeSetting serializeSettingCreate (inl upd) = inl su ->
  storedAs su rawObj ->
  fromISO (toISO (Interview.createdDate (Interview.u_interview upd)))
  = Interview.createdDate (Interview.u_interview upd) ->
  Interview.allowedLanguages (Interview.u_interview upd) <> [] ->
  (forall language,
     language ∈ Interview.allowedLanguages (Interview.u_interview upd) ->
     JS.contains ";" language = false) ->
  Interview.interviewOf
    (Interview.deserialize fromISO deserializeScreen deserializeAction
       deserializeSetting rawObj)
  = Interview.u_interview upd.
Proof.
  intros Hserialized Hstored Hdate Hne Hclean.
  injection Hserialized as <-.
  destruct Hstored as (Hlang & Hcreated & Hdefault & Hdescr & Hid & Hname
                       & Hnotes & Howner & Hpublished & Hvanity).
  simpl in *.
  assert (Interview.interviewOf
            (Interview.deserialize fromISO deserializeScreen deserializeAction
               deserializeSetting rawObj)
          = Interview.deserializeInterview fromISO rawObj) as ->.
  { unfold Interview.deserialize. by destruct (Interview.r_screens rawObj). }
  unfold Interview.deserializeInterview.
  rewrite Hlang, Hcreated, Hdefault, Hdescr, Hid, Hname, Hnotes, Howner,
    Hpublished, Hvanity, Hdate, (split_join _ Hne Hclean).
  by destruct (Interview.u_interview upd).
Qed.

End UpdateRoundTrip.

(** ** The order of the starting screens *)

Section SortOrder.

Context {A : Type}.
Variable key : A -> Z.

Let descending (x y : A) : Z := key y - key x.
Let notBelow (x y : A) : Prop := key y <= key x.

Lemma insertBy_sorted (x : A) (sorted : list A) :
  StronglySorted notBelow sorted ->
  StronglySorted notBelow (JS.insertBy descending x sorted).
Proof.
  induction 1 as [|y rest Hrest IH Hall]; simpl.
  - repeat constructor.
  - unfold descending at 1. destruct (Z.leb_spec (key y - key x) 0) as [Hle|Hgt].
    + constructor; [by constructor|]. constructor; [unfold notBelow; lia|].
      eapply Forall_impl; [exact Hall|]. unfold notBelow. intros z Hz. lia.
    + constructor; [done|].
      apply (Permutation_Forall (Permutation_sym (insertBy_perm key x rest))).
      constructor; [unfold notBelow; lia | done].
Qed.

Lemma sort_sorted (l : list A) : StronglySorted notBelow (JS.sort descending l).
Proof.
  induction l as [|x rest IH]; simpl; [constructor | by apply insertBy_sorted].
Qed.

Lemma insertBy_filter (k : Z) (x : A) (sorted : list A) :
  List.filter (fun a => key a =? k) (JS.insertBy descending x sorted)
  = List.filter (fun a => key a =? k) (x :: sorted).
Proof.
  induction sorted as [|y rest IH]; [done|]. cbn [JS.insertBy].
  unfold descending at 1. destruct (Z.leb_spec (key y - key x) 0) as [Hle|Hgt];
    [done|].
  cbn [List.filter] in *. rewrite IH.
  destruct (Z.eqb_spec (key x) k), (Z.eqb_spec (key y) k); first [done | lia].
Qed.

(** The sort is stable: the elements of one key keep their order. *)
Lemma sort_stable (k : Z) (l : list A) :
  List.filter (fun a => key a =? k) (JS.sort descending l)
  = List.filter (fun a => key a =? k) l.
Proof.
  induction l as [|x rest IH]; [done|]. cbn [JS.sort].
  rewrite insertBy_filter. cbn [List.filter]. by rewrite IH.
Qed.

End SortOrder.

Section StartingOrder.

Import Vocabulary.

Context {DateTime Action Setting : Type}.

(** X5. The starting screens are the screens that are in starting state
    and have an order, each as often as it was supplied, sorted so that
    no screen comes before a screen of higher order. *)
Theorem getStartingScreens_sorted
  (interview : @Interview.WithScreensAndActions DateTime Action Setting) :
  Permutation (Interview.getStartingScreens interview)
    (List.filter
       (fun screen =>
          InterviewScreen.isInStartingState screen
          && bool_decide (InterviewScreen.startingStateOrder screen <> None))
       (Interview.screens interview))
  /\ StronglySorted (fun earlier later => orderOf later <= orderOf earlier)
       (Interview.getStartingScreens interview).
Proof.
  split.
  - apply (sort_perm orderOf).
  - apply (sort_sorted orderOf).
Qed.

(** X6. Starting screens of the same order come in the order in which
    they were supplied. *)
Theorem getStartingScreens_stable
  (interview : @Interview.WithScreensAndActions DateTime Action Setting)
  (order : Z) :
  List.filter (fun screen => orderOf screen =? order)
    (Interview.getStartingScreens interview)
  = List.filter
      (fun screen =>
         (orderOf screen =? order)
         && (InterviewScreen.isInStartingState screen
             && bool_decide (InterviewScreen.startingStateOrder screen <> None)))
      (Interview.screens interview).
Proof.
  unfold Interview.getStartingScreens.
  rewrite (sort_stable orderOf).
  induction (Interview.screens interview) as [|s rest IH]; [done|].
  cbn [List.filter].
  destruct (InterviewScreen.isInStartingState s
            && bool_decide (InterviewScreen.startingStateOrder s <> None));
    cbn [List.filter]; rewrite ?andb_true_r, ?andb_false_r;
    [destruct (orderOf s =? order)|]; by rewrite IH.
Qed.

End StartingOrder.

(** ** The URLs of an interview *)

Section Urls.

Lemma append_empty_r (s : string) : s ++ "" = s.
Proof. induction s as [|c rest IH]; [done|]. by rewrite append_cons, IH. Qed.

Lemma append_assoc (s t u : string) : (s ++ t) ++ u = s ++ (t ++ u).
Proof. induction s as [|c rest IH]; [done|]. by rewrite !append_cons, IH. Qed.

Lemma append_inj_l (prefix s t : string) : prefix ++ s = prefix ++ t -> s = t.
Proof.
  induction prefix as [|c rest IH]; [done|]. rewrite !append_cons.
  intros [= H]. by apply IH.
Qed.

Lemma append_last_inj (s t : string) (c d : ascii) :
  s ++ String c "" = t ++ String d "" -> s = t /\ c = d.
Proof.
  revert t. induction s as [|a s IH]; intros [|b t]; rewrite ?append_cons.
  - by intros [= ->].
  - intros [= -> H]. by destruct t.
  - intros [= -> H]. by destruct s.
  - intros [= -> H]. destruct (IH t H) as [-> ->]. done.
Qed.

Lemma append_inj_r (suffix s t : string) : s ++ suffix = t ++ suffix -> s = t.
Proof.
  revert s t. induction suffix as [|c rest IH]; intros s t.
  - by rewrite !append_empty_r.
  - change (String c rest) with (String c "" ++ rest).
    rewrite <- !append_assoc. intros H. apply IH in H.
    by apply append_last_inj in H as [-> _].
Qed.

Context {DateTime : Type}.

(** X7. The URLs tell interviews apart: two interviews with the same
    run URL, or with the same configure URL, have the same id; the
    configure URL of an interview is that of its id; and a run URL is
    never a configure URL. *)
Theorem interview_urls_distinct (interview other : @Interview.T DateTime) :
  (InterviewPages.getRunUrl interview = InterviewPages.getRunUrl other ->
   Interview.id interview = Interview.id other)
  /\ (InterviewPages.getConfigurePageURL (inl interview)
      = InterviewPages.getConfigurePageURL (inl other) ->
      Interview.id interview = Interview.id other)
  /\ InterviewPages.getConfigurePageURL (inl interview)
     = InterviewPages.getConfigurePageURL
         (inr (Interview.id interview) : @Interview.T DateTime + string)
  /\ InterviewPages.getRunUrl interview
     <> InterviewPages.getConfigurePageURL (inl other).
Proof.
  unfold InterviewPages.getRunUrl, InterviewPages.getConfigurePageURL.
  repeat split.
  - intros H. apply append_inj_l in H. by apply append_inj_r in H.
  - intros H. apply append_inj_l in H. by apply append_inj_r in H.
  - intros H. apply append_inj_l in H.
    change "/run" with ("/ru" ++ String "n" "") in H.
    change "/configure" with ("/configur" ++ String "e" "") in H.
    rewrite <- !append_assoc in H.
    by apply append_last_inj in H as [_ [=]].
Qed.

End Urls.

(** ** Entries with pairwise different ids *)

(** X8. In a list of entries with pairwise different ids, every entry is
    found by its own id. *)
Theorem getEntryById_finds_each
  (entries : list InterviewScreenEntry.T) (entry : InterviewScreenEntry.T) :
  NoDup (List.map InterviewScreenEntry.id entries) ->
  entry ∈ entries ->
  InterviewScreenEntry.getEntryById (InterviewScreenEntry.id entry)
    (Some entries)
  = Some entry.
Proof.
  intros Hnodup Hin. simpl. apply findEntry_some.
  apply list_elem_of_split in Hin as (before & after & ->).
  exists before, after. repeat split.
  intros e' He' Hsame.
  rewrite map_app in Hnodup. apply NoDup_app in Hnodup as (_ & Hdisjoint & _).
  apply (Hdisjoint (InterviewScreenEntry.id e')).
  - apply list_elem_of_In, in_map. by apply list_elem_of_In.
  - rewrite Hsame. left.
Qed.

Lemma getEntryById_finds_each_witness :
  InterviewScreenEntry.getEntryById "e2"
    (Some [sampleEntry "e1" "r1"; sampleEntry "e2" "r2"])
  = Some (sampleEntry "e2" "r2").
Proof.
  apply (getEntryById_finds_each
           [sampleEntry "e1" "r1"; sampleEntry "e2" "r2"]
           (sampleEntry "e2" "r2")).
  - apply NoDup_ListNoDup. vm_compute.
    repeat constructor; vm_compute; intuition discriminate.
  - right. left.
Defined.

(** ** What the handler of a submission action dispatches *)

Section Handler.

Import Vocabulary Notions.

Context {Response HTTPError : Type}.
Variable getResponseValue :
  ResponseData.T Response -> string -> option string -> option string.
Variable clock : nat -> Z.
Variable sinkResult : nat -> Runner.SinkCall -> option HTTPError.
Variable raiseHTTPErrorToast : HTTPError -> Runner.Notice.
Variable interviewId : string.
Variable responseData : ResponseData.T Response.
Variable allEntries : gmap string Entry.T.

Let resolve := Runner.resolveResponseValue getResponseValue clock responseData allEntries.
Let collect := Runner.collectFields getResponseValue clock responseData allEntries.
Let resolved := resolutions getResponseValue clock responseData allEntries.
Let handle :=
  Runner.handleSubmissionAction getResponseValue clock sinkResult
    raiseHTTPErrorToast interviewId responseData allEntries.

(** A special value takes one reading of the clock and is that reading;
    any other mapping leaves the clock alone. *)
Lemma resolve_reads (config : SubmissionAction.EntryResponseLookupConfig)
  (w : Runner.World) :
  Runner.clockReads (snd (resolve config w))
  = (Runner.clockReads w + (if isSpecial config then 1 else 0))%nat
  /\ (isSpecial config = true ->
      fst (resolve config w) = JSDate.toISOString (clock (Runner.clockReads w))).
Proof.
  unfold resolve, Runner.resolveResponseValue, isSpecial, JS.truthy.
  destruct (SubmissionAction.entryId config) as [entryId|].
  - destruct (String.eqb entryId ""); simpl.
    + destruct (SubmissionAction.specialValueType config) as [[]|]; simpl;
        split; first [lia | done].
    + destruct (allEntries !! entryId); simpl; split; first [lia | done].
  - simpl. destruct (SubmissionAction.specialValueType config) as [[]|]; simpl;
      split; first [lia | done].
Qed.

Lemma collect_reads (fields : gmap string string)
  (fieldMappings : list (string * SubmissionAction.EntryResponseLookupConfig))
  (w : Runner.World) :
  Runner.clockReads (snd (collect fields fieldMappings w))
  = (Runner.clockReads w + countSpecial fieldMappings)%nat.
Proof.
  revert fields w.
  induction fieldMappings as [|[fieldId config] rest IH]; intros fields w.
  - simpl. unfold countSpecial. simpl. lia.
  - unfold collect. rewrite collect_cons. fold collect. rewrite IH.
    destruct (resolve_reads config w) as [Hreads _].
    unfold resolve in Hreads. rewrite Hreads.
    unfold countSpecial. cbn [List.filter snd].
    destruct (isSpecial config); simpl; lia.
Qed.

Lemma resolved_app
  (before after : list (string * SubmissionAction.EntryResponseLookupConfig))
  (w : Runner.World) :
  resolved (before ++ after) w
  = (resolved before w ++ resolved after (snd (collect ∅ before w)))%list.
Proof.
  assert (forall fields,
            resolved (before ++ after) w
            = (resolved before w
               ++ resolved after (snd (collect fields before w)))%list) as H.
  { revert w. induction before as [|[fieldId config] rest IH]; intros w fields;
      [done|].
    rewrite <- app_comm_cons. unfold resolved, collect.
    rewrite !resolved_cons, collect_cons. fold resolved collect.
    by rewrite <- app_comm_cons, <- IH. }
  apply H.
Qed.

(** X9. An [INSERT_ROW] always dispatches: whatever was answered, its
    handler issues exactly one call, which creates a record in the base
    and the table of the action with the collected fields. *)
Theorem insert_row_always_creates
  (submissionAction : SubmissionAction.T) (baseTarget tableTarget : string)
  (w : Runner.World) :
  SubmissionAction.config submissionAction
  = SubmissionAction.InsertRow baseTarget tableTarget ->
  Runner.sinkCalls (snd (handle submissionAction w))
  = (Runner.sinkCalls w
     ++ [Runner.CreateRecord baseTarget tableTarget interviewId
           (fst (collect ∅ (SubmissionAction.fieldMappings submissionAction)
                   w))])%list.
Proof.
  intros Hconfig. unfold handle, Runner.handleSubmissionAction.
  rewrite Hconfig. unfold Runner.bind, Runner.airtableCreateRecord.
  fold collect.
  pose proof (collect_frame getResponseValue clock responseData allEntries ∅
                (SubmissionAction.fieldMappings submissionAction) w) as Hframe.
  fold collect in Hframe.
  destruct (collect ∅ (SubmissionAction.fieldMappings submissionAction) w)
    as [fields w'].
  destruct (mutate_effect sinkResult raiseHTTPErrorToast
              (Runner.CreateRecord baseTarget tableTarget interviewId fields) w')
    as (_ & -> & _).
  simpl in *. by rewrite Hframe.
Qed.

(** X10. An [EDIT_ROW] whose target entry is answered, is backed by
    Airtable, and holds a record id under the primary key field,
    dispatches exactly one call: the update of that record in the base
    and the table selected for the target entry. *)
Theorem edit_row_updates_the_record
  (submissionAction : SubmissionAction.T) (entryId recordId : string)
  (primaryKeyField : option string) (entryTarget : Entry.T)
  (w : Runner.World) :
  SubmissionAction.config submissionAction
  = SubmissionAction.EditRow entryId primaryKeyField ->
  allEntries !! entryId = Some entryTarget ->
  Entry.responseType entryTarget = Entry.AIRTABLE ->
  getResponseValue responseData (Entry.responseKey entryTarget) primaryKeyField
  = Some recordId ->
  recordId <> "" ->
  Runner.sinkCalls (snd (handle submissionAction w))
  = (Runner.sinkCalls w
     ++ [Runner.UpdateRecord
           (Entry.selectedBase (Entry.responseTypeOptions entryTarget))
           (Entry.selectedTable (Entry.responseTypeOptions entryTarget))
           recordId interviewId
           (fst (collect ∅ (SubmissionAction.fieldMappings submissionAction)
                   w))])%list.
Proof.
  intros Hconfig Htarget Htype Hrecord Hne.
  unfold handle, Runner.handleSubmissionAction.
  rewrite Hconfig, Htarget, Htype, Hrecord. simpl.
  apply String.eqb_neq in Hne. rewrite Hne.
  unfold Runner.bind, Runner.airtableUpdateRecord. fold collect.
  pose proof (collect_frame getResponseValue clock responseData allEntries ∅
                (SubmissionAction.fieldMappings submissionAction) w) as Hframe.
  fold collect in Hframe.
  destruct (collect ∅ (SubmissionAction.fieldMappings submissionAction) w)
    as [fields w'].
  destruct (mutate_effect sinkResult raiseHTTPErrorToast
              (Runner.UpdateRecord
                 (Entry.selectedBase (Entry.responseTypeOptions entryTarget))
                 (Entry.selectedTable (Entry.responseTypeOptions entryTarget))
                 recordId interviewId fields) w')
    as (_ & -> & _).
  simpl in *. by rewrite Hframe.
Qed.

(** X11. A special value is always sent: in the payload of the call an
    action dispatches, a field other than [__proto__] whose mapping
    names no entry and sets a special value type holds the ISO form of
    a clock reading, the reading that follows those taken for the
    special values mapped before it. *)
Theorem special_value_is_always_sent
  (submissionAction : SubmissionAction.T) (w : Runner.World)
  (newCalls : list Runner.SinkCall) (call : Runner.SinkCall)
  (before after : list (string * SubmissionAction.EntryResponseLookupConfig))
  (fieldId : string) (config : SubmissionAction.EntryResponseLookupConfig) :
  NoDup (List.map fst (SubmissionAction.fieldMappings submissionAction)) ->
  SubmissionAction.fieldMappings submissionAction
  = (before ++ (fieldId, config) :: after)%list ->
  isSpecial config = true ->
  fieldId <> "__proto__" ->
  Runner.sinkCalls (snd (handle submissionAction w))
  = (Runner.sinkCalls w ++ newCalls)%list ->
  call ∈ newCalls ->
  fieldsOf call !! fieldId
  = Some (JSDate.toISOString
            (clock (Runner.clockReads w + countSpecial before)%nat)).
Proof.
  intros Hnodup Hmappings Hspecial Hplain Hcalls Hcall.
  destruct (handle_payload getResponseValue clock sinkResult raiseHTTPErrorToast
              interviewId responseData allEntries submissionAction w newCalls
              Hcalls) as [->|(call' & -> & Hfields)]; [inversion Hcall|].
  apply list_elem_of_singleton in Hcall as ->. rewrite Hfields.
  apply (collect_lookup getResponseValue clock responseData allEntries ∅
           _ w fieldId _ Hnodup).
  left. split; [done|]. split; [|apply toISOString_not_empty].
  rewrite Hmappings. fold resolved. rewrite resolved_app.
  apply elem_of_app. right. unfold resolved. rewrite resolved_cons.
  fold resolve collect.
  destruct (resolve_reads config (snd (collect ∅ before w))) as [_ Hvalue].
  rewrite (Hvalue Hspecial), collect_reads. left.
Qed.

(** X12. The handler reads the clock only for a call it dispatches: when
    it issues no call the clock is not read, and when it issues its call
    the clock was read once for each special value among the field
    mappings. *)
Theorem handler_clock_readings
  (submissionAction : SubmissionAction.T) (w : Runner.World) :
  (Runner.sinkCalls (snd (handle submissionAction w)) = Runner.sinkCalls w
   /\ Runner.clockReads (snd (handle submissionAction w)) = Runner.clockReads w)
  \/ (exists call,
        Runner.sinkCalls (snd (handle submissionAction w))
        = (Runner.sinkCalls w ++ [call])%list
        /\ Runner.clockReads (snd (handle submissionAction w))
           = (Runner.clockReads w
              + countSpecial
                  (SubmissionAction.fieldMappings submissionAction))%nat).
Proof.
  destruct (handle_cases getResponseValue clock interviewId responseData
              allEntries sinkResult sinkResult raiseHTTPErrorToast
              raiseHTTPErrorToast submissionAction w w eq_refl)
    as [[Hskip _]|(call & _ & Hcall & _)]; unfold handle.
  - left. by rewrite Hskip.
  - right. exists call. rewrite Hcall.
    destruct (mutate_effect sinkResult raiseHTTPErrorToast call
                (snd (Runner.collectFields getResponseValue clock responseData
                        allEntries ∅
                        (SubmissionAction.fieldMappings submissionAction) w)))
      as (-> & -> & _).
    fold collect. rewrite collect_reads.
    unfold collect. by rewrite collect_frame.
Qed.

End Handler.

(** ** Indexing by id *)

Section IndexBy.

Context {A B : Type}.
Variable key : A -> string.
Variable value : A -> B.

Let index (l : list A) (map : gmap string B) : gmap string B :=
  fold_left (fun map a => <[key a := value a]> map) l map.

Lemma index_some (l : list A) (map : gmap string B) (k : string) (b : B) :
  index l map !! k = Some b ->
  (exists a, a ∈ l /\ key a = k /\ value a = b) \/ map !! k = Some b.
Proof.
  revert map. induction l as [|a rest IH]; intros map Hlookup; [by right|].
  cbn [index fold_left] in Hlookup. apply IH in Hlookup
    as [(a' & Hin & Hkey & Hvalue)|Hlookup].
  - left. exists a'. split; [by right | done].
  - destruct (decide (key a = k)) as [Heq|Hne].
    + rewrite Heq, lookup_insert_eq in Hlookup. injection Hlookup as <-.
      left. exists a. split; [left | done].
    + rewrite lookup_insert_ne in Hlookup by done. by right.
Qed.

Lemma index_keeps (l : list A) (map : gmap string B) (k : string) :
  (forall a, a ∈ l -> key a <> k) -> index l map !! k = map !! k.
Proof.
  revert map. induction l as [|a rest IH]; intros map Hnone; [done|].
  cbn [index fold_left]. rewrite IH.
  - apply lookup_insert_ne, Hnone. left.
  - intros a' Hin. apply Hnone. by right.
Qed.

Lemma index_last (before after : list A) (a : A) (map : gmap string B) :
  (forall a', a' ∈ after -> key a' <> key a) ->
  index (before ++ a :: after) map !! key a = Some (value a).
Proof.
  intros Hafter. unfold index. rewrite fold_left_app. cbn [fold_left].
  fold (index after). rewrite index_keeps by done. apply lookup_insert_eq.
Qed.

Lemma index_stays (l : list A) (map : gmap string B) (k : string) :
  is_Some (map !! k) -> is_Some (index l map !! k).
Proof.
  revert map. induction l as [|a rest IH]; intros map Hsome; [done|].
  cbn [index fold_left]. apply IH.
  destruct (decide (key a = k)) as [<-|Hne];
    [by rewrite lookup_insert_eq | by rewrite lookup_insert_ne].
Qed.

Lemma index_found (l : list A) (map : gmap string B) (a : A) :
  a ∈ l -> is_Some (index l map !! key a).
Proof.
  revert map. induction l as [|a' rest IH]; intros map Hin; [inversion Hin|].
  cbn [index fold_left]. apply elem_of_cons in Hin as [->|Hin].
  - apply index_stays. by rewrite lookup_insert_eq.
  - by apply IH.
Qed.

End IndexBy.

Section AnsweredEntries.

Import Vocabulary.

Context {Response : Type}.

(** X13. The entry [allEntries] holds under an id is an answered entry
    with that id, and it is the entry of the last answer recorded for
    that id: an answer after which the response data has no answer for
    the same entry id puts its entry into [allEntries]. *)
Theorem allEntriesOf_holds_last_answer
  (responseData : ResponseData.T Response) :
  (forall entryId entry,
     Runner.allEntriesOf responseData !! entryId = Some entry ->
     Entry.id entry = entryId
     /\ exists responseKey datum,
          (responseKey, datum) ∈ responseData
          /\ ResponseData.entry datum = entry)
  /\ (forall before after responseKey datum,
        responseData = (before ++ (responseKey, datum) :: after)%list ->
        unanswered after (Entry.id (ResponseData.entry datum)) ->
        Runner.allEntriesOf responseData
          !! Entry.id (ResponseData.entry datum)
        = Some (ResponseData.entry datum)).
Proof.
  unfold Runner.allEntriesOf. split.
  - intros entryId entry Hlookup.
    apply (index_some
             (fun property : string * ResponseData.Datum Response =>
                Entry.id (ResponseData.entry (snd property)))
             (fun property => ResponseData.entry (snd property)))
      in Hlookup as [([responseKey datum] & Hin & Hkey & Hvalue)|Hempty];
      [|by rewrite lookup_empty in Hempty].
    simpl in *. subst. split; [done|]. by exists responseKey, datum.
  - intros before after responseKey datum -> Hafter.
    apply (index_last
             (fun property : string * ResponseData.Datum Response =>
                Entry.id (ResponseData.entry (snd property)))
             (fun property => ResponseData.entry (snd property))
             before after (responseKey, datum) ∅).
    intros [key' datum'] Hin. by apply (Hafter key' datum').
Qed.

End AnsweredEntries.

(** X14. When the screens have pairwise different ids, every screen is
    found under its id in [indexedScreens], and what is found under an
    id is always one of the screens, with that id. *)
Theorem indexScreens_finds_each (screens : list Script.WithChildrenT) :
  NoDup (List.map (fun s => InterviewScreen.id (Script.screen s)) screens) ->
  (forall s, s ∈ screens ->
             RunnerSetup.indexScreens screens
               !! InterviewScreen.id (Script.screen s) = Some s)
  /\ (forall screenId s,
        RunnerSetup.indexScreens screens !! screenId = Some s ->
        s ∈ screens /\ InterviewScreen.id (Script.screen s) = screenId).
Proof.
  intros Hnodup. unfold RunnerSetup.indexScreens. split.
  - intros s Hin. apply list_elem_of_split in Hin as (before & after & ->).
    apply (index_last (fun s => InterviewScreen.id (Script.screen s))
             (fun s => s) before after s ∅).
    intros s' Hin' Hsame.
    rewrite map_app in Hnodup. apply NoDup_app in Hnodup as (_ & _ & Hnodup).
    cbn [List.map] in Hnodup. apply NoDup_cons in Hnodup as [Hfresh _].
    apply Hfresh. rewrite <- Hsame.
    apply list_elem_of_In,
      (in_map (fun s => InterviewScreen.id (Script.screen s))).
    by apply list_elem_of_In.
  - intros screenId s Hlookup.
    apply (index_some (fun s => InterviewScreen.id (Script.screen s))
             (fun s => s)) in Hlookup
      as [(s' & Hin & Hkey & <-)|Hempty]; [done|].
    by rewrite lookup_empty in Hempty.
Qed.

(** ** The Airtable field selector *)

Section FieldSelector.

Import InterviewSetting.

Lemma findBase_some (bases : list AirtableBase) (selectedBase : string)
  (base : AirtableBase) :
  AirtableFieldSelector.findBase bases selectedBase = Some base ->
  base ∈ bases /\ baseId base = Some selectedBase.
Proof.
  intros Hfind. apply find_some in Hfind as [Hin Hid].
  split; [by apply list_elem_of_In | by apply bool_decide_eq_true in Hid].
Qed.

Lemma findTable_some (tables : list AirtableTable) (selectedTable : string)
  (table : AirtableTable) :
  AirtableFieldSelector.findTable tables selectedTable = Some table ->
  table ∈ tables /\ tableId table = selectedTable.
Proof.
  intros Hfind. apply find_some in Hfind as [Hin Hid].
  split; [by apply list_elem_of_In | by apply String.eqb_eq].
Qed.

(** Where the available fields come from. *)
Lemma availableFields_origin (bases : option (list AirtableBase))
  (selectedBase selectedTable : string)
  (fieldFilterFn : option (AirtableField -> bool))
  (option : AirtableFieldSelector.DropdownOption) :
  option
    ∈ AirtableFieldSelector.availableFields bases selectedBase selectedTable
        fieldFilterFn ->
  exists allBases base allTables table allFields field,
    bases = Some allBases
    /\ base ∈ allBases /\ baseId base = Some selectedBase
    /\ tables base = Some allTables
    /\ table ∈ allTables /\ tableId table = selectedTable
    /\ fields table = Some allFields
    /\ field ∈ allFields
    /\ (forall keep, fieldFilterFn = Some keep -> keep field = true)
    /\ option
       = {| AirtableFieldSelector.displayValue := fieldName field;
            AirtableFieldSelector.value := fieldName field |}.
Proof.
  unfold AirtableFieldSelector.availableFields.
  destruct bases as [allBases|]; [|by intros H; inversion H].
  destruct (JS.truthy (Some selectedBase) && JS.truthy (Some selectedTable));
    [|by intros H; inversion H].
  destruct (AirtableFieldSelector.findBase allBases selectedBase)
    as [base|] eqn:Hbase; [|by intros H; inversion H].
  apply findBase_some in Hbase as [Hbase Hbaseid].
  destruct (tables base) as [allTables|] eqn:Htables;
    [|by intros H; inversion H].
  destruct (AirtableFieldSelector.findTable allTables selectedTable)
    as [table|] eqn:Htable; [|by intros H; inversion H].
  apply findTable_some in Htable as [Htable Htableid].
  destruct (fields table) as [allFields|] eqn:Hfields;
    [|by intros H; inversion H].
  intros Hin. apply list_elem_of_In, in_map_iff in Hin as (field & <- & Hin).
  apply filter_In in Hin as [Hin Hkeep].
  exists allBases, base, allTables, table, allFields, field.
  repeat split; try done; [by apply list_elem_of_In|].
  intros keep ->. done.
Qed.

(** X15. The selector only offers what belongs to the selection: every
    table it lists is a table of a base with the selected id, and every
    field it lists is a field of a table with the selected id in such a
    base, and passes the filter when there is one. *)
Theorem selector_offers_the_selection (bases : option (list AirtableBase))
  (selectedBase selectedTable : string)
  (fieldFilterFn : option (AirtableField -> bool))
  (option : AirtableFieldSelector.DropdownOption) :
  (option ∈ AirtableFieldSelector.availableTables bases selectedBase ->
   exists allBases base allTables table,
     bases = Some allBases
     /\ base ∈ allBases /\ baseId base = Some selectedBase
     /\ tables base = Some allTables /\ table ∈ allTables
     /\ option
        = {| AirtableFieldSelector.displayValue := tableName table;
             AirtableFieldSelector.value := tableId table |})
  /\ (option
        ∈ AirtableFieldSelector.availableFields bases selectedBase
            selectedTable fieldFilterFn ->
      exists allBases base allTables table allFields field,
        bases = Some allBases
        /\ base ∈ allBases /\ baseId base = Some selectedBase
        /\ tables base = Some allTables
        /\ table ∈ allTables /\ tableId table = selectedTable
        /\ fields table = Some allFields
        /\ field ∈ allFields
        /\ (forall keep, fieldFilterFn = Some keep -> keep field = true)
        /\ option
           = {| AirtableFieldSelector.displayValue := fieldName field;
                AirtableFieldSelector.value := fieldName field |}).
Proof.
  split; [|apply availableFields_origin].
  unfold AirtableFieldSelector.availableTables.
  destruct bases as [allBases|]; [|by intros H; inversion H].
  destruct (JS.truthy (Some selectedBase)); [|by intros H; inversion H].
  destruct (AirtableFieldSelector.findBase allBases selectedBase)
    as [base|] eqn:Hbase; [|by intros H; inversion H].
  apply findBase_some in Hbase as [Hbase Hbaseid].
  destruct (tables base) as [allTables|] eqn:Htables;
    [|by intros H; inversion H].
  intros Hin. apply list_elem_of_In, in_map_iff in Hin as (table & <- & Hin).
  exists allBases, base, allTables, table.
  repeat split; try done. by apply list_elem_of_In.
Qed.

(** What [doesAirtableFieldHaveOptions] accepts. *)
Lemma doesAirtableFieldHaveOptions_true (field : AirtableField) :
  SingleSelectEditor.doesAirtableFieldHaveOptions field = true ->
  exists allChoices,
    options field = Some (mkAirtableFieldOptions (Some allChoices))
    /\ allChoices <> []
    /\ (forall choice, choice ∈ allChoices ->
          exists named name,
            choice = Some named /\ choiceName named = Some name /\ name <> "").
Proof.
  unfold SingleSelectEditor.doesAirtableFieldHaveOptions.
  destruct (options field) as [[[allChoices|]]|]; [|done..].
  intros H. apply andb_true_iff in H as [Hlen Hall].
  exists allChoices. split; [done|]. split.
  - intros ->. done.
  - intros choice Hin. rewrite forallb_forall in Hall.
    apply list_elem_of_In in Hin. apply Hall in Hin.
    apply andb_true_iff in Hin as [Hfull Hdefined].
    apply negb_true_iff, bool_decide_eq_false in Hfull, Hdefined.
    destruct choice as [named|]; [|done].
    destruct (choiceName named) as [name|] eqn:Hname; [|done].
    exists named, name. split; [done|]. split; [done|].
    intros ->. by apply Hfull.
Qed.

(** X16. Every field the single select editor offers is a field of the
    selected table of the selected base, offered under its name, and
    has choices: at least one, each of them defined and with a name
    that is not empty. *)
Theorem offered_fields_have_choices (bases : option (list AirtableBase))
  (config : Entry.AirtableOptions)
  (option : AirtableFieldSelector.DropdownOption) :
  option ∈ SingleSelectEditor.offeredFields bases config ->
  exists allBases base allTables table allFields field allChoices,
    bases = Some allBases
    /\ base ∈ allBases /\ baseId base = Some (Entry.selectedBase config)
    /\ tables base = Some allTables
    /\ table ∈ allTables /\ tableId table = Entry.selectedTable config
    /\ fields table = Some allFields
    /\ field ∈ allFields
    /\ option
       = {| AirtableFieldSelector.displayValue := fieldName field;
            AirtableFieldSelector.value := fieldName field |}
    /\ options field = Some (mkAirtableFieldOptions (Some allChoices))
    /\ allChoices <> []
    /\ (forall choice, choice ∈ allChoices ->
          exists named name,
            choice = Some named /\ choiceName named = Some name /\ name <> "").
Proof.
  intros Hin. apply availableFields_origin in Hin
    as (allBases & base & allTables & table & allFields & field & Hbases
        & Hbase & Hbaseid & Htables & Htable & Htableid & Hfields & Hfield
        & Hkeep & ->).
  destruct (doesAirtableFieldHaveOptions_true field (Hkeep _ eq_refl))
    as (allChoices & Hoptions & Hne & Hnames).
  by exists allBases, base, allTables, table, allFields, field, allChoices.
Qed.

End FieldSelector.

(** ** Editing the options of a single select *)

Section SelectOptions.

Import SingleSelectEditor.

(** X17. Changing the text of an option keeps the options in place: the
    ids are the same in the same order, every option with the id of the
    changed one has the new text, and every other option is as it
    was. *)
Theorem option_change_keeps_the_others (option : SelectOption)
  (newVal : string) (selectionConfig : SingleSelectOptions) :
  List.map id (options (onOptionChange option newVal selectionConfig))
  = List.map id (options selectionConfig)
  /\ (forall changed,
        changed ∈ options (onOptionChange option newVal selectionConfig) ->
        id changed = id option -> value changed = newVal)
  /\ (forall other,
        id other <> id option ->
        (other ∈ options (onOptionChange option newVal selectionConfig)
         <-> other ∈ options selectionConfig))
  /\ airtableConfig (onOptionChange option newVal selectionConfig)
     = airtableConfig selectionConfig.
Proof.
  unfold onOptionChange. cbn [options airtableConfig].
  repeat split.
  - induction (options selectionConfig) as [|o rest IH]; [done|].
    cbn [List.map]. rewrite IH. by destruct (String.eqb (id o) (id option)).
  - intros changed Hin Hid.
    apply list_elem_of_In, in_map_iff in Hin as (o & <- & _).
    destruct (String.eqb_spec (id o) (id option)) as [_|Hne]; [done|].
    by destruct Hne.
  - intros Hin. apply list_elem_of_In, in_map_iff in Hin as (o & Ho & Hin).
    destruct (String.eqb_spec (id o) (id option)) as [Heq|Hne].
    + subst other. by destruct H.
    + subst other. by apply list_elem_of_In.
  - intros Hin. apply list_elem_of_In, in_map_iff. exists other.
    split; [|by apply list_elem_of_In].
    by destruct (String.eqb_spec (id other) (id option)).
Qed.

(** X18. Deleting an option removes the options with its id and keeps
    the others in their order: what is left is the list of the options
    with another id, as they came, and the Airtable configuration is as
    it was. In particular an option that was just added under a fresh
    id is deleted without a trace. *)
Theorem option_delete_removes_by_id (option : SelectOption)
  (selectionConfig : SingleSelectOptions) :
  options (onOptionDelete option selectionConfig)
  = filter (fun kept => id kept <> id option) (options selectionConfig)
  /\ sublist (options (onOptionDelete option selectionConfig))
       (options selectionConfig)
  /\ (forall kept,
        kept ∈ options (onOptionDelete option selectionConfig)
        <-> kept ∈ options selectionConfig /\ id kept <> id option)
  /\ airtableConfig (onOptionDelete option selectionConfig)
     = airtableConfig selectionConfig
  /\ (forall uuid optionToAdd,
        (forall present, present ∈ options selectionConfig ->
                         id present <> uuid) ->
        onOptionDelete (mkSelectOption uuid optionToAdd)
          (fst (onAddOption uuid optionToAdd selectionConfig))
        = selectionConfig).
Proof.
  assert (options (onOptionDelete option selectionConfig)
          = filter (fun kept => id kept <> id option)
              (options selectionConfig)) as Hfilter.
  { unfold onOptionDelete. cbn [options].
    induction (options selectionConfig) as [|o rest IH]; [done|].
    cbn [List.filter]. rewrite filter_cons, <- IH.
    destruct (String.eqb_spec (id o) (id option)) as [Heq|Hne];
      destruct (decide (id o <> id option)); done. }
  split; [done|]. split; [|split; [|split; [done|]]].
  - rewrite Hfilter. apply sublist_filter.
  - intros kept. rewrite Hfilter, list_elem_of_filter. tauto.
  - intros uuid optionToAdd Hfresh. clear Hfilter.
    unfold onOptionDelete, onAddOption. cbn [fst options airtableConfig id].
    destruct selectionConfig as [config opts]. cbn [options airtableConfig] in *.
    f_equal. rewrite List.filter_app. cbn [List.filter id].
    rewrite String.eqb_refl. cbn [negb]. rewrite app_nil_r.
    induction opts as [|o rest IH]; [done|]. cbn [List.filter].
    destruct (String.eqb_spec (id o) uuid) as [Heq|Hne].
    + destruct (Hfresh o); [left | done].
    + cbn [negb]. f_equal. apply IH. intros present Hin. apply Hfresh. by right.
Qed.

End SelectOptions.

(** ** The target of an [INSERT_ROW] under edit *)

Section TableTarget.

Import InterviewSetting Ownership.

Lemma lookup_pairs (airtableSettings : option AirtableSettings)
  (tableId : string) (baseId : option string) :
  (tableId, baseId)
    ∈ flat_map
        (fun base =>
           List.map
             (fun table =>
                (InterviewSetting.tableId table, InterviewSetting.baseId base))
             (JS.nullish (tables base) []))
        (JS.nullish
           (match airtableSettings with
            | Some airtableSettings => bases airtableSettings
            | None => None
            end)
           [])
  <-> exists base,
        base ∈ basesOf airtableSettings
        /\ InterviewSetting.baseId base = baseId
        /\ ownsTable base tableId.
Proof.
  assert (JS.nullish
            (match airtableSettings with
             | Some airtableSettings => bases airtableSettings
             | None => None
             end) []
          = basesOf airtableSettings) as ->.
  { unfold basesOf. destruct airtableSettings as [settings|]; [|done].
    by destruct (bases settings). }
  rewrite list_elem_of_In, in_flat_map. unfold ownsTable. split.
  - intros (base & Hbase & Hin). apply in_map_iff in Hin as (table & [= <- <-] & Hin).
    exists base. split; [by apply list_elem_of_In|]. split; [done|].
    destruct (tables base) as [allTables|]; [|done].
    exists allTables, table. split; [done|]. split; [by apply list_elem_of_In | done].
  - intros (base & Hbase & <- & allTables & table & Htables & Hin & <-).
    exists base. split; [by apply list_elem_of_In|].
    rewrite Htables. apply in_map_iff. exists table.
    split; [done | by apply list_elem_of_In].
Qed.

(** Filling a plain object pair by pair leaves what filling a map
    with the pairs leaves, but for the pairs under [__proto__]. *)
Lemma setProperty_fold {V : Type} (pairs : list (string * V))
  (object : gmap string V) :
  fold_left (fun lookup pair => JS.setProperty lookup (fst pair) (snd pair))
    pairs object
  = fold_left (fun map pair => <[fst pair := snd pair]> map)
      (List.filter (fun pair => negb (String.eqb (fst pair) "__proto__")) pairs)
      object.
Proof.
  revert object. induction pairs as [|[key value] rest IH]; intros object;
    [done|].
  cbn [fold_left List.filter fst snd]. rewrite IH. unfold JS.setProperty.
  by destruct (String.eqb key "__proto__").
Qed.

Lemma prototypeKey_spec (key : string) :
  existsb (String.eqb key) JS.objectPrototypeKeys = true
  <-> key ∈ JS.objectPrototypeKeys.
Proof.
  rewrite existsb_exists, list_elem_of_In. split.
  - intros (other & Hin & Heq). apply String.eqb_eq in Heq. by subst.
  - intros Hin. exists key. split; [done | apply String.eqb_refl].
Qed.

Lemma tableToBaseIdLookup_some (airtableSettings : option AirtableSettings)
  (tableId : string) (found : option string) :
  InsertRowActionBlock.tableToBaseIdLookup airtableSettings !! tableId
  = Some found ->
  tableId <> "__proto__"
  /\ exists base,
       base ∈ basesOf airtableSettings
       /\ InterviewSetting.baseId base = found
       /\ ownsTable base tableId.
Proof.
  unfold InsertRowActionBlock.tableToBaseIdLookup. rewrite setProperty_fold.
  intros Hlookup.
  apply (index_some fst snd) in Hlookup
    as [([tid bid] & Hin & Hkey & Hvalue)|Hempty];
    [|by rewrite lookup_empty in Hempty].
  apply list_elem_of_In, filter_In in Hin as [Hin Hplain].
  simpl in *. subst.
  apply negb_true_iff, String.eqb_neq in Hplain. split; [done|].
  by apply lookup_pairs, list_elem_of_In.
Qed.

Lemma tableToBaseIdLookup_none (airtableSettings : option AirtableSettings)
  (tableId : string) (base : AirtableBase) :
  InsertRowActionBlock.tableToBaseIdLookup airtableSettings !! tableId = None ->
  tableId <> "__proto__" ->
  base ∈ basesOf airtableSettings ->
  ~ ownsTable base tableId.
Proof.
  unfold InsertRowActionBlock.tableToBaseIdLookup. rewrite setProperty_fold.
  intros Hlookup Hplain Hbase Howns.
  assert ((tableId, InterviewSetting.baseId base)
            ∈ List.filter
                (fun pair => negb (String.eqb (fst pair) "__proto__"))
                (flat_map
                   (fun base =>
                      List.map
                        (fun table =>
                           (InterviewSetting.tableId table,
                            InterviewSetting.baseId base))
                        (JS.nullish (tables base) []))
                   (JS.nullish
                      (match airtableSettings with
                       | Some airtableSettings => bases airtableSettings
                       | None => None
                       end)
                      []))) as Hin.
  { apply list_elem_of_In, filter_In. split.
    - apply list_elem_of_In, lookup_pairs. by exists base.
    - by apply negb_true_iff, String.eqb_neq. }
  apply (index_found fst snd _ (∅ : gmap string (option string))) in Hin.
  cbn [fst] in Hin. rewrite Hlookup in Hin. by destruct Hin.
Qed.

(** X19. Choosing a table as the target of an [INSERT_ROW] sets the
    table target to that table, takes the type from the configuration
    shown, and leaves the id, the order, the interview, the field
    mappings and the other fields of the payload of the action as they
    were. The base target it sets is what the lookup object gives under
    the table id. When it is a string, the table id is not [__proto__]
    and the string is the id of a base that has a table with that id.
    When no base has such a table, or the table id is [__proto__], it
    is the member of [Object.prototype] under that key if there is one,
    and undefined otherwise. And when the table id is not [__proto__]
    and all the bases that have such a table share one id, it is that
    id. *)
Theorem onChangeTableTarget_consistent
  (airtableSettings : option AirtableSettings)
  (action : InsertRowActionBlock.EditableAction)
  (actionConfig : SubmissionActionCreate.PartialConfig) (tableId : string) :
  let changed :=
    InsertRowActionBlock.onChangeTableTarget airtableSettings action
      actionConfig tableId in
  let payload :=
    SubmissionActionCreate.payload (InsertRowActionBlock.config changed) in
  let unowned :=
    tableId = "__proto__"
    \/ forall base, base ∈ basesOf airtableSettings ->
                    ~ ownsTable base tableId in
  (SubmissionActionCreate.tableTarget payload = Some tableId
   /\ SubmissionActionCreate.type (InsertRowActionBlock.config changed)
      = SubmissionActionCreate.type actionConfig
   /\ SubmissionActionCreate.entryId payload
      = SubmissionActionCreate.entryId
          (SubmissionActionCreate.payload (InsertRowActionBlock.config action))
   /\ SubmissionActionCreate.primaryKeyField payload
      = SubmissionActionCreate.primaryKeyField
          (SubmissionActionCreate.payload (InsertRowActionBlock.config action))
   /\ InsertRowActionBlock.ident changed = InsertRowActionBlock.ident action
   /\ InsertRowActionBlock.order changed = InsertRowActionBlock.order action
   /\ InsertRowActionBlock.interviewId changed
      = InsertRowActionBlock.interviewId action
   /\ InsertRowActionBlock.fieldMappings changed
      = InsertRowActionBlock.fieldMappings action)
  /\ (forall baseId,
        SubmissionActionCreate.baseTarget payload = JS.StringValue baseId ->
        tableId <> "__proto__"
        /\ exists base,
             base ∈ basesOf airtableSettings
             /\ InterviewSetting.baseId base = Some baseId
             /\ ownsTable base tableId)
  /\ (forall key,
        SubmissionActionCreate.baseTarget payload = JS.PrototypeValue key ->
        key = tableId /\ tableId ∈ JS.objectPrototypeKeys /\ unowned)
  /\ (unowned ->
      (tableId ∈ JS.objectPrototypeKeys ->
       SubmissionActionCreate.baseTarget payload = JS.PrototypeValue tableId)
      /\ (tableId ∉ JS.objectPrototypeKeys ->
          SubmissionActionCreate.baseTarget payload = JS.UndefinedValue))
  /\ (forall baseId,
        tableId <> "__proto__" ->
        (exists base, base ∈ basesOf airtableSettings /\ ownsTable base tableId) ->
        (forall base, base ∈ basesOf airtableSettings ->
                      ownsTable base tableId ->
                      InterviewSetting.baseId base = baseId) ->
        SubmissionActionCreate.baseTarget payload
        = match baseId with
          | Some shared => JS.StringValue shared
          | None => JS.UndefinedValue
          end).
Proof.
  cbn zeta. unfold InsertRowActionBlock.onChangeTableTarget.
  cbn [InsertRowActionBlock.config InsertRowActionBlock.ident
       InsertRowActionBlock.order InsertRowActionBlock.interviewId
       InsertRowActionBlock.fieldMappings SubmissionActionCreate.payload
       SubmissionActionCreate.type SubmissionActionCreate.entryId
       SubmissionActionCreate.primaryKeyField
       SubmissionActionCreate.tableTarget SubmissionActionCreate.baseTarget].
  split; [done|]. unfold JS.getProperty.
  destruct (InsertRowActionBlock.tableToBaseIdLookup airtableSettings !! tableId)
    as [found|] eqn:Hlookup.
  - apply tableToBaseIdLookup_some in Hlookup
      as (Hplain & base & Hbase & <- & Howns).
    assert (~ (tableId = "__proto__"
               \/ forall base, base ∈ basesOf airtableSettings ->
                               ~ ownsTable base tableId)) as Howned.
    { intros [Hproto|Hnone]; [done|]. by destruct (Hnone base). }
    split; [|split; [|split]].
    + intros baseId Htarget. split; [done|]. exists base.
      destruct (InterviewSetting.baseId base); [|done].
      by injection Htarget as ->.
    + intros key Htarget. by destruct (InterviewSetting.baseId base).
    + intros Hunowned. by destruct Howned.
    + intros baseId _ _ Hshared. by rewrite (Hshared base Hbase Howns).
  - destruct (existsb (String.eqb tableId) JS.objectPrototypeKeys)
      eqn:Hmember.
    + apply prototypeKey_spec in Hmember.
      assert (tableId = "__proto__"
              \/ forall base, base ∈ basesOf airtableSettings ->
                              ~ ownsTable base tableId) as Hunowned.
      { destruct (decide (tableId = "__proto__")) as [Hproto|Hplain];
          [by left|]. right. intros base Hbase.
        by apply (tableToBaseIdLookup_none airtableSettings). }
      split; [done|]. split; [|split].
      * by intros key [= <-].
      * intros _. split; [done|]. intros Hnot. by destruct Hnot.
      * intros baseId Hplain (base & Hbase & Howns) _.
        by destruct (tableToBaseIdLookup_none _ _ base Hlookup Hplain Hbase).
    + assert (tableId ∉ JS.objectPrototypeKeys) as Hnot.
      { intros Hin. apply prototypeKey_spec in Hin. congruence. }
      split; [done|]. split; [done|]. split.
      * intros _. split; [by intros Hin|done].
      * intros baseId Hplain (base & Hbase & Howns) _.
        by destruct (tableToBaseIdLookup_none _ _ base Hlookup Hplain Hbase).
Qed.

End TableTarget.

(** ** Adding a submission action *)

Section AddAction.

Context {DateTime Setting SettingCreate : Type}.

(** X20. Adding an action keeps the actions numbered: when the orders
    of the actions are 1 to n, after [onAddClick] they are 1 to n + 1.
    The actions that were there stay in place, and the one added is an
    [EDIT_ROW] of order n + 1 with an empty payload and without field
    mappings, known by the fresh id; the interview and its settings
    are as they were. *)
Theorem onAddClick_keeps_orders (uuid : string) (n : nat)
  (interview :
     @Interview.UpdateT DateTime SubmissionAction.T
       SubmissionActionCreate.CreateT Setting SettingCreate) :
  List.map OnSubmitCard.orderOf (Interview.u_submissionActions interview)
  = List.map Z.of_nat (seq 1 n) ->
  List.map OnSubmitCard.orderOf
    (Interview.u_submissionActions (OnSubmitCard.onAddClick uuid interview))
  = List.map Z.of_nat (seq 1 (S n))
  /\ exists created,
       Interview.u_submissionActions (OnSubmitCard.onAddClick uuid interview)
       = (Interview.u_submissionActions interview ++ [inr created])%list
       /\ SubmissionActionCreate.config created
          = {| SubmissionActionCreate.type := SubmissionAction.EDIT_ROW;
               SubmissionActionCreate.payload :=
                 SubmissionActionCreate.emptyPayload |}
       /\ SubmissionActionCreate.order created = Z.of_nat (S n)
       /\ SubmissionActionCreate.fieldMappings created = []
       /\ SubmissionActionCreate.tempId created = uuid
       /\ SubmissionActionCreate.interviewId created
          = Interview.id (Interview.u_interview interview)
       /\ Interview.u_interview (OnSubmitCard.onAddClick uuid interview)
          = Interview.u_interview interview
       /\ Interview.u_interviewSettings
            (OnSubmitCard.onAddClick uuid interview)
          = Interview.u_interviewSettings interview.
Proof.
  intros Horders.
  assert (length (Interview.u_submissionActions interview) = n) as Hlength.
  { apply (f_equal (@length Z)) in Horders.
    by rewrite !length_map, length_seq in Horders. }
  unfold OnSubmitCard.onAddClick.
  cbn [Interview.u_submissionActions Interview.u_interview
       Interview.u_interviewSettings].
  split.
  - rewrite map_app, Horders, seq_S, map_app, Hlength. simpl.
    do 2 f_equal. lia.
  - eexists. split; [reflexivity|]. unfold SubmissionActionCreate.create.
    cbn [SubmissionActionCreate.config SubmissionActionCreate.order
         SubmissionActionCreate.fieldMappings SubmissionActionCreate.tempId
         SubmissionActionCreate.interviewId].
    rewrite Hlength. repeat split. lia.
Qed.

End AddAction.

(** ** The store *)

Section StoreTables.

Context {X : Type}.

Lemma nonNullable_elem (l : list (option X)) (x : X) :
  x ∈ InterviewStore.nonNullable l <-> Some x ∈ l.
Proof.
  unfold InterviewStore.nonNullable. rewrite !list_elem_of_In, in_flat_map.
  split.
  - intros ([y|] & Hin & Hx); [|done]. destruct Hx as [->|[]]. done.
  - intros Hin. exists (Some x). split; [done | by left].
Qed.

Lemma nonNullable_length (l : list (option X)) :
  (length (InterviewStore.nonNullable l) <= length l)%nat
  /\ (length (InterviewStore.nonNullable l) = length l
      <-> forall o, o ∈ l -> is_Some o).
Proof.
  induction l as [|[x|] rest [IHle IHeq]]; simpl.
  - split; [lia|]. split; [|done]. intros _ o Ho. inversion Ho.
  - split; [lia|]. split.
    + intros Hlen o Ho. apply elem_of_cons in Ho as [->|Ho]; [done|].
      apply IHeq; [lia | done].
    + intros Hall. f_equal. apply IHeq. intros o Ho. apply Hall. by right.
  - split; [lia|]. split; [lia|].
    intros Hall. destruct (Hall None) as [? [=]]. left.
Qed.

Lemma bulkGet_elem (keys : list string) (table : gmap string X)
  (o : option X) :
  o ∈ InterviewStore.bulkGet keys table
  <-> exists key, key ∈ keys /\ table !! key = o.
Proof.
  unfold InterviewStore.bulkGet. rewrite list_elem_of_In, in_map_iff.
  split.
  - intros (key & Hlookup & Hin). exists key.
    split; [by apply list_elem_of_In | done].
  - intros (key & Hin & Hlookup). exists key.
    split; [done | by apply list_elem_of_In].
Qed.

Lemma bulkDelete_lookup (keys : list string) (table : gmap string X)
  (key : string) :
  (key ∈ keys -> InterviewStore.bulkDelete keys table !! key = None)
  /\ (key ∉ keys ->
      InterviewStore.bulkDelete keys table !! key = table !! key).
Proof.
  unfold InterviewStore.bulkDelete. revert table.
  induction keys as [|k rest IH]; intros table; cbn [fold_left].
  - split; [intros H; inversion H | done].
  - destruct (IH (delete k table)) as [IHin IHout]. split.
    + intros Hin. destruct (decide (key ∈ rest)) as [Hrest|Hrest];
        [by apply IHin|].
      rewrite IHout by done.
      apply elem_of_cons in Hin as [->|Hin]; [apply lookup_delete_eq | done].
    + intros Hout. apply not_elem_of_cons in Hout as [Hne Hrest].
      rewrite IHout by done. by apply lookup_delete_ne.
Qed.

End StoreTables.

Section StoreReads.

Import StoreNotions.

Context {InterviewT SerializedInterview SerializedScreen SerializedAction : Type}.
Variable interviewScreensOf : InterviewT -> list string.
Variable deserializeInterview : SerializedInterview -> InterviewT.
Variable deserializeScreen : SerializedScreen -> InterviewScreen.T.

(** X21. [getScreens] leaves the database as it is and returns only
    stored screens: each screen returned is the stored form, under one
    of the requested ids, deserialised; there are never more screens
    than ids, and as many exactly when every id is stored. *)
Theorem getScreens_skips_missing (screenIds : list string) (db : @InterviewStore.DB SerializedInterview SerializedScreen
           SerializedAction) :
  exists screens,
    InterviewStore.getScreens deserializeScreen screenIds db = (inr screens, db)
    /\ (forall screen, screen ∈ screens ->
          exists screenId stored,
            screenId ∈ screenIds
            /\ InterviewStore.interviewScreens db !! screenId = Some stored
            /\ screen = deserializeScreen stored)
    /\ (length screens <= length screenIds)%nat
    /\ (length screens = length screenIds
        <-> forall screenId, screenId ∈ screenIds ->
              is_Some (InterviewStore.interviewScreens db !! screenId)).
Proof.
  eexists. split; [reflexivity|]. split; [|split].
  - intros screen Hin.
    apply list_elem_of_In, in_map_iff in Hin as (stored & <- & Hin).
    apply list_elem_of_In, nonNullable_elem, bulkGet_elem in Hin
      as (screenId & Hid & Hlookup).
    by exists screenId, stored.
  - rewrite length_map.
    destruct (nonNullable_length
                (InterviewStore.bulkGet screenIds
                   (InterviewStore.interviewScreens db))) as [Hle _].
    unfold InterviewStore.bulkGet in *. by rewrite length_map in Hle.
  - rewrite length_map.
    destruct (nonNullable_length
                (InterviewStore.bulkGet screenIds
                   (InterviewStore.interviewScreens db))) as [_ Heq].
    unfold InterviewStore.bulkGet in Heq at 2. rewrite length_map in Heq.
    rewrite Heq. split.
    + intros Hall screenId Hin. apply Hall, bulkGet_elem. by exists screenId.
    + intros Hall o Hin. apply bulkGet_elem in Hin as (screenId & Hin & <-).
      by apply Hall.
Qed.

(** The index of the entries read for some ids agrees with the table on
    those ids. *)
Lemma entries_index (table : gmap string InterviewScreenEntry.T)
  (entryIds : list string) (entryId : string) :
  keyedById table ->
  entryId ∈ entryIds ->
  fold_left
    (fun map entry => <[InterviewScreenEntry.id entry := entry]> map)
    (List.map InterviewScreenEntryIO.deserialize
       (InterviewStore.nonNullable (InterviewStore.bulkGet entryIds table)))
    (∅ : gmap string InterviewScreenEntry.T)
  !! entryId
  = table !! entryId.
Proof.
  intros Hkeyed Hin. rewrite map_id.
  set (read := InterviewStore.nonNullable (InterviewStore.bulkGet entryIds table)).
  assert (forall entry, entry ∈ read ->
            table !! InterviewScreenEntry.id entry = Some entry) as Hread.
  { intros entry Hentry.
    apply nonNullable_elem, bulkGet_elem in Hentry as (key & _ & Hlookup).
    by rewrite (Hkeyed key entry Hlookup). }
  destruct (table !! entryId) as [entry|] eqn:Hlookup.
  - assert (entry ∈ read) as Hentry
      by (apply nonNullable_elem, bulkGet_elem; by exists entryId).
    pose proof (Hkeyed entryId entry Hlookup) as Hid.
    destruct (index_found InterviewScreenEntry.id (fun e => e) read ∅ entry
                Hentry) as [found Hfound].
    rewrite Hid in Hfound. rewrite Hfound.
    apply (index_some InterviewScreenEntry.id (fun e => e)) in Hfound
      as [(entry' & Hentry' & Hid' & <-)|Hempty];
      [|by rewrite lookup_empty in Hempty].
    apply Hread in Hentry'. rewrite Hid' in Hentry'. congruence.
  - rewrite (index_keeps InterviewScreenEntry.id (fun e => e));
      [apply lookup_empty|].
    intros entry Hentry Hid. apply Hread in Hentry. congruence.
Qed.

(** X22. [getScreenEntriesOfInterview] returns the empty map for an
    interview that is not stored. For a stored interview, in a database
    whose entries are stored under their ids, it returns a map that has
    a list for each stored screen of the interview, and the list found
    under a screen id is, for a stored screen with that id, the stored
    entries among the entries of the screen, in their order. The
    database is left as it is. *)
Theorem getScreenEntriesOfInterview_lists_stored_entries
  (interviewId : string) (db : @InterviewStore.DB SerializedInterview SerializedScreen
           SerializedAction) :
  keyedById (InterviewStore.interviewScreenEntries db) ->
  (InterviewStore.interviews db !! interviewId = None ->
   InterviewStore.getScreenEntriesOfInterview interviewScreensOf
     deserializeInterview deserializeScreen interviewId db
   = (inr ∅, db))
  /\ (forall stored,
        InterviewStore.interviews db !! interviewId = Some stored ->
        exists screens entriesOfScreens,
          InterviewStore.getScreens deserializeScreen
            (interviewScreensOf (deserializeInterview stored)) db
          = (inr screens, db)
          /\ InterviewStore.getScreenEntriesOfInterview interviewScreensOf
               deserializeInterview deserializeScreen interviewId db
             = (inr entriesOfScreens, db)
          /\ (forall screen, screen ∈ screens ->
                is_Some (entriesOfScreens !! InterviewScreen.id screen))
          /\ (forall screenId entries,
                entriesOfScreens !! screenId = Some entries ->
                exists screen,
                  screen ∈ screens
                  /\ InterviewScreen.id screen = screenId
                  /\ entries
                     = InterviewStore.nonNullable
                         (InterviewStore.bulkGet
                            (InterviewScreen.entries screen)
                            (InterviewStore.interviewScreenEntries db)))).
Proof.
  intros Hkeyed.
  unfold InterviewStore.getScreenEntriesOfInterview, InterviewStore.await,
    InterviewStore.getInterview.
  split; [by intros ->|]. intros stored ->.
  set (screens :=
         List.map deserializeScreen
           (InterviewStore.nonNullable
              (InterviewStore.bulkGet
                 (interviewScreensOf (deserializeInterview stored))
                 (InterviewStore.interviewScreens db)))).
  eexists screens, _. split; [reflexivity|].
  cbn [InterviewStore.getScreens InterviewStore.getScreenEntries
       InterviewStore.resolve].
  fold screens. split; [reflexivity|].
  set (allEntriesMap := fold_left _ _ (∅ : gmap string InterviewScreenEntry.T)).
  assert (forall screen, screen ∈ screens ->
            InterviewStore.nonNullable
              (List.map (fun entryId => allEntriesMap !! entryId)
                 (InterviewScreen.entries screen))
            = InterviewStore.nonNullable
                (InterviewStore.bulkGet (InterviewScreen.entries screen)
                   (InterviewStore.interviewScreenEntries db))) as Hentries.
  { intros screen Hscreen. unfold InterviewStore.bulkGet at 1. f_equal.
    apply map_ext_in. intros entryId Hin. unfold allEntriesMap.
    apply entries_index; [done|].
    apply list_elem_of_In, in_flat_map. exists screen.
    split; [by apply list_elem_of_In | done]. }
  split.
  - intros screen Hscreen.
    apply (index_found InterviewScreen.id
             (fun screen =>
                InterviewStore.nonNullable
                  (List.map (fun entryId => allEntriesMap !! entryId)
                     (InterviewScreen.entries screen)))
             screens ∅ screen Hscreen).
  - intros screenId entries Hlookup.
    apply (index_some InterviewScreen.id
             (fun screen =>
                InterviewStore.nonNullable
                  (List.map (fun entryId => allEntriesMap !! entryId)
                     (InterviewScreen.entries screen))))
      in Hlookup as [(screen & Hscreen & Hid & <-)|Hempty];
      [|by rewrite lookup_empty in Hempty].
    exists screen. split; [done|]. split; [done|]. by apply Hentries.
Qed.

End StoreReads.

Section StoreWrites.

Import StoreNotions.

Context {InterviewT SerializedInterview SerializedScreen SerializedAction : Type}.
Variable interviewScreensOf : InterviewT -> list string.
Variable serializeInterview : InterviewT -> SerializedInterview.
Variable deserializeInterview : SerializedInterview -> InterviewT.
Variable serializedInterviewId : SerializedInterview -> string.
Variable addScreen : InterviewT -> InterviewScreen.T -> InterviewT.
Variable serializeScreen : InterviewScreen.T -> SerializedScreen.
Variable deserializeScreen : SerializedScreen -> InterviewScreen.T.
Variable serializedScreenId : SerializedScreen -> string.

(** X23. [deleteInterview] does nothing for an interview that is not
    stored. For a stored interview it removes the interview, the screens
    stored under the ids the interview lists, and the entries and
    conditional actions those screens list; every other interview,
    screen, entry and action stays as it was. *)
Theorem deleteInterview_removes_what_it_owns (interviewId : string)
  (db : @InterviewStore.DB SerializedInterview SerializedScreen
          SerializedAction) :
  (InterviewStore.interviews db !! interviewId = None ->
   InterviewStore.deleteInterview interviewScreensOf deserializeInterview
     deserializeScreen interviewId db
   = (inr tt, db))
  /\ (forall stored,
        InterviewStore.interviews db !! interviewId = Some stored ->
        exists screens after,
          InterviewStore.getScreens deserializeScreen
            (interviewScreensOf (deserializeInterview stored)) db
          = (inr screens, db)
          /\ InterviewStore.deleteInterview interviewScreensOf
               deserializeInterview deserializeScreen interviewId db
             = (inr tt, after)
          /\ InterviewStore.interviews after
             = delete interviewId (InterviewStore.interviews db)
          /\ (forall key,
                (key ∈ interviewScreensOf (deserializeInterview stored) ->
                 InterviewStore.interviewScreens after !! key = None)
                /\ (key ∉ interviewScreensOf (deserializeInterview stored) ->
                    InterviewStore.interviewScreens after !! key
                    = InterviewStore.interviewScreens db !! key))
          /\ (forall key,
                ((exists screen,
                    screen ∈ screens /\ key ∈ InterviewScreen.entries screen) ->
                 InterviewStore.interviewScreenEntries after !! key = None)
                /\ ((forall screen,
                       screen ∈ screens ->
                       key ∉ InterviewScreen.entries screen) ->
                    InterviewStore.interviewScreenEntries after !! key
                    = InterviewStore.interviewScreenEntries db !! key))
          /\ (forall key,
                ((exists screen,
                    screen ∈ screens /\ key ∈ InterviewScreen.actions screen) ->
                 InterviewStore.conditionalActions after !! key = None)
                /\ ((forall screen,
                       screen ∈ screens ->
                       key ∉ InterviewScreen.actions screen) ->
                    InterviewStore.conditionalActions after !! key
                    = InterviewStore.conditionalActions db !! key))).
Proof.
  unfold InterviewStore.deleteInterview, InterviewStore.await,
    InterviewStore.getInterview.
  split; [by intros ->|]. intros stored ->.
  cbn [InterviewStore.getScreens].
  eexists _, _. split; [reflexivity|]. split; [reflexivity|].
  cbn [InterviewStore.interviews InterviewStore.interviewScreens
       InterviewStore.interviewScreenEntries InterviewStore.conditionalActions].
  split; [done|].
  assert (forall (ids : InterviewScreen.T -> list string) key screens,
            key ∈ flat_map ids screens
            <-> exists screen, screen ∈ screens /\ key ∈ ids screen) as Hflat.
  { intros ids key screens. rewrite list_elem_of_In, in_flat_map.
    split; intros (screen & H1 & H2); exists screen;
      split; by apply list_elem_of_In. }
  split; [|split].
  - intros key. apply bulkDelete_lookup.
  - intros key.
    destruct (bulkDelete_lookup
                (flat_map (fun screen => InterviewScreen.entries screen)
                   (List.map deserializeScreen
                      (InterviewStore.nonNullable
                         (InterviewStore.bulkGet
                            (interviewScreensOf (deserializeInterview stored))
                            (InterviewStore.interviewScreens db)))))
                (InterviewStore.interviewScreenEntries db) key) as [Hin Hout].
    split.
    + intros H. by apply Hin, Hflat.
    + intros H. apply Hout. intros Hkey. apply Hflat in Hkey
        as (screen & Hscreen & Hentry). by apply (H screen).
  - intros key.
    destruct (bulkDelete_lookup
                (flat_map (fun screen => InterviewScreen.actions screen)
                   (List.map deserializeScreen
                      (InterviewStore.nonNullable
                         (InterviewStore.bulkGet
                            (interviewScreensOf (deserializeInterview stored))
                            (InterviewStore.interviewScreens db)))))
                (InterviewStore.conditionalActions db) key) as [Hin Hout].
    split.
    + intros H. by apply Hin, Hflat.
    + intros H. apply Hout. intros Hkey. apply Hflat in Hkey
        as (screen & Hscreen & Haction). by apply (H screen).
Qed.

(** X24. An interview that was put is the one that is got: when the
    stored form of the interview is stored under the interview's key
    and deserialises to the interview, [getInterview] after
    [putInterview] returns the interview; the other interviews and the
    other tables are as they were. *)
Theorem putInterview_then_getInterview (interview : InterviewT)
  (key : string)
  (db : @InterviewStore.DB SerializedInterview SerializedScreen
          SerializedAction) :
  serializedInterviewId (serializeInterview interview) = key ->
  deserializeInterview (serializeInterview interview) = interview ->
  exists after,
    InterviewStore.await
      (InterviewStore.putInterview serializeInterview serializedInterviewId
         interview)
      (fun _ => InterviewStore.getInterview deserializeInterview key) db
    = (inr (Some interview), after)
    /\ (forall other, other <> key ->
          InterviewStore.interviews after !! other
          = InterviewStore.interviews db !! other)
    /\ InterviewStore.interviewScreens after = InterviewStore.interviewScreens db
    /\ InterviewStore.interviewScreenEntries after
       = InterviewStore.interviewScreenEntries db
    /\ InterviewStore.conditionalActions after
       = InterviewStore.conditionalActions db.
Proof.
  intros Hkey Hback.
  unfold InterviewStore.await, InterviewStore.putInterview,
    InterviewStore.getInterview.
  cbn [InterviewStore.interviews]. rewrite Hkey, lookup_insert_eq, Hback.
  eexists. split; [reflexivity|].
  cbn [InterviewStore.interviews InterviewStore.interviewScreens
       InterviewStore.interviewScreenEntries InterviewStore.conditionalActions].
  repeat split. intros other Hne. by rewrite lookup_insert_ne.
Qed.

(** The message of an invariant: a format that begins with text free
    of [%] keeps that text, and a quote at its end stays. *)
Lemma invariantMessage_prefix (prefix s : string) :
  JS.contains "%" prefix = false ->
  InterviewStore.invariantMessage (prefix ++ s)
  = prefix ++ InterviewStore.invariantMessage s.
Proof.
  induction prefix as [|c rest IH]; intros Hfree; [done|].
  cbn [JS.contains] in Hfree. apply orb_false_iff in Hfree as [Hc Hrest].
  rewrite !append_cons. cbn [InterviewStore.invariantMessage].
  rewrite Hc. cbn [andb]. rewrite (IH Hrest).
  destruct (rest ++ s) as [|d rest'] eqn:Hjoined; [|done].
  destruct rest; [|done]. change (s = "") in Hjoined. by subst.
Qed.

Lemma invariantMessage_cons (c d : ascii) (rest : string) :
  InterviewStore.invariantMessage (String c (String d rest))
  = if Ascii.eqb c "%" && Ascii.eqb d "s"
    then "undefined" ++ InterviewStore.invariantMessage rest
    else String c (InterviewStore.invariantMessage (String d rest)).
Proof. reflexivity. Qed.

Lemma invariantMessage_quote (s : string) :
  InterviewStore.invariantMessage (s ++ "'")
  = InterviewStore.invariantMessage s ++ "'".
Proof.
  assert (InterviewStore.invariantMessage (s ++ "'")
          = InterviewStore.invariantMessage s ++ "'"
          /\ forall c,
               InterviewStore.invariantMessage (String c s ++ "'")
               = InterviewStore.invariantMessage (String c s) ++ "'")
    as [H _]; [|done].
  induction s as [|d rest [IHrest IHcons]].
  - split; [reflexivity|]. intros c.
    change (InterviewStore.invariantMessage (String c "'") = String c "'").
    cbn [InterviewStore.invariantMessage].
    destruct (Ascii.eqb c "%"); reflexivity.
  - split; [apply IHcons|]. intros c.
    pose proof (IHcons d) as Hd. rewrite append_cons in Hd.
    rewrite !append_cons, !invariantMessage_cons.
    destruct (Ascii.eqb c "%" && Ascii.eqb d "s").
    + rewrite IHrest. symmetry. apply append_assoc.
    + rewrite append_cons. by f_equal.
Qed.

(** The error thrown for an interview that is not stored. *)
Lemma missing_interview_message (interviewId : string) :
  InterviewStore.InvariantViolation
    (InterviewStore.invariantMessage
       ("[InterviewStore] addScreenToInterview: Could not find interview with id '"
        ++ interviewId ++ "'"))
  = missingInterview interviewId.
Proof.
  unfold missingInterview.
  by rewrite invariantMessage_prefix, invariantMessage_quote.
Qed.

Lemma invariantMessage_plain (s : string) :
  hasPlaceholder s = false -> InterviewStore.invariantMessage s = s.
Proof.
  induction s as [|c rest IH]; [done|]. intros Hplain.
  cbn [hasPlaceholder] in Hplain. cbn [InterviewStore.invariantMessage].
  destruct rest as [|d rest']; [done|].
  apply orb_false_iff in Hplain as [-> Hrest]. by rewrite (IH Hrest).
Qed.

(** X25. [putScreen] needs the interview: with the interview stored, it
    stores the screen under its key, returns it, and changes nothing
    else; without it, the call ends in the invariant violation of
    [addScreenToInterview] and the database is as it was. Two levels of
    calls are enough for either outcome. The message of the violation
    names the id, with [undefined] in the place of every [%s] the id
    holds. *)
Theorem putScreen_needs_the_interview (fuel : nat) (interviewId : string)
  (screen : InterviewScreen.T)
  (db : @InterviewStore.DB SerializedInterview SerializedScreen
          SerializedAction) :
  (is_Some (InterviewStore.interviews db !! interviewId) ->
   InterviewStore.putScreen serializeInterview deserializeInterview
     serializedInterviewId addScreen serializeScreen serializedScreenId
     (S fuel) interviewId screen db
   = (inr screen,
      {| InterviewStore.conditionalActions := InterviewStore.conditionalActions db;
         InterviewStore.interviews := InterviewStore.interviews db;
         InterviewStore.interviewScreens :=
           <[serializedScreenId (serializeScreen screen) := serializeScreen screen]>
             (InterviewStore.interviewScreens db);
         InterviewStore.interviewScreenEntries :=
           InterviewStore.interviewScreenEntries db |}))
  /\ (InterviewStore.interviews db !! interviewId = None ->
      InterviewStore.putScreen serializeInterview deserializeInterview
        serializedInterviewId addScreen serializeScreen serializedScreenId
        (S (S fuel)) interviewId screen db
      = (inl (missingInterview interviewId), db)).
Proof.
  split.
  - intros [stored Hstored]. cbn [InterviewStore.putScreen].
    by rewrite Hstored.
  - intros Hmissing. cbn [InterviewStore.putScreen].
    rewrite Hmissing. unfold InterviewStore.await, InterviewStore.getInterview.
    rewrite Hmissing. unfold InterviewStore.reject.
    by rewrite missing_interview_message.
Qed.

(** X26. [addScreenToInterview] on a stored interview stores the
    interview with the screen added, under the key of its stored form,
    and the screen, under the key of its stored form, and returns both;
    on an interview that is not stored it ends in an invariant
    violation and the database is as it was. The message of the
    violation names the id with [undefined] in the place of every [%s]
    the id holds, and so names the id as it is when the id holds no
    [%s]. *)
Theorem addScreenToInterview_stores_both (fuel : nat) (interviewId : string)
  (screen : InterviewScreen.T)
  (db : @InterviewStore.DB SerializedInterview SerializedScreen
          SerializedAction) :
  (forall stored,
     InterviewStore.interviews db !! interviewId = Some stored ->
     let newInterview := addScreen (deserializeInterview stored) screen in
     InterviewStore.addScreenToInterview serializeInterview
       deserializeInterview serializedInterviewId addScreen serializeScreen
       serializedScreenId (S (S fuel)) interviewId screen db
     = (inr (newInterview, screen),
        {| InterviewStore.conditionalActions :=
             InterviewStore.conditionalActions db;
           InterviewStore.interviews :=
             <[serializedInterviewId (serializeInterview newInterview)
               := serializeInterview newInterview]>
               (InterviewStore.interviews db);
           InterviewStore.interviewScreens :=
             <[serializedScreenId (serializeScreen screen)
               := serializeScreen screen]>
               (InterviewStore.interviewScreens db);
           InterviewStore.interviewScreenEntries :=
             InterviewStore.interviewScreenEntries db |}))
  /\ (InterviewStore.interviews db !! interviewId = None ->
      InterviewStore.addScreenToInterview serializeInterview
        deserializeInterview serializedInterviewId addScreen serializeScreen
        serializedScreenId (S fuel) interviewId screen db
      = (inl (missingInterview interviewId), db))
  /\ (hasPlaceholder interviewId = false ->
      missingInterview interviewId
      = InterviewStore.InvariantViolation
          ("[InterviewStore] addScreenToInterview: Could not find interview with id '"
           ++ interviewId ++ "'")).
Proof.
  split; [|split].
  - intros stored Hstored. cbn zeta.
    cbn [InterviewStore.addScreenToInterview].
    unfold InterviewStore.await at 1. unfold InterviewStore.getInterview.
    rewrite Hstored.
    unfold InterviewStore.await at 1. unfold InterviewStore.putInterview.
    unfold InterviewStore.await at 1. cbn [InterviewStore.putScreen].
    cbn [InterviewStore.interviews].
    destruct (decide (serializedInterviewId
                        (serializeInterview
                           (addScreen (deserializeInterview stored) screen))
                      = interviewId)) as [Hsame|Hother].
    + by rewrite Hsame, lookup_insert_eq.
    + by rewrite lookup_insert_ne, Hstored.
  - intros Hmissing. cbn [InterviewStore.addScreenToInterview].
    unfold InterviewStore.await, InterviewStore.getInterview.
    rewrite Hmissing. unfold InterviewStore.reject.
    by rewrite missing_interview_message.
  - intros Hplain. unfold missingInterview.
    by rewrite invariantMessage_plain.
Qed.

End StoreWrites.

Section StoreComposition.

Context {InterviewT SerializedInterview SerializedScreen SerializedAction : Type}.
Variable interviewScreensOf : InterviewT -> list string.
Variable serializeInterview : InterviewT -> SerializedInterview.
Variable deserializeInterview : SerializedInterview -> InterviewT.
Variable serializedInterviewId : SerializedInterview -> string.
Variable addScreen : InterviewT -> InterviewScreen.T -> InterviewT.
Variable serializeScreen : InterviewScreen.T -> SerializedScreen.
Variable deserializeScreen : SerializedScreen -> InterviewScreen.T.
Variable serializedScreenId : SerializedScreen -> string.

(** X27. A deleted interview is gone for every reader, and deleting it
    again changes nothing: after [deleteInterview], [getInterview]
    finds nothing under the id, [getScreensOfInterview] returns no
    screen, [getScreenEntriesOfInterview] returns the empty map, and a
    second [deleteInterview] leaves the database as the first one left
    it. *)
Theorem deleteInterview_is_final (interviewId : string)
  (db : @InterviewStore.DB SerializedInterview SerializedScreen
          SerializedAction) :
  let after :=
    snd (InterviewStore.deleteInterview interviewScreensOf
           deserializeInterview deserializeScreen interviewId db) in
  InterviewStore.getInterview deserializeInterview interviewId after
  = (inr None, after)
  /\ InterviewStore.getScreensOfInterview interviewScreensOf
       deserializeInterview deserializeScreen interviewId after
     = (inr [], after)
  /\ InterviewStore.getScreenEntriesOfInterview interviewScreensOf
       deserializeInterview deserializeScreen interviewId after
     = (inr ∅, after)
  /\ InterviewStore.deleteInterview interviewScreensOf deserializeInterview
       deserializeScreen interviewId after
     = (inr tt, after).
Proof.
  intros after.
  assert (InterviewStore.interviews after !! interviewId = None) as Hgone.
  { subst after.
    unfold InterviewStore.deleteInterview, InterviewStore.await,
      InterviewStore.getInterview.
    destruct (InterviewStore.interviews db !! interviewId) as [stored|] eqn:Hdb.
    - cbn [InterviewStore.getScreens snd InterviewStore.interviews].
      apply lookup_delete_eq.
    - done. }
  unfold InterviewStore.getScreensOfInterview,
    InterviewStore.getScreenEntriesOfInterview, InterviewStore.deleteInterview,
    InterviewStore.await, InterviewStore.getInterview.
  by rewrite Hgone.
Qed.

(** X28. A screen added to an interview is one of its screens: when
    adding a screen keeps the id of the interview and lists the id of
    the screen, and the interview and the screen survive their stored
    forms, [getScreensOfInterview] after [addScreenToInterview] on a
    stored interview returns the added screen among the screens. *)
Theorem added_screen_is_listed (fuel : nat) (interviewId : string)
  (screen : InterviewScreen.T) (stored : SerializedInterview)
  (db : @InterviewStore.DB SerializedInterview SerializedScreen
          SerializedAction) :
  let newInterview := addScreen (deserializeInterview stored) screen in
  InterviewStore.interviews db !! interviewId = Some stored ->
  serializedInterviewId (serializeInterview newInterview) = interviewId ->
  deserializeInterview (serializeInterview newInterview) = newInterview ->
  serializedScreenId (serializeScreen screen) ∈ interviewScreensOf newInterview ->
  deserializeScreen (serializeScreen screen) = screen ->
  exists screens after,
    InterviewStore.await
      (InterviewStore.addScreenToInterview serializeInterview
         deserializeInterview serializedInterviewId addScreen serializeScreen
         serializedScreenId (S (S fuel)) interviewId screen)
      (fun _ =>
         InterviewStore.getScreensOfInterview interviewScreensOf
           deserializeInterview deserializeScreen interviewId)
      db
    = (inr screens, after)
    /\ screen ∈ screens.
Proof.
  intros newInterview Hstored Hkey Hinterview Hlisted Hscreen.
  unfold InterviewStore.await at 1.
  cbn [InterviewStore.addScreenToInterview].
  unfold InterviewStore.await at 1. unfold InterviewStore.getInterview at 1.
  rewrite Hstored.
  unfold InterviewStore.await at 1. unfold InterviewStore.putInterview.
  unfold InterviewStore.await at 1. cbn [InterviewStore.putScreen].
  cbn [InterviewStore.interviews]. fold newInterview.
  rewrite Hkey, lookup_insert_eq.
  unfold InterviewStore.await at 1. unfold InterviewStore.storeScreen.
  unfold InterviewStore.resolve.
  unfold InterviewStore.getScreensOfInterview, InterviewStore.await,
    InterviewStore.getInterview.
  cbn [InterviewStore.interviews]. rewrite lookup_insert_eq, Hinterview.
  cbn [InterviewStore.getScreens InterviewStore.interviewScreens].
  eexists _, _. split; [reflexivity|].
  rewrite <- Hscreen at 1.
  apply list_elem_of_In, in_map, list_elem_of_In, nonNullable_elem.
  unfold InterviewStore.bulkGet.
  apply list_elem_of_In,
    (in_map_iff (fun key => _ !! key) (interviewScreensOf newInterview)).
  exists (serializedScreenId (serializeScreen screen)).
  split; [apply lookup_insert_eq|by apply list_elem_of_In].
Qed.

End StoreComposition.

(** ** The further properties at the sample data *)

(** The sample update comes back whole from [storedInterview "en;es"]. *)
Lemma update_round_trip_witness :
  Interview.interviewOf (deserializeSample (storedInterview "en;es"))
  = Interview.u_interview sampleUpdate.
Proof.
  refine (update_round_trip (fun iso => iso) (fun date => date)
            (fun _ => InterviewScreen.mkT "" "" false None [] [])
            (fun _ => tt) (fun _ => tt) (fun _ => tt) (fun _ => tt)
            (fun _ => tt) (fun _ => tt)
            sampleUpdate _ (storedInterview "en;es") eq_refl _ eq_refl _ _).
  - vm_compute. repeat split.
  - discriminate.
  - intros language Hin. apply list_elem_of_In in Hin.
    destruct Hin as [<-|[<-|[]]]; reflexivity.
Defined.

(** [insertGuest] creates one record in [tblGuests]. *)
Lemma insert_row_always_creates_witness :
  Runner.sinkCalls (snd (sampleHandle insertGuest Runner.initialWorld))
  = [Runner.CreateRecord "appBase" "tblGuests" "interview-1"
       {["fldName" := "Ada"; "fldWhen" := "2023-11-14T22:13:20.000Z"]}].
Proof.
  exact (insert_row_always_creates Script.getResponseValue sampleClock
           sampleSinkResult sampleToast "interview-1" sampleResponses
           (Runner.allEntriesOf sampleResponses) insertGuest "appBase"
           "tblGuests" Runner.initialWorld eq_refl).
Defined.

(** [editPerson] updates the record the respondent picked. *)
Lemma edit_row_updates_the_record_witness :
  Runner.sinkCalls (snd (sampleHandle editPerson Runner.initialWorld))
  = [Runner.UpdateRecord "appBase" "tblPeople" "rec123" "interview-1"
       {["fldName" := "Ada"; "fldWhen" := "2023-11-14T22:13:20.000Z"]}].
Proof.
  refine (edit_row_updates_the_record Script.getResponseValue sampleClock
            sampleSinkResult sampleToast "interview-1" sampleResponses
            (Runner.allEntriesOf sampleResponses) editPerson "entry-person"
            "rec123" (Some "id") personEntry Runner.initialWorld eq_refl
            _ eq_refl _ _).
  - vm_compute. reflexivity.
  - vm_compute. reflexivity.
  - discriminate.
Defined.

(** [fldWhen] of [insertGuest] holds the first reading of the clock. *)
Lemma special_value_is_always_sent_witness :
  Vocabulary.fieldsOf
    (Runner.CreateRecord "appBase" "tblGuests" "interview-1"
       {["fldName" := "Ada"; "fldWhen" := "2023-11-14T22:13:20.000Z"]})
    !! "fldWhen"
  = Some (JSDate.toISOString (sampleClock 0)).
Proof.
  refine (special_value_is_always_sent Script.getResponseValue sampleClock
            sampleSinkResult sampleToast "interview-1" sampleResponses
            (Runner.allEntriesOf sampleResponses) insertGuest
            Runner.initialWorld
            [Runner.CreateRecord "appBase" "tblGuests" "interview-1"
               {["fldName" := "Ada";
                 "fldWhen" := "2023-11-14T22:13:20.000Z"]}]
            _
            [("fldName", lookupEntry "entry-name");
             ("fldNick", lookupEntry "entry-nick")]
            [] "fldWhen" lookupNow _ eq_refl eq_refl _ _ _).
  - apply NoDup_ListNoDup. vm_compute.
    repeat constructor; vm_compute; intuition discriminate.
  - discriminate.
  - vm_compute. reflexivity.
  - left.
Defined.

(** The screen [GUESS] of the guessing game is found under its id. *)
Lemma indexScreens_finds_each_witness :
  RunnerSetup.indexScreens gameScreensWithChildren !! "GUESS"
  = Some (Script.mkWithChildrenT guessScreen [guessEntry]).
Proof.
  refine (proj1 (indexScreens_finds_each gameScreensWithChildren _)
            (Script.mkWithChildrenT guessScreen [guessEntry]) _).
  - apply NoDup_ListNoDup. vm_compute.
    repeat constructor; vm_compute; intuition discriminate.
  - right. left.
Defined.

(** Of the fields of [tblPeople], the editor offers [Status], which has choices. *)
Lemma offered_fields_have_choices_witness :
  exists allBases base allTables table allFields field allChoices,
    sampleBases = Some allBases
    /\ base ∈ allBases
    /\ InterviewSetting.baseId base = Some (Entry.selectedBase peopleTable)
    /\ InterviewSetting.tables base = Some allTables
    /\ table ∈ allTables
    /\ InterviewSetting.tableId table = Entry.selectedTable peopleTable
    /\ InterviewSetting.fields table = Some allFields
    /\ field ∈ allFields
    /\ AirtableFieldSelector.mkOption "Status" "Status"
       = {| AirtableFieldSelector.displayValue :=
              InterviewSetting.fieldName field;
            AirtableFieldSelector.value := InterviewSetting.fieldName field |}
    /\ InterviewSetting.options field
       = Some (InterviewSetting.mkAirtableFieldOptions (Some allChoices))
    /\ allChoices <> []
    /\ (forall choice, choice ∈ allChoices ->
          exists named name,
            choice = Some named
            /\ InterviewSetting.choiceName named = Some name
            /\ name <> "").
Proof.
  refine (offered_fields_have_choices sampleBases peopleTable
            (AirtableFieldSelector.mkOption "Status" "Status") _).
  vm_compute. left.
Defined.

(** The third action of the configured interview has order 3. *)
Lemma onAddClick_keeps_orders_witness :
  List.map OnSubmitCard.orderOf
    (Interview.u_submissionActions
       (OnSubmitCard.onAddClick "fresh-id" configuredInterview))
  = [1; 2; 3].
Proof.
  exact (proj1 (onAddClick_keeps_orders "fresh-id" 2 configuredInterview
                  eq_refl)).
Defined.

(** The entries of the stored guessing game, and of an interview that is not stored. *)
Lemma getScreenEntriesOfInterview_lists_stored_entries_witness :
  InterviewStore.getScreenEntriesOfInterview
    (snd : StoredInterview -> list string) (fun stored => stored)
    (fun screen => screen) "interview-2" sampleDB
  = (inr ∅, sampleDB)
  /\ exists screens entriesOfScreens,
       InterviewStore.getScreens (fun screen => screen)
         ["NAME"; "GUESS"; "MISSING"] sampleDB
       = (inr screens, sampleDB)
       /\ InterviewStore.getScreenEntriesOfInterview
            (snd : StoredInterview -> list string) (fun stored => stored)
            (fun screen => screen) "interview-1" sampleDB
          = (inr entriesOfScreens, sampleDB)
       /\ (forall screen, screen ∈ screens ->
             is_Some (entriesOfScreens !! InterviewScreen.id screen))
       /\ (forall screenId entries,
             entriesOfScreens !! screenId = Some entries ->
             exists screen,
               screen ∈ screens
               /\ InterviewScreen.id screen = screenId
               /\ entries
                  = InterviewStore.nonNullable
                      (InterviewStore.bulkGet
                         (InterviewScreen.entries screen)
                         (InterviewStore.interviewScreenEntries sampleDB))).
Proof.
  assert (StoreNotions.keyedById
            (InterviewStore.interviewScreenEntries sampleDB)) as Hkeyed.
  { intros key entry Hlookup.
    change (({["entry-name" := sampleEntry "entry-name" "name"]}
             : gmap string InterviewScreenEntry.T) !! key = Some entry)
      in Hlookup.
    apply lookup_singleton_Some in Hlookup as [<- <-]. reflexivity. }
  split.
  - refine (proj1 (getScreenEntriesOfInterview_lists_stored_entries
                     (snd : StoredInterview -> list string)
                     (fun stored => stored) (fun screen => screen)
                     "interview-2" sampleDB Hkeyed) _).
    change (({["interview-1" := ("interview-1", ["NAME"; "GUESS"; "MISSING"])]}
             : gmap string StoredInterview) !! "interview-2" = None).
    apply lookup_singleton_ne. discriminate.
  - refine (proj2 (getScreenEntriesOfInterview_lists_stored_entries
                     (snd : StoredInterview -> list string)
                     (fun stored => stored) (fun screen => screen)
                     "interview-1" sampleDB Hkeyed)
              ("interview-1", ["NAME"; "GUESS"; "MISSING"]) _).
    reflexivity.
Defined.

(** A second interview is put into the sample store and got back. *)
Lemma putInterview_then_getInterview_witness :
  exists after,
    InterviewStore.await
      (InterviewStore.putInterview (fun interview : StoredInterview => interview)
         fst ("interview-2", ["START"]))
      (fun _ => InterviewStore.getInterview (fun stored => stored)
                  "interview-2")
      sampleDB
    = (inr (Some ("interview-2", ["START"])), after)
    /\ (forall other, other <> "interview-2" ->
          InterviewStore.interviews after !! other
          = InterviewStore.interviews sampleDB !! other)
    /\ InterviewStore.interviewScreens after
       = InterviewStore.interviewScreens sampleDB
    /\ InterviewStore.interviewScreenEntries after
       = InterviewStore.interviewScreenEntries sampleDB
    /\ InterviewStore.conditionalActions after
       = InterviewStore.conditionalActions sampleDB.
Proof.
  exact (putInterview_then_getInterview
           (fun interview : StoredInterview => interview)
           (fun stored => stored) fst ("interview-2", ["START"])
           "interview-2" sampleDB eq_refl eq_refl).
Defined.

(** The screen [INCORRECT_GUESS] is added to the stored guessing game
    and is then among its screens. *)
Lemma added_screen_is_listed_witness :
  exists screens after,
    InterviewStore.await
      (InterviewStore.addScreenToInterview
         (fun interview : StoredInterview => interview)
         (fun stored => stored) fst addStoredScreen
         (fun screen => screen) InterviewScreen.id 2 "interview-1"
         incorrectScreen)
      (fun _ =>
         InterviewStore.getScreensOfInterview snd (fun stored => stored)
           (fun screen => screen) "interview-1")
      sampleDB
    = (inr screens, after)
    /\ incorrectScreen ∈ screens.
Proof.
  refine (added_screen_is_listed snd
            (fun interview : StoredInterview => interview)
            (fun stored => stored) fst addStoredScreen
            (fun screen => screen) (fun screen => screen) InterviewScreen.id
            0 "interview-1" incorrectScreen
            ("interview-1", ["NAME"; "GUESS"; "MISSING"]) sampleDB
            eq_refl eq_refl eq_refl _ eq_refl).
  apply list_elem_of_In. simpl. tauto.
Defined.
